(** * Fishing-log analyser: the parser core and the record cache

    A shallow embedding of [FishingLogParser] (the three compiled
    patterns, [_parse_weight], [parse_line_fast], [parse_text]), of the
    input guard of [FishingLogAnalyzer.analyze] and of [RecordCache],
    followed by the properties of the specification that concern them.

    Python text is a sequence of code points, so a [str] is a list of
    code points; floats are IEEE binary64 values, taken from the
    Standard Library's [SpecFloat]; the pending-hook dict is a [gmap]
    keyed by the rod number; the cache dict, whose iteration order the
    eviction depends on, is an association list in insertion order. *)

From Stdlib Require Import ZArith NArith List Bool Lia String Ascii Sorted.
From Stdlib Require Import Floats.SpecFloat.
From Stdlib Require Floats.PrimFloat Floats.FloatOps.
From stdpp Require Import base option list gmap.

Local Open Scope N_scope.

(** ** Text *)

Abbreviation char := N (only parsing).
Abbreviation str := (list N) (only parsing).

(** Source literals are written as UTF-8 text and decoded to code points. *)
Fixpoint utf8_decode (bs : list N) : str :=
  match bs with
  | [] => []
  | b0 :: r0 =>
    if b0 <? 128 then b0 :: utf8_decode r0
    else
      match r0 with
      | [] => []
      | b1 :: r1 =>
        if b0 <? 224 then ((b0 - 192) * 64 + (b1 - 128)) :: utf8_decode r1
        else
          match r1 with
          | [] => []
          | b2 :: r2 =>
            if b0 <? 240
            then (((b0 - 224) * 64 + (b1 - 128)) * 64 + (b2 - 128)) :: utf8_decode r2
            else
              match r2 with
              | [] => []
              | b3 :: r3 =>
                ((((b0 - 240) * 64 + (b1 - 128)) * 64 + (b2 - 128)) * 64 + (b3 - 128))
                  :: utf8_decode r3
              end
          end
      end
  end.

Definition u (s : string) : str :=
  utf8_decode (List.map N_of_ascii (list_ascii_of_string s)).

Definition LF : char := 10.
Definition CR : char := 13.

(** [Py_UNICODE_ISSPACE]: the characters [str.strip] removes. *)
Definition is_space (c : char) : bool :=
  ((9 <=? c) && (c <=? 13)) || ((28 <=? c) && (c <=? 32)) || (c =? 133) || (c =? 160)
  || (c =? 5760) || ((8192 <=? c) && (c <=? 8202)) || (c =? 8232) || (c =? 8233)
  || (c =? 8239) || (c =? 8287) || (c =? 12288).

(** [Py_UNICODE_ISLINEBREAK]: the characters [str.splitlines] cuts at. *)
Definition is_linebreak (c : char) : bool :=
  ((10 <=? c) && (c <=? 13)) || ((28 <=? c) && (c <=? 30)) || (c =? 133)
  || (c =? 8232) || (c =? 8233).

(** The zero of every run of ten Unicode decimal digits (category Nd,
    Unicode 14): [\d] of a [str] pattern, and the digits [int] and
    [float] accept, are exactly these. *)
Definition decimal_zeros : list N :=
  [48; 1632; 1776; 1984; 2406; 2534; 2662; 2790; 2918; 3046; 3174; 3302; 3430;
   3558; 3664; 3792; 3872; 4160; 4240; 6112; 6160; 6470; 6608; 6784; 6800; 6992;
   7088; 7232; 7248; 42528; 43216; 43264; 43472; 43504; 43600; 44016; 65296;
   66720; 68912; 69734; 69872; 69942; 70096; 70384; 70736; 70864; 71248; 71360;
   71472; 71904; 72016; 72784; 73040; 73120; 92768; 92864; 93008; 120782; 120792;
   120802; 120812; 120822; 123200; 123632; 125264; 130032].

(** [Py_UNICODE_TODECIMAL]: the value of a decimal digit, if it is one. *)
Fixpoint decimal_in (zeros : list N) (c : char) : option Z :=
  match zeros with
  | [] => None
  | z :: zs =>
    if (z <=? c) && (c <? z + 10) then Some (Z.of_N (c - z)) else decimal_in zs c
  end.

Definition to_decimal (c : char) : option Z := decimal_in decimal_zeros c.

Definition is_decimal (c : char) : bool :=
  match to_decimal c with Some _ => true | None => false end.

(** [s.startswith(p)]. *)
Fixpoint starts_with (p s : str) : bool :=
  match p, s with
  | [], _ => true
  | _ :: _, [] => false
  | a :: p', b :: s' => (a =? b) && starts_with p' s'
  end.

(** [sub in s]. *)
Fixpoint contains (sub s : str) : bool :=
  starts_with sub s ||
  match s with
  | [] => false
  | _ :: s' => contains sub s'
  end.

(** [s.split(sep, 1)]: the text before and after the first [sep], or the
    text alone when there is none. *)
Fixpoint split1 (sep s : str) : list str :=
  if starts_with sep s then [[]; skipn (length sep) s]
  else
    match s with
    | [] => [[]]
    | c :: s' =>
      match split1 sep s' with
      | p0 :: rest => (c :: p0) :: rest
      | [] => []
      end
    end.

(** [s.strip()]. *)
Fixpoint lstrip (s : str) : str :=
  match s with
  | c :: s' => if is_space c then lstrip s' else s
  | [] => []
  end.

Definition rstrip (s : str) : str := rev (lstrip (rev s)).

Definition strip (s : str) : str := rstrip (lstrip s).

(** [s.splitlines()]: [cur] is the line being read. A carriage return
    followed by a line feed is one boundary, and a final line break opens
    no empty last line. *)
Fixpoint splitlines_from (cur s : str) : list str :=
  match s with
  | [] => match cur with [] => [] | _ => [cur] end
  | c :: s' =>
    if is_linebreak c then
      match s' with
      | c2 :: s'' =>
        if (c =? CR) && (c2 =? LF) then cur :: splitlines_from [] s''
        else cur :: splitlines_from [] s'
      | [] => [cur]
      end
    else splitlines_from (cur ++ [c]) s'
  end.

Definition splitlines (s : str) : list str := splitlines_from [] s.

(** ** Exceptions *)

Inductive exn := ValueError | IndexError | StopIteration.

Inductive result (A : Type) :=
| Ret (a : A)
| Raise (e : exn).
Arguments Ret {A} a.
Arguments Raise {A} e.

Definition bind {A B} (x : result A) (f : A -> result B) : result B :=
  match x with
  | Ret a => f a
  | Raise e => Raise e
  end.

Notation "'do' x <- e1 ; e2" := (bind e1 (fun x => e2))
  (at level 10, x name, e1 at level 100, e2 at level 200).


(** ** Regular expressions

    The fragment of [re] syntax the three patterns are written in, and a
    backtracking matcher that tries the alternatives in the order the
    [re] engine does: the left branch of [|] first, the longest run first
    for a greedy repetition and the shortest first for a lazy one. The
    continuation receives the text still to be read and the groups
    captured so far, so a failed attempt leaves no capture behind. *)

Inductive regex :=
| Lit (s : str)                         (* literal text *)
| Cls (p : char -> bool)                (* one character of a class *)
| Plus (greedy : bool) (p : char -> bool)   (* p+ and p+? *)
| Star (greedy : bool) (p : char -> bool)   (* p* and p*? *)
| Seq (a b : regex)
| Alt (a b : regex)
| Grp (n : nat) (a : regex)             (* the n-th capturing group *)
| Eos.                                  (* $ *)

Definition groups := nat -> option str.

Definition no_groups : groups := fun _ => None.

Definition set_group (n : nat) (w : str) (g : groups) : groups :=
  fun i => if Nat.eqb i n then Some w else g i.

Definition cont := str -> groups -> option groups.

(** One or more characters of [p], then [k]. *)
Fixpoint plus_greedy (p : char -> bool) (k : cont) (s : str) (g : groups) : option groups :=
  match s with
  | [] => None
  | x :: s' =>
    if p x then
      match plus_greedy p k s' g with
      | Some r => Some r
      | None => k s' g
      end
    else None
  end.

Fixpoint plus_lazy (p : char -> bool) (k : cont) (s : str) (g : groups) : option groups :=
  match s with
  | [] => None
  | x :: s' =>
    if p x then
      match k s' g with
      | Some r => Some r
      | None => plus_lazy p k s' g
      end
    else None
  end.

Definition or_else (a b : option groups) : option groups :=
  match a with
  | Some r => Some r
  | None => b
  end.

Fixpoint rmatch (r : regex) (k : cont) (s : str) (g : groups) : option groups :=
  match r with
  | Lit l => if starts_with l s then k (skipn (length l) s) g else None
  | Cls p =>
    match s with
    | x :: s' => if p x then k s' g else None
    | [] => None
    end
  | Plus true p => plus_greedy p k s g
  | Plus false p => plus_lazy p k s g
  | Star true p => or_else (plus_greedy p k s g) (k s g)
  | Star false p => or_else (k s g) (plus_lazy p k s g)
  | Seq a b => rmatch a (rmatch b k) s g
  | Alt a b => or_else (rmatch a k s g) (rmatch b k s g)
  | Grp n a =>
    rmatch a (fun s' g' => k s' (set_group n (firstn (length s - length s') s) g')) s g
  | Eos =>
    match s with
    | [] => k s g
    | [c] => if c =? LF then k s g else None
    | _ => None
    end
  end.

(** [pattern.search(s)]: the first position, from the left, at which the
    pattern matches. *)
Fixpoint search (r : regex) (s : str) : option groups :=
  match rmatch r (fun _ g => Some g) s no_groups with
  | Some m => Some m
  | None =>
    match s with
    | [] => None
    | _ :: s' => search r s'
    end
  end.

(** [match.group(n)], for a group that took part in the match. *)
Definition group (m : groups) (n : nat) : str :=
  match m n with
  | Some w => w
  | None => []
  end.

Declare Scope regex_scope.
Delimit Scope regex_scope with re.
Bind Scope regex_scope with regex.
Infix "·" := Seq (at level 60, right associativity) : regex_scope.

(** [\d], [.] and [[\d.]]. *)
Definition digit (c : char) : bool := is_decimal c.
Definition dot (c : char) : bool := negb (c =? LF).
Definition digit_or_dot (c : char) : bool := is_decimal c || (c =? 46).

Definition HOOK_PATTERN : regex :=
  (Lit (u "鱼上钩了！鱼竿：") · Grp 1 (Cls digit) · Lit (u "，鱼信息:【")
   · Grp 2 (Plus false dot) · Lit (u "】") · Grp 3 (Plus true digit_or_dot)
   · Grp 4 (Alt (Lit (u "kg")) (Lit (u "g"))))%re.

Definition CAPTURE_PATTERN : regex :=
  (Lit (u "捕获：鱼竿:") · Grp 1 (Cls digit) · Lit (u ",【")
   · Grp 2 (Plus false dot) · Lit (u "】") · Star false dot
   · Grp 3 (Plus true digit_or_dot) · Grp 4 (Alt (Lit (u "公斤")) (Lit (u "克")))
   · Star false dot · Lit (u "总经验:") · Grp 5 (Plus true digit)
   · Star false dot · Lit (u "耗时:") · Grp 6 (Plus true digit) · Lit (u "秒")
   · Star false dot · Lit (u "鱼饵:") · Grp 7 (Plus true dot) · Eos)%re.

Definition LOST_PATTERN : regex :=
  (Lit (u "鱼脱钩了！鱼竿：") · Grp 1 (Cls digit))%re.

(** ** Numbers *)

(** [float] is IEEE binary64; [/] rounds to nearest, ties to even. *)
Definition float := spec_float.
Definition prec : Z := 53.
Definition emax : Z := 1024.
Definition fdiv (x y : float) : float := SFdiv prec emax x y.
Definition float_of_Z (z : Z) : float := binary_normalize prec emax z 0 false.
Definition float_zero : float := S754_zero false.

(** The binary64 values that the literals [0.5], [1.2] and [2.5] denote,
    as the prover's own reader of float literals gives them; [1.2] is
    written by the hexadecimal name of the float nearest to it. *)
Module Literal.
Import PrimFloat FloatOps.
Definition float_0_5 : spec_float := Prim2SF 0.5%float.
Definition float_1_2 : spec_float := Prim2SF 0x1.3333333333333p+0%float.
Definition float_2_5 : spec_float := Prim2SF 2.5%float.
End Literal.

(** The quotient [m / d] of two integers, [0 <= m] and [0 < d], rounded
    once: [SFdiv] takes the mantissas as they are, however long. *)
Definition float_ratio (m d : Z) : float :=
  match m, d with
  | Zpos p, Zpos q => fdiv (S754_finite false p 0) (S754_finite false q 0)
  | _, _ => float_zero
  end.

(** The digits and the point of a decimal literal: digits, at most one
    point, digits. [int_part] and [frac_part] return the integer the
    digits spell, the number of digits after the point, and whether any
    digit was read. *)
Fixpoint frac_part (m : Z) (k : nat) (seen : bool) (s : str) : option (Z * nat * bool) :=
  match s with
  | [] => Some (m, k, seen)
  | c :: s' =>
    match to_decimal c with
    | Some d => frac_part (10 * m + d)%Z (S k) true s'
    | None => None
    end
  end.

Fixpoint int_part (m : Z) (seen : bool) (s : str) : option (Z * nat * bool) :=
  match s with
  | [] => Some (m, O, seen)
  | c :: s' =>
    if c =? 46 then frac_part m O seen s'
    else
      match to_decimal c with
      | Some d => int_part (10 * m + d)%Z true s'
      | None => None
      end
  end.

Definition decimal_literal (s : str) : option (Z * nat) :=
  match int_part 0 false s with
  | Some (m, k, true) => Some (m, k)
  | _ => None
  end.

(** [float(s)] for text made of decimal digits and points, which is all
    that [[\d.]+] captures: the correctly rounded value of a decimal
    literal, [ValueError] for anything else ("1.2.3", "."). *)
Definition py_float (s : str) : result float :=
  match decimal_literal s with
  | Some (m, k) => Ret (float_ratio m (10 ^ Z.of_nat k))
  | None => Raise ValueError
  end.

Fixpoint decimal_value (acc : Z) (s : str) : option Z :=
  match s with
  | [] => Some acc
  | c :: s' =>
    match to_decimal c with
    | Some d => decimal_value (10 * acc + d)%Z s'
    | None => None
    end
  end.

(** [sys.get_int_max_str_digits()] as CPython sets it by default: since
    Python 3.11, [int] raises [ValueError] for text of more decimal
    digits than this. *)
Definition int_max_str_digits : nat := 4300.

(** [int(s)] for text made of decimal digits, which is all that [\d] and
    [\d+] capture; longer text than the limit is refused. *)
Definition py_int (s : str) : result Z :=
  match s with
  | [] => Raise ValueError
  | _ :: _ =>
    if (int_max_str_digits <? length s)%nat then Raise ValueError
    else
      match decimal_value 0 s with
      | Some z => Ret z
      | None => Raise ValueError
      end
  end.

Fixpoint str_eqb (a b : str) : bool :=
  match a, b with
  | [], [] => true
  | x :: a', y :: b' => (x =? y) && str_eqb a' b'
  | _, _ => false
  end.

(** [x in (a, b, ...)]. *)
Definition str_in (x : str) (l : list str) : bool := existsb (str_eqb x) l.

(** ** Records *)

Record FishingRecord := {
  record_type : str;     (* "capture" or "lost" *)
  time : str;
  rod : Z;
  fish : str;
  weight : float;
  exp : Z;
  cost : str;
  bait : str
}.

(** ** The parser *)

Module FishingLogParser.

(** The dict [parse_line_fast] returns, by its ["type"]. *)
Inductive parsed :=
| PHook (time : str) (rod : Z) (fish : str) (weight : float)
| PCapture (time : str) (rod : Z) (fish : str) (weight : float)
           (exp : Z) (cost : str) (bait : str)
| PLost (time : str) (rod : Z) (fish : str) (weight : float).

Definition p_time (p : parsed) : str :=
  match p with
  | PHook t _ _ _ | PCapture t _ _ _ _ _ _ | PLost t _ _ _ => t
  end.

Definition p_rod (p : parsed) : Z :=
  match p with
  | PHook _ r _ _ | PCapture _ r _ _ _ _ _ | PLost _ r _ _ => r
  end.

Definition p_fish (p : parsed) : str :=
  match p with
  | PHook _ _ f _ | PCapture _ _ f _ _ _ _ | PLost _ _ f _ => f
  end.

Definition p_weight (p : parsed) : float :=
  match p with
  | PHook _ _ _ w | PCapture _ _ _ w _ _ _ | PLost _ _ _ w => w
  end.

Definition _parse_weight (value unit : str) : result float :=
  do weight <- py_float value;
  Ret (if str_in unit [u "g"; u "克"] then fdiv weight (float_of_Z 1000) else weight).

(** [parts[i]]. *)
Definition item (parts : list str) (i : nat) : result str :=
  match nth_error parts i with
  | Some x => Ret x
  | None => Raise IndexError
  end.

Definition SEP : str := u " : ".

Definition parse_line_fast (line : str) : result (option parsed) :=
  if negb (contains SEP line) then Ret None
  else
    let parts := split1 SEP line in
    do p0 <- item parts 0;
    let time := strip p0 in
    do content <- item parts 1;
    if contains (u "鱼上钩了") content then
      match search HOOK_PATTERN content with
      | Some m =>
        do rod <- py_int (group m 1);
        let fish := firstn 10 (group m 2) in
        do weight <- _parse_weight (group m 3) (group m 4);
        Ret (Some (PHook time rod fish weight))
      | None => Ret None
      end
    else if contains (u "捕获") content then
      match search CAPTURE_PATTERN content with
      | Some m =>
        do rod <- py_int (group m 1);
        let fish := firstn 10 (group m 2) in
        do weight <- _parse_weight (group m 3) (group m 4);
        do exp <- py_int (group m 5);
        let cost := group m 6 ++ u "秒" in
        let bait := group m 7 in
        Ret (Some (PCapture time rod fish weight exp cost bait))
      | None => Ret None
      end
    else if contains (u "鱼脱钩了") content then
      match search LOST_PATTERN content with
      | Some m =>
        do rod <- py_int (group m 1);
        Ret (Some (PLost time rod (u "？") float_zero))
      | None => Ret None
      end
    else Ret None.

(** The two locals of [parse_text] that the loop updates. *)
Record pass := {
  records : list FishingRecord;
  hook_cache : gmap Z parsed
}.

(** The body of the loop of [parse_text] for one line. The pause taken
    every thousand lines changes neither local and is left out. *)
Definition parse_step (st : pass) (line : str) : result pass :=
  do parsed <- parse_line_fast line;
  match parsed with
  | None => Ret st
  | Some (PHook _ r _ _ as p) =>
    Ret {| records := records st; hook_cache := <[r := p]> (hook_cache st) |}
  | Some (PCapture t r f w e c b) =>
    Ret {| records := records st ++
             [{| record_type := u "capture"; time := t; rod := r; fish := f;
                 weight := w; exp := e; cost := c; bait := b |}];
           hook_cache := delete r (hook_cache st) |}
  | Some (PLost t r _ _) =>
    match hook_cache st !! r with
    | Some hook_data =>
      Ret {| records := records st ++
               [{| record_type := u "lost"; time := p_time hook_data; rod := r;
                   fish := p_fish hook_data; weight := p_weight hook_data;
                   exp := 0; cost := []; bait := u "脱钩" |}];
             hook_cache := delete r (hook_cache st) |}
    | None =>
      Ret {| records := records st ++
               [{| record_type := u "lost"; time := t; rod := r;
                   fish := u "？"; weight := float_zero;
                   exp := 0; cost := []; bait := u "脱钩" |}];
             hook_cache := delete r (hook_cache st) |}
    end
  end.

Fixpoint parse_lines (lines : list str) (st : pass) : result pass :=
  match lines with
  | [] => Ret st
  | line :: rest => do st' <- parse_step st line; parse_lines rest st'
  end.

Definition start : pass := {| records := []; hook_cache := ∅ |}.

Definition parse_text (text : str) : result (list FishingRecord) :=
  let lines := splitlines (strip text) in
  do st <- parse_lines lines start;
  Ret (records st).

End FishingLogParser.

(** ** The cache *)

Module RecordCache.

(** A dict iterates over its keys in the order they were first inserted;
    assigning to a key that is present keeps its place. *)
Definition dict := list (str * list FishingRecord).

Fixpoint dict_get (key : str) (d : dict) : option (list FishingRecord) :=
  match d with
  | [] => None
  | (k, v) :: d' => if str_eqb k key then Some v else dict_get key d'
  end.

Fixpoint dict_set (key : str) (v : list FishingRecord) (d : dict) : dict :=
  match d with
  | [] => [(key, v)]
  | (k, v0) :: d' => if str_eqb k key then (k, v) :: d' else (k, v0) :: dict_set key v d'
  end.

Fixpoint dict_del (key : str) (d : dict) : dict :=
  match d with
  | [] => []
  | (k, v) :: d' => if str_eqb k key then d' else (k, v) :: dict_del key d'
  end.

Record t := {
  max_size : Z;
  cache : dict
}.

Definition CACHE_SIZE : Z := 1000.

Definition init (max_size : Z) : t := {| max_size := max_size; cache := [] |}.

Definition get (c : t) (key : str) : option (list FishingRecord) :=
  dict_get key (cache c).

(** [next(iter(d))]. *)
Definition first_key (d : dict) : result str :=
  match d with
  | (k, _) :: _ => Ret k
  | [] => Raise StopIteration
  end.

Definition set (c : t) (key : str) (records : list FishingRecord) : result t :=
  do d <- (if (max_size c <=? Z.of_nat (length (cache c)))%Z
           then do k <- first_key (cache c); Ret (dict_del k (cache c))
           else Ret (cache c));
  Ret {| max_size := max_size c; cache := dict_set key records d |}.

Definition clear (c : t) : t := {| max_size := max_size c; cache := [] |}.

End RecordCache.

(** ** The caller *)

Module FishingLogAnalyzer.

(** What [analyze] tells the user. The drawing of the table is left out. *)
Inductive outcome :=
| EmptyInputWarning                       (* showwarning, before any parsing *)
| ParseError (e : exn)                    (* showerror, from the handler *)
| NoRecords                               (* showinfo: nothing found *)
| Parsed (records : list FishingRecord).  (* showinfo: success *)

Section Analyze.

(** [str(hash(text))]. *)
Variable cache_key : str -> str.

Definition analyze (cache : RecordCache.t) (input : str) : outcome * RecordCache.t :=
  let text := strip input in
  match text with
  | [] => (EmptyInputWarning, cache)
  | _ :: _ =>
    match FishingLogParser.parse_text text with
    | Raise e => (ParseError e, cache)
    | Ret [] => (NoRecords, cache)
    | Ret ((_ :: _) as all_records) =>
      match RecordCache.set cache (cache_key text) all_records with
      | Raise e => (ParseError e, cache)
      | Ret cache' => (Parsed all_records, cache')
      end
    end
  end.

End Analyze.

End FishingLogAnalyzer.

(** ** What a match is

    [matches r w rest g g']: the pattern [r] reads the text [w], with
    [rest] still ahead, and turns the captures [g] into [g']. It says
    which texts a pattern accepts and what its groups then hold, without
    saying which of several possible matches the engine returns. *)
Fixpoint matches (r : regex) (w rest : str) (g g' : groups) : Prop :=
  match r with
  | Lit l => w = l /\ g' = g
  | Cls p => exists x, w = [x] /\ p x = true /\ g' = g
  | Plus _ p => w <> [] /\ Forall (fun x => p x = true) w /\ g' = g
  | Star _ p => Forall (fun x => p x = true) w /\ g' = g
  | Seq a b =>
    exists w1 w2 g1,
      w = w1 ++ w2 /\ matches a w1 (w2 ++ rest) g g1 /\ matches b w2 rest g1 g'
  | Alt a b => matches a w rest g g' \/ matches b w rest g g'
  | Grp n a => exists g1, matches a w rest g g1 /\ g' = set_group n w g1
  | Eos => w = [] /\ (rest = [] \/ rest = [LF]) /\ g' = g
  end.

(** ** What the classifier does, branch by branch *)

Import FishingLogParser.

(** A successful search of each pattern, with the fields it captured. *)
Definition hook_found (content : str) (m : groups) (d : N) (name num unit : str) : Prop :=
  search HOOK_PATTERN content = Some m /\
  digit d = true /\ name <> [] /\ Forall (fun x => dot x = true) name /\
  num <> [] /\ Forall (fun x => digit_or_dot x = true) num /\
  (unit = u "kg" \/ unit = u "g") /\
  group m 1 = [d] /\ group m 2 = name /\ group m 3 = num /\ group m 4 = unit.

Definition capture_found (content : str) (m : groups) (d : N)
           (name num unit xp secs bait : str) : Prop :=
  search CAPTURE_PATTERN content = Some m /\
  digit d = true /\ name <> [] /\ Forall (fun x => dot x = true) name /\
  num <> [] /\ Forall (fun x => digit_or_dot x = true) num /\
  (unit = u "公斤" \/ unit = u "克") /\
  xp <> [] /\ Forall (fun x => digit x = true) xp /\
  secs <> [] /\ Forall (fun x => digit x = true) secs /\
  bait <> [] /\ Forall (fun x => dot x = true) bait /\
  group m 1 = [d] /\ group m 2 = name /\ group m 3 = num /\ group m 4 = unit /\
  group m 5 = xp /\ group m 6 = secs /\ group m 7 = bait.

Definition lost_found (content : str) (m : groups) (d : N) : Prop :=
  search LOST_PATTERN content = Some m /\ digit d = true /\ group m 1 = [d].

(** The weight of a hook line and of a capture line, from the matched
    number and unit. *)
Definition weight_of (num unit : str) (w : float) : Prop :=
  exists x, py_float num = Ret x /\
    (((unit = u "g" \/ unit = u "克") /\ w = fdiv x (float_of_Z 1000)) \/
     ((unit = u "kg" \/ unit = u "公斤") /\ w = x)).

(** Every outcome of [parse_line_fast], branch by branch. *)
Inductive outcome_of (line : str) : result (option parsed) -> Prop :=
| no_separator :
    contains SEP line = false -> outcome_of line (Ret None)
| no_marker p0 content :
    split1 SEP line = [p0; content] ->
    contains (u "鱼上钩了") content = false ->
    contains (u "捕获") content = false ->
    contains (u "鱼脱钩了") content = false ->
    outcome_of line (Ret None)
| hook_no_match p0 content :
    split1 SEP line = [p0; content] ->
    contains (u "鱼上钩了") content = true ->
    search HOOK_PATTERN content = None ->
    outcome_of line (Ret None)
| hook_bad_weight p0 content m d name num unit :
    split1 SEP line = [p0; content] ->
    contains (u "鱼上钩了") content = true ->
    hook_found content m d name num unit ->
    decimal_literal num = None ->
    outcome_of line (Raise ValueError)
| hook_ok p0 content m d name num unit r w :
    split1 SEP line = [p0; content] ->
    contains (u "鱼上钩了") content = true ->
    hook_found content m d name num unit ->
    to_decimal d = Some r ->
    weight_of num unit w ->
    outcome_of line (Ret (Some (PHook (strip p0) r (firstn 10 name) w)))
| capture_no_match p0 content :
    split1 SEP line = [p0; content] ->
    contains (u "鱼上钩了") content = false ->
    contains (u "捕获") content = true ->
    search CAPTURE_PATTERN content = None ->
    outcome_of line (Ret None)
| capture_bad_weight p0 content m d name num unit xp secs bait :
    split1 SEP line = [p0; content] ->
    contains (u "鱼上钩了") content = false ->
    contains (u "捕获") content = true ->
    capture_found content m d name num unit xp secs bait ->
    decimal_literal num = None ->
    outcome_of line (Raise ValueError)
| capture_long_exp p0 content m d name num unit xp secs bait :
    split1 SEP line = [p0; content] ->
    contains (u "鱼上钩了") content = false ->
    contains (u "捕获") content = true ->
    capture_found content m d name num unit xp secs bait ->
    decimal_literal num <> None ->
    (int_max_str_digits < length xp)%nat ->
    outcome_of line (Raise ValueError)
| capture_ok p0 content m d name num unit xp secs bait r w e :
    split1 SEP line = [p0; content] ->
    contains (u "鱼上钩了") content = false ->
    contains (u "捕获") content = true ->
    capture_found content m d name num unit xp secs bait ->
    to_decimal d = Some r ->
    weight_of num unit w ->
    py_int xp = Ret e ->
    outcome_of line
      (Ret (Some (PCapture (strip p0) r (firstn 10 name) w e (secs ++ u "秒") bait)))
| lost_no_match p0 content :
    split1 SEP line = [p0; content] ->
    contains (u "鱼上钩了") content = false ->
    contains (u "捕获") content = false ->
    contains (u "鱼脱钩了") content = true ->
    search LOST_PATTERN content = None ->
    outcome_of line (Ret None)
| lost_ok p0 content m d r :
    split1 SEP line = [p0; content] ->
    contains (u "鱼上钩了") content = false ->
    contains (u "捕获") content = false ->
    contains (u "鱼脱钩了") content = true ->
    lost_found content m d ->
    to_decimal d = Some r ->
    outcome_of line (Ret (Some (PLost (strip p0) r (u "？") float_zero))).


(** ** Passes that differ in one slot *)

(** The line is neither a Capture nor a Lost event of slot [r]: it does
    not resolve a pending hook of that slot. *)
Definition not_resolving (r : Z) (line : str) : Prop :=
  (forall t f w e c b, parse_line_fast line <> Ret (Some (PCapture t r f w e c b))) /\
  (forall t f w, parse_line_fast line <> Ret (Some (PLost t r f w))).

(** The same records, and the same pending hooks except perhaps for [r]. *)
Definition same_off (r : Z) (s1 s2 : pass) : Prop :=
  records s1 = records s2 /\
  forall k, k <> r -> hook_cache s1 !! k = hook_cache s2 !! k.

(** ** Lines that make the classifier raise *)

(** The hook grammar matches and [float] refuses the weight text it
    captured, or the capture grammar matches and either [float] refuses
    the weight text or [int] refuses the experience digits for their
    number. *)
Definition bad_number (line : str) : Prop :=
  exists p0 content m,
    split1 SEP line = [p0; content] /\
    ((contains (u "鱼上钩了") content = true /\
      search HOOK_PATTERN content = Some m /\
      decimal_literal (group m 3) = None) \/
     (contains (u "鱼上钩了") content = false /\
      contains (u "捕获") content = true /\
      search CAPTURE_PATTERN content = Some m /\
      (decimal_literal (group m 3) = None \/
       (int_max_str_digits < length (group m 5))%nat))).

(** ** A cache over a sequence of operations

    A history of [set] and [get] calls on one cache, with a clock that
    counts the calls to [set] and, for every key, the time [born] at which
    the key last entered the cache: a [set] of a key that the dict does
    not hold once room has been made. Neither the clock nor [born] is
    read by [set] or [get]. *)

Module CacheHistory.

Inductive op :=
| OpSet (key : str) (records : list FishingRecord)
| OpGet (key : str).

Definition keys (d : RecordCache.dict) : list str := List.map fst d.

(** The key that the next [set] deletes, if the cache is full. *)
Definition evicts (c : RecordCache.t) : option str :=
  if (RecordCache.max_size c <=? Z.of_nat (length (RecordCache.cache c)))%Z
  then match RecordCache.cache c with
       | (k, _) :: _ => Some k
       | [] => None
       end
  else None.

(** Whether assigning to [key] inserts it. *)
Definition enters (c : RecordCache.t) (key : str) : bool :=
  match RecordCache.dict_get key (RecordCache.cache c) with
  | None => true
  | Some _ =>
    match evicts c with
    | Some k0 => str_eqb k0 key
    | None => false
    end
  end.

Record traced := {
  state : RecordCache.t;
  clock : nat;
  born : str -> nat
}.

Definition step (tr : traced) (o : op) : result traced :=
  match o with
  | OpGet key => Ret tr
  | OpSet key records =>
    do c' <- RecordCache.set (state tr) key records;
    Ret {| state := c';
           clock := S (clock tr);
           born := if enters (state tr) key
                   then fun k => if str_eqb k key then clock tr else born tr k
                   else born tr |}
  end.

Fixpoint run (ops : list op) (tr : traced) : result traced :=
  match ops with
  | [] => Ret tr
  | o :: rest => do tr' <- step tr o; run rest tr'
  end.

Definition new (max_size : Z) : traced :=
  {| state := RecordCache.init max_size; clock := O; born := fun _ => O |}.

Definition is_set (o : op) : bool :=
  match o with
  | OpSet _ _ => true
  | OpGet _ => false
  end.

(** What the history keeps true. *)
Definition ordered (tr : traced) : Prop :=
  StronglySorted (fun a b => (born tr a < born tr b)%nat)
                 (keys (RecordCache.cache (state tr))) /\
  Forall (fun k => (born tr k < clock tr)%nat) (keys (RecordCache.cache (state tr))).

End CacheHistory.

(** ** The events of a text *)

(** The event a line is, if it is one. *)
Definition event_of (line : str) : option parsed :=
  match parse_line_fast line with
  | Ret (Some p) => Some p
  | _ => None
  end.

(** The type and the slot of the record a line adds, if it adds one. *)
Definition finalizes (line : str) : option (str * Z) :=
  match event_of line with
  | Some (PCapture _ r _ _ _ _ _) => Some (u "capture", r)
  | Some (PLost _ r _ _) => Some (u "lost", r)
  | _ => None
  end.

Definition of_rod (r : Z) (line : str) : bool :=
  match event_of line with
  | Some p => (p_rod p =? r)%Z
  | None => false
  end.

(** The line is not Unrecognized: it is an event, or it raises. *)
Definition recognized (line : str) : bool :=
  match parse_line_fast line with
  | Ret None => false
  | _ => true
  end.

(** The last event of slot [r] among the lines read, after [seen]. *)
Definition last_event (r : Z) (seen : option parsed) (lines : list str) : option parsed :=
  fold_left
    (fun acc line =>
       match event_of line with
       | Some p => if (p_rod p =? r)%Z then Some p else acc
       | None => acc
       end)
    lines seen.

(** The record a Lost line of slot [r] at time [t] adds, by the last
    event of the slot before it. *)
Definition lost_record (r : Z) (t : str) (last : option parsed) : FishingRecord :=
  match last with
  | Some (PHook th _ fh wh) =>
    {| record_type := u "lost"; time := th; rod := r; fish := fh; weight := wh;
       exp := 0; cost := []; bait := u "脱钩" |}
  | _ =>
    {| record_type := u "lost"; time := t; rod := r; fish := u "？";
       weight := float_zero; exp := 0; cost := []; bait := u "脱钩" |}
  end.

(** ** The shape of a record *)

(** Text that neither starts nor ends with whitespace. *)
Definition trimmed (t : str) : Prop :=
  match t with [] => True | c :: _ => is_space c = false end /\
  match rev t with [] => True | c :: _ => is_space c = false end.

(** What every event carries: a slot from 0 to 9, a fish name of one to
    ten characters, a trimmed time, a weight that is neither negative nor
    a NaN; and a Capture event experience that is not negative, a cost
    of digits and 秒, and bait of at least one character on one line. *)
Definition event_shaped (p : parsed) : Prop :=
  (0 <= p_rod p <= 9)%Z /\
  p_fish p <> [] /\ (length (p_fish p) <= 10)%nat /\
  strip (p_time p) = p_time p /\
  match p with
  | PCapture _ _ _ _ e c b =>
    (0 <= e)%Z /\
    (exists secs, secs <> [] /\ Forall (fun x => digit x = true) secs /\
                  c = secs ++ u "秒") /\
    b <> [] /\ Forall (fun x => x <> LF) b
  | _ => True
  end.

Definition capture_shaped (rec : FishingRecord) : Prop :=
  record_type rec = u "capture" /\ (0 <= exp rec)%Z /\
  (exists secs, secs <> [] /\ Forall (fun x => digit x = true) secs /\
                cost rec = secs ++ u "秒") /\
  bait rec <> [] /\ Forall (fun x => x <> LF) (bait rec).

Definition lost_shaped (rec : FishingRecord) : Prop :=
  record_type rec = u "lost" /\ exp rec = 0%Z /\ cost rec = [] /\ bait rec = u "脱钩".

Definition well_formed (rec : FishingRecord) : Prop :=
  (0 <= rod rec <= 9)%Z /\
  fish rec <> [] /\ (length (fish rec) <= 10)%nat /\
  strip (time rec) = time rec /\
  (capture_shaped rec \/ lost_shaped rec).

(** A float that is zero, finite or infinite with the sign bit clear:
    neither negative nor a NaN. *)
Definition not_negative (w : float) : bool :=
  match w with
  | S754_zero s | S754_infinity s | S754_finite s _ _ => negb s
  | S754_nan => false
  end.

(** ** Records against lines *)

(** The type and the slot of a record. *)
Definition tag (rec : FishingRecord) : str * Z := (record_type rec, rod rec).

Definition rod_is (r : Z) (rec : FishingRecord) : bool := (rod rec =? r)%Z.

(** The hook a slot holds after its last event: that event if it is a
    Hook, none otherwise. *)
Definition pending_of (last : option parsed) : option parsed :=
  match last with
  | Some (PHook _ _ _ _ as p) => Some p
  | _ => None
  end.

(** * The window

    The rest of the source: the properties of [FishingRecord] that the
    table shows, and the state that the class [FishingLogAnalyzer] keeps
    behind its window, with the methods its buttons call. Of the widgets
    only what the methods decide is kept: the children of the table
    container, in the order they are packed, with the text they carry,
    and whether the header row is on the grid. Fonts, colours, sizes,
    scrolling, the message boxes (for which see [FishingLogAnalyzer.analyze])
    and the count of renderings that paces the garbage collector are left
    out. A click is handled to its end before the next one is taken. *)

From Stdlib Require DecimalString.

(** ** Text of numbers *)

(** [str(n)] and [f"{n}"] of an [int]. *)
Definition str_of_Z (z : Z) : str :=
  u (DecimalString.NilZero.string_of_int (Z.to_int z)).

(** The interpreter writes no [int] of more decimal digits than
    [int_max_str_digits]: it raises [ValueError]. *)
Definition too_long (z : Z) : bool :=
  (int_max_str_digits <? length (str_of_Z (Z.abs z)))%nat.

(** The integer nearest to [m * 2^e], for [0 <= m]; of two that are
    equally near, the even one. *)
Definition round_half_even (m e : Z) : Z :=
  if (0 <=? e)%Z then (m * 2 ^ e)%Z
  else
    let d := (2 ^ (- e))%Z in
    let q := (m / d)%Z in
    let r := (m mod d)%Z in
    match (2 * r ?= d)%Z with
    | Lt => q
    | Gt => (q + 1)%Z
    | Eq => if Z.even q then q else (q + 1)%Z
    end.

(** [n / 10^k] written with [k] digits after the point, for [0 <= n]
    and [0 < k]. *)
Definition fixed (k : nat) (n : Z) : str :=
  let p := (10 ^ Z.of_nat k)%Z in
  let frac := str_of_Z (n mod p) in
  str_of_Z (n / p) ++ [46] ++ repeat 48 (k - length frac) ++ frac.

(** [f"{x:.kf}"] of a [float], for [0 < k]: the decimal with [k] digits
    after the point that is nearest to the value of [x]. *)
Definition format_f (k : nat) (x : float) : str :=
  match x with
  | S754_nan => u "nan"
  | S754_infinity s => (if s then u "-" else []) ++ u "inf"
  | S754_zero s => (if s then u "-" else []) ++ fixed k 0
  | S754_finite s m e =>
    (if s then u "-" else []) ++
    fixed k (round_half_even (Z.pos m * 10 ^ Z.of_nat k) e)
  end.

Definition fadd (x y : float) : float := SFadd prec emax x y.
Definition fmul (x y : float) : float := SFmul prec emax x y.

(** [x < y] and [x > y] on [float]. *)
Definition flt (x y : float) : bool := SFltb x y.

(** The place of a float other than NaN in the order of [<]: first by
    sign and kind, then by exponent, then by mantissa. *)
Definition fkey (x : float) : Z * Z * Z :=
  match x with
  | S754_infinity true => (-2, 0, 0)%Z
  | S754_finite true m e => (-1, - e, Z.neg m)%Z
  | S754_zero _ | S754_nan => (0, 0, 0)%Z
  | S754_finite false m e => (1, e, Z.pos m)%Z
  | S754_infinity false => (2, 0, 0)%Z
  end.

Definition key_before (a b : Z * Z * Z) : Prop :=
  let '(a1, a2, a3) := a in
  let '(b1, b2, b3) := b in
  (a1 < b1 \/ (a1 = b1 /\ (a2 < b2 \/ (a2 = b2 /\ a3 < b3))))%Z.

Definition is_nan (x : float) : bool :=
  match x with
  | S754_nan => true
  | _ => false
  end.

(** ** Sorting *)

(** [l.sort(key=..., reverse=...)] and [sorted]: the stable sort, which
    keeps elements of equal keys in the order they had; [before a b] says
    that the key of [a] is less than the key of [b], or greater when the
    order is reversed. The result is meant for keys that [<] orders
    totally, as integers and floats other than NaN are. *)
Section Sort.

Context {A : Type}.
Variable key_lt : A -> A -> bool.

Definition before (reverse : bool) (a b : A) : bool :=
  if reverse then key_lt b a else key_lt a b.

Fixpoint insert (reverse : bool) (x : A) (l : list A) : list A :=
  match l with
  | [] => [x]
  | y :: l' => if before reverse y x then y :: insert reverse x l' else x :: y :: l'
  end.

Definition py_sort (reverse : bool) (l : list A) : list A :=
  fold_right (insert reverse) [] l.

(** Neither key is less than the other. *)
Definition same_key (a b : A) : bool := negb (key_lt a b) && negb (key_lt b a).

End Sort.

(** ** The properties of a record *)

Definition is_lost (r : FishingRecord) : bool := str_eqb (record_type r) (u "lost").

Definition formatted_weight (r : FishingRecord) : str :=
  if flt float_zero (weight r) then format_f 3 (weight r) ++ u "kg" else u "？".

Definition formatted_exp (r : FishingRecord) : str :=
  if (0 <? exp r)%Z then u "经验" ++ str_of_Z (exp r) else [].

Definition by_weight (a b : FishingRecord) : bool := flt (weight a) (weight b).
Definition by_exp (a b : FishingRecord) : bool := (exp a <? exp b)%Z.

Module AnalyzerWindow.

Inductive ViewMode := SUMMARY | DETAIL | LOST.

Inductive SortMode := WEIGHT | EXP.

Definition view_eqb (a b : ViewMode) : bool :=
  match a, b with
  | SUMMARY, SUMMARY | DETAIL, DETAIL | LOST, LOST => true
  | _, _ => false
  end.

(** The children of the table container. *)
Inductive widget :=
| TableRow (values : list str) (is_lost : bool)
| MessageLabel (message : str)
| SummaryFrame (stats : list (str * str))
| TitleLabel (text : str)
| StatsHeader (columns : list str)
| FishFrame (fish count total_weight : str).

Record app := {
  cache : RecordCache.t;
  all_records : list FishingRecord;
  current_records : list FishingRecord;
  current_view : ViewMode;
  sort_state : SortMode -> bool;
  rod_vars : list (Z * bool);
  table_container : list widget;
  header_shown : bool
}.

Definition set_cache (c : RecordCache.t) (st : app) : app :=
  {| cache := c; all_records := all_records st;
     current_records := current_records st; current_view := current_view st;
     sort_state := sort_state st; rod_vars := rod_vars st;
     table_container := table_container st; header_shown := header_shown st |}.

Definition set_all_records (l : list FishingRecord) (st : app) : app :=
  {| cache := cache st; all_records := l;
     current_records := current_records st; current_view := current_view st;
     sort_state := sort_state st; rod_vars := rod_vars st;
     table_container := table_container st; header_shown := header_shown st |}.

Definition set_current_records (l : list FishingRecord) (st : app) : app :=
  {| cache := cache st; all_records := all_records st;
     current_records := l; current_view := current_view st;
     sort_state := sort_state st; rod_vars := rod_vars st;
     table_container := table_container st; header_shown := header_shown st |}.

Definition set_current_view (v : ViewMode) (st : app) : app :=
  {| cache := cache st; all_records := all_records st;
     current_records := current_records st; current_view := v;
     sort_state := sort_state st; rod_vars := rod_vars st;
     table_container := table_container st; header_shown := header_shown st |}.

Definition set_sort_state (s : SortMode -> bool) (st : app) : app :=
  {| cache := cache st; all_records := all_records st;
     current_records := current_records st; current_view := current_view st;
     sort_state := s; rod_vars := rod_vars st;
     table_container := table_container st; header_shown := header_shown st |}.

Definition set_rod_vars (v : list (Z * bool)) (st : app) : app :=
  {| cache := cache st; all_records := all_records st;
     current_records := current_records st; current_view := current_view st;
     sort_state := sort_state st; rod_vars := v;
     table_container := table_container st; header_shown := header_shown st |}.

Definition set_table_container (t : list widget) (st : app) : app :=
  {| cache := cache st; all_records := all_records st;
     current_records := current_records st; current_view := current_view st;
     sort_state := sort_state st; rod_vars := rod_vars st;
     table_container := t; header_shown := header_shown st |}.

Definition set_header_shown (b : bool) (st : app) : app :=
  {| cache := cache st; all_records := all_records st;
     current_records := current_records st; current_view := current_view st;
     sort_state := sort_state st; rod_vars := rod_vars st;
     table_container := table_container st; header_shown := b |}.

(** [self.sort_state[WEIGHT] = w; self.sort_state[EXP] = e]. *)
Definition sort_flags (w e : bool) (m : SortMode) : bool :=
  match m with
  | WEIGHT => w
  | EXP => e
  end.

(** [__init__]: the state when the window opens, with the check boxes
    of the rods 1 to 5 that [_create_filter_section] makes, all ticked. *)
Definition init : app :=
  {| cache := RecordCache.init RecordCache.CACHE_SIZE;
     all_records := [];
     current_records := [];
     current_view := SUMMARY;
     sort_state := sort_flags false false;
     rod_vars := List.map (fun i => (i, true)) [1; 2; 3; 4; 5]%Z;
     table_container := [];
     header_shown := false |}.

Definition get_selected_rods (st : app) : list Z :=
  List.map fst (List.filter snd (rod_vars st)).

(** [rod in selected_rods]. *)
Definition rod_in (r : Z) (selected : list Z) : bool := existsb (Z.eqb r) selected.

Definition clear_table (st : app) : app := set_table_container [] st.

Definition _show_message (message : str) (st : app) : app :=
  set_table_container (table_container st ++ [MessageLabel message]) st.

Definition _show_table_header (st : app) : app := set_header_shown true st.

Definition _hide_table_header (st : app) : app := set_header_shown false st.

(** The row that [add_record_row_batch] makes of a record. *)
Definition row_of (record : FishingRecord) : widget :=
  if is_lost record then
    TableRow [time record; u "鱼竿" ++ str_of_Z (rod record); fish record;
              formatted_weight record; []; []; bait record] true
  else
    TableRow [time record; u "鱼竿" ++ str_of_Z (rod record); fish record;
              formatted_weight record; formatted_exp record; cost record;
              bait record] false.

Definition add_record_row_batch (records : list FishingRecord) (st : app) : app :=
  set_table_container (table_container st ++ List.map row_of records) st.

Definition _render_data (st : app) : app :=
  let st := clear_table st in
  let selected_rods := get_selected_rods st in
  match selected_rods with
  | [] => _show_message (u "请至少选择一个鱼竿") st
  | _ :: _ =>
    let st := if negb (view_eqb (current_view st) SUMMARY)
              then _show_table_header st else st in
    let filtered_records :=
      List.filter (fun record => rod_in (rod record) selected_rods)
                  (current_records st) in
    add_record_row_batch filtered_records st
  end.

Definition is_nil {A} (l : list A) : bool :=
  match l with
  | [] => true
  | _ :: _ => false
  end.

Definition _apply_current_sort (st : app) : app :=
  if is_nil (current_records st) || view_eqb (current_view st) SUMMARY then st
  else
    let st :=
      if sort_state st WEIGHT then
        let reverse := sort_state st WEIGHT in
        set_current_records (py_sort by_weight reverse (current_records st)) st
      else if view_eqb (current_view st) DETAIL && sort_state st EXP then
        let reverse := sort_state st EXP in
        set_current_records (py_sort by_exp reverse (current_records st)) st
      else st in
    _render_data st.

Definition show_detail (st : app) : app :=
  if is_nil (all_records st) then st
  else
    let st := set_current_view DETAIL st in
    let st := set_current_records
                (List.filter (fun r => negb (is_lost r)) (all_records st)) st in
    _apply_current_sort st.

Definition show_lost (st : app) : app :=
  if is_nil (all_records st) then st
  else
    let st := set_current_view LOST st in
    let st := set_current_records (List.filter is_lost (all_records st)) st in
    let st :=
      if sort_state st WEIGHT then
        let reverse := sort_state st WEIGHT in
        set_current_records (py_sort by_weight reverse (current_records st)) st
      else st in
    _render_data st.

(** [fish_stats]: a dict in the order the fish first appear, of the
    number and the weight of the captures of each. *)
Fixpoint stats_add (fish : str) (w : float) (d : list (str * (Z * float)))
  : list (str * (Z * float)) :=
  match d with
  | [] => [(fish, (0 + 1, fadd float_zero w))%Z]
  | (k, (count, total)) :: d' =>
    if str_eqb k fish then (k, (count + 1, fadd total w)%Z) :: d'
    else (k, (count, total)) :: stats_add fish w d'
  end.

Definition fish_stats_of (capture_records : list FishingRecord)
  : list (str * (Z * float)) :=
  fold_left (fun d r => stats_add (fish r) (weight r) d) capture_records [].

Definition by_total (a b : str * (Z * float)) : bool := flt (snd (snd a)) (snd (snd b)).

Definition fish_frame (item : str * (Z * float)) : widget :=
  let '(fish, (count, total_weight_fish)) := item in
  FishFrame fish (str_of_Z count ++ u " 条") (format_f 3 total_weight_fish ++ u " kg").

Section Analyzer.

(** [str(hash(text))]. *)
Variable cache_key : str -> str.

(** [sum] of the weights: a float near the sum, which the interpreter
    adds up in a way that depends on its version. *)
Variable float_sum : list float -> float.

(** The frame of the summary is packed before its texts are made. The
    total of the experience is the one number here that can be too long
    to write; the method then stops on [ValueError] with the frame still
    empty, which is the state it leaves. *)
Definition show_summary (st : app) : app :=
  let st := set_current_view SUMMARY st in
  let st := clear_table st in
  let st := _hide_table_header st in
  let selected_rods := get_selected_rods st in
  match selected_rods with
  | [] => _show_message (u "请至少选择一个鱼竿") st
  | _ :: _ =>
    let capture_records :=
      List.filter (fun r => negb (is_lost r) && rod_in (rod r) selected_rods)
                  (all_records st) in
    let total_weight := float_sum (List.map weight capture_records) in
    let total_exp := fold_left Z.add (List.map exp capture_records) 0%Z in
    let total_count := Z.of_nat (length capture_records) in
    let lost_count :=
      Z.of_nat (length (List.filter (fun r => is_lost r && rod_in (rod r) selected_rods)
                                    (all_records st))) in
    let fish_stats := fish_stats_of capture_records in
    let stats :=
      [(u "总捕获数", str_of_Z total_count ++ u " 条");
       (u "总重量", format_f 3 total_weight ++ u " kg");
       (u "总经验", str_of_Z total_exp ++ u " 点");
       (u "脱钩数", str_of_Z lost_count ++ u " 次");
       (u "成功率",
        if (0 <? total_count + lost_count)%Z
        then format_f 1 (fmul (float_ratio total_count (total_count + lost_count))
                              (float_of_Z 100)) ++ u "%"
        else u "0%")] in
    if too_long total_exp
    then set_table_container (table_container st ++ [SummaryFrame []]) st
    else
      let st := set_table_container (table_container st ++ [SummaryFrame stats]) st in
      match fish_stats with
      | [] => st
      | _ :: _ =>
        let fish_items := py_sort by_total true fish_stats in
        set_table_container
          (table_container st ++
           [TitleLabel (u "🐟 鱼类统计"); StatsHeader [u "鱼类"; u "数量"; u "总重量"]] ++
           List.map fish_frame fish_items) st
      end
  end.

(** The handler of [analyze] draws the summary whether the pass or the
    cache raised; so it does should the message box of a success fail,
    or the summary itself stop, after a summary that is then drawn a
    second time, to the same effect. *)
Definition analyze (input : str) (st : app) : app :=
  let text := strip input in
  match text with
  | [] => st
  | _ :: _ =>
    let st := clear_table st in
    let st := _show_message (u "正在解析日志，请稍候...") st in
    match FishingLogParser.parse_text text with
    | Raise e => show_summary st
    | Ret records =>
      let st := set_all_records records st in
      match records with
      | [] => show_summary st
      | _ :: _ =>
        match RecordCache.set (cache st) (cache_key text) (all_records st) with
        | Raise e => show_summary st
        | Ret cache' => show_summary (set_cache cache' st)
        end
      end
    end
  end.

Definition sort_by_weight (st : app) : app :=
  if is_nil (current_records st) || view_eqb (current_view st) SUMMARY then st
  else
    let st := set_sort_state
                (sort_flags (negb (sort_state st WEIGHT)) (sort_state st EXP)) st in
    let st := set_sort_state (sort_flags (sort_state st WEIGHT) false) st in
    let reverse := sort_state st WEIGHT in
    let st := set_current_records (py_sort by_weight reverse (current_records st)) st in
    _render_data st.

Definition sort_by_exp (st : app) : app :=
  if is_nil (current_records st) || negb (view_eqb (current_view st) DETAIL) then st
  else
    let st := set_sort_state
                (sort_flags (sort_state st WEIGHT) (negb (sort_state st EXP))) st in
    let st := set_sort_state (sort_flags false (sort_state st EXP)) st in
    let reverse := sort_state st EXP in
    let st := set_current_records (py_sort by_exp reverse (current_records st)) st in
    _render_data st.

(** A click on the check box of a rod: the box flips its variable, then
    calls its command, [_apply_current_sort]. *)
Definition toggle_rod (i : Z) (st : app) : app :=
  _apply_current_sort
    (set_rod_vars
       (List.map (fun '(rod, var) => (rod, if (rod =? i)%Z then negb var else var))
                 (rod_vars st)) st).

Definition _on_close (st : app) : app := set_cache (RecordCache.clear (cache st)) st.

(** What the user does in the window. *)
Inductive event :=
| Analyze (input : str)
| ShowDetail
| ShowLost
| SortByWeight
| SortByExp
| ToggleRod (i : Z).

Definition handle (st : app) (ev : event) : app :=
  match ev with
  | Analyze input => analyze input st
  | ShowDetail => show_detail st
  | ShowLost => show_lost st
  | SortByWeight => sort_by_weight st
  | SortByExp => sort_by_exp st
  | ToggleRod i => toggle_rod i st
  end.

Definition after (events : list event) : app := fold_left handle events init.

End Analyzer.

End AnalyzerWindow.

(** ** What the window keeps true *)

Import AnalyzerWindow.

(** A row of the table is the row of a record of the last analysis, of
    a rod from 1 to 5. *)
Definition row_known (st : app) (w : widget) : Prop :=
  match w with
  | TableRow _ _ =>
    exists rec, In rec (all_records st) /\ (1 <= rod rec <= 5)%Z /\ w = row_of rec
  | _ => True
  end.

Definition consistent (st : app) : Prop :=
  (current_view st = DETAIL ->
   Permutation (current_records st)
               (List.filter (fun r => negb (is_lost r)) (all_records st))) /\
  (current_view st = LOST ->
   Permutation (current_records st) (List.filter is_lost (all_records st))) /\
  sort_state st WEIGHT && sort_state st EXP = false /\
  List.map fst (rod_vars st) = [1; 2; 3; 4; 5]%Z /\
  Forall (row_known st) (table_container st).

(** The rod has a check box. *)
Definition on_panel (r : FishingRecord) : bool := (1 <=? rod r)%Z && (rod r <=? 5)%Z.

Section History.

Variable cache_key : str -> str.

(** The records of the last analysis that found any text and did not
    fail, and the cache after every analysis, over what the user did. *)
Definition last_parsed (events : list event) : list FishingRecord :=
  fold_left
    (fun acc ev =>
       match ev with
       | Analyze input =>
         match strip input with
         | [] => acc
         | (_ :: _) as text =>
           match parse_text text with
           | Ret records => records
           | Raise _ => acc
           end
         end
       | _ => acc
       end)
    events [].

Definition cached (events : list event) : RecordCache.t :=
  fold_left
    (fun c ev =>
       match ev with
       | Analyze input => snd (FishingLogAnalyzer.analyze cache_key c input)
       | _ => c
       end)
    events (RecordCache.init RecordCache.CACHE_SIZE).

End History.

(** What [fish_stats] holds once the records [seen] are counted: one
    entry for each fish among them, with the number of them that are of
    that fish. *)
Definition counted (seen : list FishingRecord) (d : list (str * (Z * float))) : Prop :=
  NoDup (List.map fst d) /\
  (forall name count total,
      In (name, (count, total)) d ->
      count = Z.of_nat (length (List.filter (fun r => str_eqb (fish r) name) seen)) /\
      (1 <= count)%Z) /\
  (forall r, In r seen -> In (fish r) (List.map fst d)) /\
  fold_left Z.add (List.map (fun item => fst (snd item)) d) 0%Z = Z.of_nat (length seen).

(** The table shows what drawing it again would show. *)
Definition in_step (st : app) : Prop :=
  current_view st <> SUMMARY -> current_records st <> [] -> _render_data st = st.

(** The records held for the table are in the order that the flags
    name: heaviest first under the weight flag, and in the detail view
    most experience first under the experience flag. *)
Definition in_order (st : app) : Prop :=
  current_view st <> SUMMARY ->
  (sort_state st WEIGHT = true ->
   StronglySorted (fun a b => flt (weight a) (weight b) = false) (current_records st)) /\
  (current_view st = DETAIL -> sort_state st EXP = true ->
   StronglySorted (fun a b => (exp b <= exp a)%Z) (current_records st)).

(** ** A log to run the theorems on *)

Definition sample_lines : list str :=
  [u "10:00 : 鱼上钩了！鱼竿：1，鱼信息:【鲤鱼】2.5kg";
   u "10:01 : 捕获：鱼竿:1,【鲤鱼】2500克,总经验:100,耗时:30秒,鱼饵:蚯蚓";
   u "10:02 : 鱼上钩了！鱼竿：2，鱼信息:【草鱼】500g";
   u "10:03 : 鱼脱钩了！鱼竿：2";
   u "10:04 : 鱼脱钩了！鱼竿：1";
   u "10:05 : 捕获：鱼竿:0,【鲫鱼】1.2公斤,总经验:50,耗时:12秒,鱼饵:玉米"].

Definition sample_log : str :=
  fold_right (fun line text => line ++ [LF] ++ text) [] sample_lines.

Definition sample_records : list FishingRecord :=
  Eval vm_compute in
    match parse_text sample_log with
    | Ret records => records
    | Raise _ => []
    end.

(** The lines of slot 1 of the log. *)
Definition sample_log_1 : str :=
  fold_right (fun line text => line ++ [LF] ++ text) []
             (List.filter (of_rod 1) sample_lines).

(** A sum of floats, added up from left to right. *)
Definition sum_in_order (l : list float) : float := fold_left fadd l float_zero.

(** The window after the log was analysed and the detail view opened. *)
Definition sample_window : app :=
  after (fun text => text) sum_in_order [Analyze sample_log; ShowDetail].

(** Two more logs: a hook of slot 1 caught and a hook of slot 3 lost,
    among other lines, and a slot hooked twice before its fish is lost. *)
Definition pair_lines : list str :=
  [u "09:58 : 鱼脱钩了！鱼竿：2";
   u "10:00 : 鱼上钩了！鱼竿：1，鱼信息:【鲤鱼】2.5kg";
   u "10:00 : 鱼上钩了！鱼竿：3，鱼信息:【草鱼】500g";
   u "10:01 : 捕获：鱼竿:1,【鲤鱼】2500克,总经验:100,耗时:30秒,鱼饵:蚯蚓";
   u "10:02 : 鱼脱钩了！鱼竿：3";
   u "10:03 : 鱼脱钩了！鱼竿：3"].

Definition pair_log : str :=
  fold_right (fun line text => line ++ [LF] ++ text) [] pair_lines.

Definition twice_lines : list str :=
  [u "10:00 : 鱼上钩了！鱼竿：1，鱼信息:【鲤鱼】2.5kg";
   u "10:01 : 鱼上钩了！鱼竿：2，鱼信息:【草鱼】500g";
   u "10:02 : 鱼上钩了！鱼竿：1，鱼信息:【鲫鱼】1.2kg";
   u "10:03 : 鱼脱钩了！鱼竿：2";
   u "10:04 : 鱼脱钩了！鱼竿：1";
   u "10:05 : 捕获：鱼竿:2,【鲤鱼】2500克,总经验:100,耗时:30秒,鱼饵:蚯蚓"].

Definition twice_log : str :=
  fold_right (fun line text => line ++ [LF] ++ text) [] twice_lines.

(** ** The decimals of a weight *)



(** * Properties *)

Arguments u : simpl never.

(** ** Text *)

Lemma starts_with_app (l s : str) : starts_with l (l ++ s) = true.
Proof.
  induction l as [|a l IH]; simpl; [reflexivity|].
  rewrite N.eqb_refl. exact IH.
Qed.

Lemma starts_with_split (l s : str) :
  starts_with l s = true -> s = l ++ skipn (length l) s.
Proof.
  revert s. induction l as [|a l IH]; intros [|b s] H; simpl in *; try easy.
  apply andb_prop in H as [Hab Hl]. apply N.eqb_eq in Hab. subst b.
  f_equal. apply IH, Hl.
Qed.

Lemma str_eqb_eq (a b : str) : str_eqb a b = true <-> a = b.
Proof.
  revert b. induction a as [|x a IH]; intros [|y b]; simpl; split; try easy.
  - intros H. apply andb_prop in H as [Hxy Hab].
    apply N.eqb_eq in Hxy. apply IH in Hab. congruence.
  - intros H. injection H as -> ->. rewrite N.eqb_refl. apply IH. reflexivity.
Qed.

(** [split(sep, 1)] of a text in which [sep] occurs has two parts, around
    the first occurrence. *)
Lemma split1_found (sep s : str) :
  contains sep s = true ->
  exists p0 p1, split1 sep s = [p0; p1] /\ s = p0 ++ sep ++ p1.
Proof.
  induction s as [|c s IH]; intros H.
  - simpl in *. rewrite orb_false_r in H. rewrite H.
    exists [], (skipn (length sep) []). split; [reflexivity|].
    apply starts_with_split in H. exact H.
  - cbn [contains split1] in *. destruct (starts_with sep (c :: s)) eqn:Hs.
    + exists [], (skipn (length sep) (c :: s)). split; [reflexivity|].
      apply starts_with_split in Hs. exact Hs.
    + simpl in H. destruct (IH H) as (p0 & p1 & Hsp & Heq).
      rewrite Hsp. exists (c :: p0), p1. split; [reflexivity|].
      simpl. f_equal. exact Heq.
Qed.

Lemma split1_two (sep s p0 p1 : str) :
  split1 sep s = [p0; p1] -> contains sep s = true.
Proof.
  revert p0. induction s as [|c s IH]; intros p0 H.
  - simpl in *. destruct (starts_with sep []); [reflexivity|discriminate].
  - cbn [contains split1] in *. destruct (starts_with sep (c :: s)); [reflexivity|].
    simpl. destruct (split1 sep s) as [|q0 rest] eqn:Hsp; [discriminate|].
    injection H as _ ->. eapply IH. reflexivity.
Qed.

Lemma lstrip_spaces (s : str) :
  Forall (fun c => is_space c = true) s -> lstrip s = [].
Proof.
  induction 1 as [|c s Hc _ IH]; simpl; [reflexivity|].
  rewrite Hc. exact IH.
Qed.

Lemma strip_spaces (s : str) :
  Forall (fun c => is_space c = true) s -> strip s = [].
Proof.
  intros H. unfold strip, rstrip. rewrite (lstrip_spaces s H). reflexivity.
Qed.

Lemma lstrip_nil_inv (s : str) :
  lstrip s = [] -> Forall (fun c => is_space c = true) s.
Proof.
  induction s as [|c s IH]; simpl; intros H; [constructor|].
  destruct (is_space c) eqn:Hc; [|discriminate].
  constructor; [exact Hc|apply IH, H].
Qed.

Lemma strip_nil_inv (s : str) :
  strip s = [] -> Forall (fun c => is_space c = true) s.
Proof.
  unfold strip, rstrip. intros H.
  apply lstrip_nil_inv.
  destruct (lstrip s) as [|c l] eqn:Hl; [reflexivity|].
  assert (Hrev : lstrip (rev (c :: l)) = []).
  { apply (f_equal (@rev N)) in H. rewrite rev_involutive in H. exact H. }
  apply lstrip_nil_inv in Hrev.
  assert (Hc : is_space c = true).
  { rewrite Forall_forall in Hrev. apply Hrev. apply list_elem_of_In.
    apply in_rev. rewrite rev_involutive. left. reflexivity. }
  exfalso. clear -Hl Hc.
  induction s as [|x s IH]; simpl in Hl; [discriminate|].
  destruct (is_space x) eqn:Hx; [apply IH, Hl|].
  injection Hl as -> _. congruence.
Qed.

(** ** The matcher returns matches *)

Lemma plus_greedy_sound p k s g m :
  plus_greedy p k s g = Some m ->
  exists w rest,
    s = w ++ rest /\ w <> [] /\ Forall (fun x => p x = true) w /\ k rest g = Some m.
Proof.
  revert m. induction s as [|x s IH]; simpl; intros m H; [discriminate|].
  destruct (p x) eqn:Hx; [|discriminate].
  destruct (plus_greedy p k s g) as [r|] eqn:Hg.
  - injection H as ->. destruct (IH _ eq_refl) as (w & rest & -> & _ & Hw & Hk).
    exists (x :: w), rest. repeat split; auto; discriminate.
  - exists [x], s. repeat split; auto; discriminate.
Qed.

Lemma plus_lazy_sound p k s g m :
  plus_lazy p k s g = Some m ->
  exists w rest,
    s = w ++ rest /\ w <> [] /\ Forall (fun x => p x = true) w /\ k rest g = Some m.
Proof.
  revert m. induction s as [|x s IH]; simpl; intros m H; [discriminate|].
  destruct (p x) eqn:Hx; [|discriminate].
  destruct (k s g) as [r|] eqn:Hk.
  - injection H as ->. exists [x], s. repeat split; auto; discriminate.
  - destruct (IH _ H) as (w & rest & -> & _ & Hw & Hk').
    exists (x :: w), rest. repeat split; auto; discriminate.
Qed.

Lemma firstn_consumed (w rest : str) :
  firstn (length (w ++ rest) - length rest) (w ++ rest) = w.
Proof.
  rewrite length_app.
  replace (length w + length rest - length rest)%nat with (length w) by lia.
  apply take_app_length.
Qed.

Lemma rmatch_sound r : forall k s g m,
  rmatch r k s g = Some m ->
  exists w rest g', s = w ++ rest /\ matches r w rest g g' /\ k rest g' = Some m.
Proof.
  induction r as [l|p|gr p|gr p|a IHa b IHb|a IHa b IHb|n a IHa|]; intros k s g m H.
  - simpl in H. destruct (starts_with l s) eqn:Hs; [|discriminate].
    exists l, (skipn (length l) s), g. split; [apply starts_with_split, Hs|]. simpl. auto.
  - simpl in H. destruct s as [|x s]; [discriminate|].
    destruct (p x) eqn:Hx; [|discriminate].
    exists [x], s, g. simpl. eauto 6.
  - assert (Hx : exists w rest, s = w ++ rest /\ w <> [] /\
                   Forall (fun x => p x = true) w /\ k rest g = Some m).
    { destruct gr; simpl in H; eauto using plus_greedy_sound, plus_lazy_sound. }
    destruct Hx as (w & rest & -> & Hne & Hw & Hk).
    exists w, rest, g. simpl. auto.
  - assert (Hx : exists w rest, s = w ++ rest /\
                   Forall (fun x => p x = true) w /\ k rest g = Some m).
    { destruct gr; simpl in H; unfold or_else in H.
      - destruct (plus_greedy p k s g) eqn:Hg.
        + injection H as ->. apply plus_greedy_sound in Hg as (w & rest & ? & ? & ? & ?).
          eauto.
        + exists [], s. auto.
      - destruct (k s g) eqn:Hk.
        + exists [], s. injection H as ->. auto.
        + apply plus_lazy_sound in H as (w & rest & ? & ? & ? & ?). eauto. }
    destruct Hx as (w & rest & -> & Hw & Hk).
    exists w, rest, g. simpl. auto.
  - simpl in H. apply IHa in H as (w1 & rest1 & g1 & -> & Ha & Hb).
    apply IHb in Hb as (w2 & rest & g' & -> & Hb & Hk).
    exists (w1 ++ w2), rest, g'. split; [apply app_assoc|]. split; [|exact Hk].
    simpl. exists w1, w2, g1. auto.
  - simpl in H. unfold or_else in H. destruct (rmatch a k s g) eqn:Ha.
    + injection H as ->. apply IHa in Ha as (w & rest & g' & ? & ? & ?).
      exists w, rest, g'. simpl. tauto.
    + apply IHb in H as (w & rest & g' & ? & ? & ?).
      exists w, rest, g'. simpl. tauto.
  - simpl in H. apply IHa in H as (w & rest & g1 & -> & Ha & Hk).
    rewrite firstn_consumed in Hk.
    exists w, rest, (set_group n w g1). simpl. eauto.
  - simpl in H. destruct s as [|c [|c' s]].
    + exists [], [], g. simpl. repeat split; auto.
    + destruct (c =? LF) eqn:Hc; [|discriminate]. apply N.eqb_eq in Hc. subst c.
      exists [], [LF], g. simpl. repeat split; auto.
    + discriminate.
Qed.

Lemma search_sound r s m :
  search r s = Some m ->
  exists pre w rest, s = pre ++ w ++ rest /\ matches r w rest no_groups m.
Proof.
  induction s as [|c s IH]; simpl; intros H.
  - destruct (rmatch r _ [] no_groups) eqn:Hr; [|discriminate]. injection H as ->.
    apply rmatch_sound in Hr as (w & rest & g' & Hs & Hm & Hk). injection Hk as ->.
    exists [], w, rest. auto.
  - destruct (rmatch r _ (c :: s) no_groups) eqn:Hr.
    + injection H as ->.
      apply rmatch_sound in Hr as (w & rest & g' & Hs & Hm & Hk). injection Hk as ->.
      exists [], w, rest. auto.
    + destruct (IH H) as (pre & w & rest & -> & Hm). exists (c :: pre), w, rest. auto.
Qed.

(** ** What the three patterns capture *)

Lemma HOOK_PATTERN_match w rest g m :
  matches HOOK_PATTERN w rest g m ->
  exists d name num unit,
    digit d = true /\
    name <> [] /\ Forall (fun x => dot x = true) name /\
    num <> [] /\ Forall (fun x => digit_or_dot x = true) num /\
    (unit = u "kg" \/ unit = u "g") /\
    w = u "鱼上钩了！鱼竿：" ++ [d] ++ u "，鱼信息:【" ++ name ++ u "】" ++ num ++ unit /\
    m 1%nat = Some [d] /\ m 2%nat = Some name /\ m 3%nat = Some num /\
    m 4%nat = Some unit.
Proof.
  unfold HOOK_PATTERN. simpl.
  intros (w1 & ? & g1 & -> & [-> ->] & w2 & ? & g2 & -> & (g2' & (d & -> & Hd & ->) & ->)
          & w3 & ? & g3 & -> & [-> ->] & name & ? & g4 & -> & (g4' & (Hn & Hname & ->) & ->)
          & w5 & ? & g5 & -> & [-> ->] & num & unit & g6 & -> & (g6' & (Hm & Hnum & ->) & ->)
          & g7 & Hunit & ->).
  exists d, name, num, unit.
  destruct Hunit as [[-> ->]|[-> ->]]; repeat split; auto.
Qed.

Lemma CAPTURE_PATTERN_match w rest g m :
  matches CAPTURE_PATTERN w rest g m ->
  exists d name num unit xp secs bait,
    digit d = true /\
    name <> [] /\ Forall (fun x => dot x = true) name /\
    num <> [] /\ Forall (fun x => digit_or_dot x = true) num /\
    (unit = u "公斤" \/ unit = u "克") /\
    xp <> [] /\ Forall (fun x => digit x = true) xp /\
    secs <> [] /\ Forall (fun x => digit x = true) secs /\
    bait <> [] /\ Forall (fun x => dot x = true) bait /\
    m 1%nat = Some [d] /\ m 2%nat = Some name /\ m 3%nat = Some num /\
    m 4%nat = Some unit /\ m 5%nat = Some xp /\ m 6%nat = Some secs /\
    m 7%nat = Some bait.
Proof.
  unfold CAPTURE_PATTERN. simpl.
  intros (? & ? & ? & -> & [-> ->] & ? & ? & ? & -> & (? & (d & -> & Hd & ->) & ->)
          & ? & ? & ? & -> & [-> ->] & name & ? & ? & -> & (? & (Hn & Hname & ->) & ->)
          & ? & ? & ? & -> & [-> ->] & ? & ? & ? & -> & [_ ->]
          & num & ? & ? & -> & (? & (Hm & Hnum & ->) & ->)
          & unit & ? & ? & -> & (? & Hunit & ->)
          & ? & ? & ? & -> & [_ ->] & ? & ? & ? & -> & [-> ->]
          & xp & ? & ? & -> & (? & (Hx & Hxp & ->) & ->)
          & ? & ? & ? & -> & [_ ->] & ? & ? & ? & -> & [-> ->]
          & secs & ? & ? & -> & (? & (Hs & Hsecs & ->) & ->)
          & ? & ? & ? & -> & [-> ->]
          & ? & ? & ? & -> & [_ ->] & ? & ? & ? & -> & [-> ->]
          & bait & ? & ? & -> & (? & (Hb & Hbait & ->) & ->)
          & _ & _ & ->).
  exists d, name, num, unit, xp, secs, bait.
  destruct Hunit as [[-> ->]|[-> ->]]; repeat split; auto.
Qed.

Lemma LOST_PATTERN_match w rest g m :
  matches LOST_PATTERN w rest g m ->
  exists d, digit d = true /\ w = u "鱼脱钩了！鱼竿：" ++ [d] /\ m 1%nat = Some [d].
Proof.
  unfold LOST_PATTERN. simpl.
  intros (? & ? & ? & -> & [-> ->] & ? & (d & -> & Hd & ->) & ->).
  exists d. auto.
Qed.

(** ** Numbers *)

Lemma digit_value (d : N) :
  digit d = true -> exists v, to_decimal d = Some v.
Proof.
  unfold digit, is_decimal. destruct (to_decimal d) as [v|]; [eauto|discriminate].
Qed.

Lemma to_decimal_range (d : N) (v : Z) :
  to_decimal d = Some v -> (0 <= v <= 9)%Z.
Proof.
  unfold to_decimal. generalize decimal_zeros. intros zs.
  induction zs as [|z zs IH]; simpl; [discriminate|].
  destruct ((z <=? d) && (d <? z + 10)) eqn:Hz; [|exact IH].
  apply andb_prop in Hz as [H1 H2].
  apply N.leb_le in H1. apply N.ltb_lt in H2.
  intros [= <-]. lia.
Qed.

(** [int] of one digit that [\d] matched is that digit's value. *)
Lemma py_int_digit (d : N) (v : Z) :
  to_decimal d = Some v -> py_int [d] = Ret v.
Proof.
  intros H. unfold py_int. simpl. rewrite H. reflexivity.
Qed.

Lemma decimal_value_digits (s : str) :
  Forall (fun x => digit x = true) s ->
  forall acc, exists z, decimal_value acc s = Some z.
Proof.
  induction 1 as [|c s Hc _ IH]; intros acc; simpl; [eauto|].
  apply digit_value in Hc as [v ->]. apply IH.
Qed.

(** [int] of the digits [\d+] matched fails only on their number. *)
Lemma py_int_digits (s : str) :
  s <> [] -> Forall (fun x => digit x = true) s ->
  (exists z, py_int s = Ret z /\ (length s <= int_max_str_digits)%nat) \/
  (py_int s = Raise ValueError /\ (int_max_str_digits < length s)%nat).
Proof.
  intros Hne Hs. unfold py_int. destruct s as [|c s]; [contradiction|].
  destruct (Nat.ltb_spec int_max_str_digits (length (c :: s))) as [Hlt|Hge].
  - right. auto.
  - left. destruct (decimal_value_digits _ Hs 0%Z) as [z ->]. eauto.
Qed.


(** ** The line classifier *)

Lemma parse_weight_g v :
  _parse_weight v (u "g") = do w <- py_float v; Ret (fdiv w (float_of_Z 1000)).
Proof. reflexivity. Qed.

Lemma parse_weight_ke v :
  _parse_weight v (u "克") = do w <- py_float v; Ret (fdiv w (float_of_Z 1000)).
Proof. reflexivity. Qed.

Lemma parse_weight_kg v : _parse_weight v (u "kg") = py_float v.
Proof. unfold _parse_weight. destruct (py_float v); reflexivity. Qed.

Lemma parse_weight_gongjin v : _parse_weight v (u "公斤") = py_float v.
Proof. unfold _parse_weight. destruct (py_float v); reflexivity. Qed.

Lemma parse_line_fast_no_sep (line : str) :
  contains SEP line = false -> parse_line_fast line = Ret None.
Proof. intros H. unfold parse_line_fast. rewrite H. reflexivity. Qed.

Lemma group_some (m : groups) (n : nat) (w : str) : m n = Some w -> group m n = w.
Proof. unfold group. intros ->. reflexivity. Qed.

Lemma hook_search content m :
  search HOOK_PATTERN content = Some m ->
  exists d name num unit, hook_found content m d name num unit.
Proof.
  intros H. destruct (search_sound _ _ _ H) as (pre & w & rest & _ & Hm).
  apply HOOK_PATTERN_match in Hm
    as (d & name & num & unit & ? & ? & ? & ? & ? & ? & _ & ? & ? & ? & ?).
  exists d, name, num, unit. unfold hook_found.
  repeat split; auto using group_some.
Qed.

Lemma capture_search content m :
  search CAPTURE_PATTERN content = Some m ->
  exists d name num unit xp secs bait,
    capture_found content m d name num unit xp secs bait.
Proof.
  intros H. destruct (search_sound _ _ _ H) as (pre & w & rest & _ & Hm).
  apply CAPTURE_PATTERN_match in Hm
    as (d & name & num & unit & xp & secs & bait & ? & ? & ? & ? & ? & ? & ? & ? & ?
        & ? & ? & ? & ? & ? & ? & ? & ? & ? & ?).
  exists d, name, num, unit, xp, secs, bait. unfold capture_found.
  repeat split; auto using group_some.
Qed.

Lemma lost_search content m :
  search LOST_PATTERN content = Some m -> exists d, lost_found content m d.
Proof.
  intros H. destruct (search_sound _ _ _ H) as (pre & w & rest & _ & Hm).
  apply LOST_PATTERN_match in Hm as (d & ? & _ & ?).
  exists d. unfold lost_found. auto using group_some.
Qed.

Lemma parse_weight_cases num unit :
  unit = u "kg" \/ unit = u "g" \/ unit = u "公斤" \/ unit = u "克" ->
  (_parse_weight num unit = Raise ValueError /\ decimal_literal num = None) \/
  (exists w, _parse_weight num unit = Ret w /\ weight_of num unit w).
Proof.
  intros Hu. unfold weight_of.
  assert (Hf : (py_float num = Raise ValueError /\ decimal_literal num = None) \/
               exists x, py_float num = Ret x).
  { unfold py_float. destruct (decimal_literal num) as [[m k]|]; eauto. }
  destruct Hf as [[Hf Hd]|[x Hf]].
  - left. split; [|exact Hd]. unfold _parse_weight. rewrite Hf. reflexivity.
  - right. destruct Hu as [-> | [-> | [-> | ->]]].
    + rewrite parse_weight_kg. eauto 10.
    + rewrite parse_weight_g, Hf. simpl. eauto 10.
    + rewrite parse_weight_gongjin. eauto 10.
    + rewrite parse_weight_ke, Hf. simpl. eauto 10.
Qed.

Lemma parse_line_fast_outcome line : outcome_of line (parse_line_fast line).
Proof.
  unfold parse_line_fast.
  destruct (contains SEP line) eqn:Hsep; simpl; [|apply no_separator, Hsep].
  destruct (split1_found _ _ Hsep) as (p0 & content & Hs & _). rewrite Hs. simpl.
  destruct (contains (u "鱼上钩了") content) eqn:Hh.
  { destruct (search HOOK_PATTERN content) as [m|] eqn:Hm;
      [|eapply hook_no_match; eauto].
    destruct (hook_search _ _ Hm) as (d & name & num & unit & Hf).
    pose proof Hf as (_ & Hd & _ & _ & _ & _ & Hu & -> & -> & -> & ->).
    apply digit_value in Hd as [r Hr]. rewrite (py_int_digit _ _ Hr). simpl.
    destruct (parse_weight_cases num unit) as [[-> Hbad]|(w & -> & Hw)]; [tauto| |]; simpl.
    - eapply hook_bad_weight; eauto.
    - eapply hook_ok; eauto. }
  destruct (contains (u "捕获") content) eqn:Hc.
  { destruct (search CAPTURE_PATTERN content) as [m|] eqn:Hm;
      [|eapply capture_no_match; eauto].
    destruct (capture_search _ _ Hm) as (d & name & num & unit & xp & secs & bait & Hf).
    pose proof Hf as (_ & Hd & _ & _ & _ & _ & Hu & Hxne & Hxp & _ & _ & _ & _
                      & -> & -> & -> & -> & -> & -> & ->).
    apply digit_value in Hd as [r Hr]. rewrite (py_int_digit _ _ Hr). simpl.
    destruct (parse_weight_cases num unit) as [[-> Hbad]|(w & -> & Hw)]; [tauto| |]; simpl.
    - eapply capture_bad_weight; eauto.
    - destruct (py_int_digits xp Hxne Hxp) as [(e & He & _)|[He Hlong]]; rewrite He; simpl.
      + eapply capture_ok; eauto.
      + eapply capture_long_exp; eauto.
        destruct Hw as (x & Hx & _). unfold py_float in Hx.
        destruct (decimal_literal num) as [[? ?]|]; [discriminate|discriminate Hx]. }
  destruct (contains (u "鱼脱钩了") content) eqn:Hl; [|eapply no_marker; eauto].
  destruct (search LOST_PATTERN content) as [m|] eqn:Hm; [|eapply lost_no_match; eauto].
  destruct (lost_search _ _ Hm) as (d & Hf).
  pose proof Hf as (_ & Hd & ->).
  apply digit_value in Hd as [r Hr]. rewrite (py_int_digit _ _ Hr). simpl.
  eapply lost_ok; eauto.
Qed.

(** ** The pass over the lines *)

Lemma bind_ret {A B} (x : result A) (f : A -> result B) (b : B) :
  bind x f = Ret b -> exists a, x = Ret a /\ f a = Ret b.
Proof. destruct x as [a|e]; simpl; [eauto|discriminate]. Qed.

Lemma parse_lines_app (l1 l2 : list str) (st : pass) :
  parse_lines (l1 ++ l2) st = do st' <- parse_lines l1 st; parse_lines l2 st'.
Proof.
  revert st. induction l1 as [|l l1 IH]; intros st; simpl; [reflexivity|].
  destruct (parse_step st l) as [st'|e]; simpl; [apply IH|reflexivity].
Qed.

(** A line adds at most one record, at the end, and takes none away. *)
Lemma parse_step_records (st st' : pass) (line : str) :
  parse_step st line = Ret st' ->
  exists new, records st' = records st ++ new /\ (length new <= 1)%nat.
Proof.
  unfold parse_step. intros H. apply bind_ret in H as (p & _ & H).
  destruct p as [[t r f w|t r f w e c b|t r f w]|].
  - injection H as <-. exists []. simpl. rewrite app_nil_r. auto.
  - injection H as <-. eexists. simpl. split; [reflexivity|]. simpl. lia.
  - destruct (hook_cache st !! r); injection H as <-; eexists; simpl;
      (split; [reflexivity|simpl; lia]).
  - injection H as <-. exists []. simpl. rewrite app_nil_r. auto.
Qed.

Lemma parse_lines_records (lines : list str) (st st' : pass) :
  parse_lines lines st = Ret st' -> exists new, records st' = records st ++ new.
Proof.
  revert st. induction lines as [|l lines IH]; simpl; intros st H.
  - injection H as <-. exists []. rewrite app_nil_r. reflexivity.
  - apply bind_ret in H as (st1 & H1 & H).
    apply parse_step_records in H1 as (n1 & H1 & _).
    apply IH in H as (n2 & H). exists (n1 ++ n2). rewrite H, H1, app_assoc. reflexivity.
Qed.

(** What one line does to the two locals, by what the line is. *)
Lemma parse_step_hook st line t r f w :
  parse_line_fast line = Ret (Some (PHook t r f w)) ->
  parse_step st line =
  Ret {| records := records st; hook_cache := <[r := PHook t r f w]> (hook_cache st) |}.
Proof. intros H. unfold parse_step. rewrite H. reflexivity. Qed.

Lemma parse_step_capture st line t r f w e c b :
  parse_line_fast line = Ret (Some (PCapture t r f w e c b)) ->
  parse_step st line =
  Ret {| records := records st ++
           [{| record_type := u "capture"; time := t; rod := r; fish := f;
               weight := w; exp := e; cost := c; bait := b |}];
         hook_cache := delete r (hook_cache st) |}.
Proof. intros H. unfold parse_step. rewrite H. reflexivity. Qed.

Lemma parse_step_lost_pending st line t r f w hook_data :
  parse_line_fast line = Ret (Some (PLost t r f w)) ->
  hook_cache st !! r = Some hook_data ->
  parse_step st line =
  Ret {| records := records st ++
           [{| record_type := u "lost"; time := p_time hook_data; rod := r;
               fish := p_fish hook_data; weight := p_weight hook_data;
               exp := 0; cost := []; bait := u "脱钩" |}];
         hook_cache := delete r (hook_cache st) |}.
Proof. intros H Hc. unfold parse_step. rewrite H. simpl. rewrite Hc. reflexivity. Qed.

Lemma parse_step_lost_alone st line t r f w :
  parse_line_fast line = Ret (Some (PLost t r f w)) ->
  hook_cache st !! r = None ->
  parse_step st line =
  Ret {| records := records st ++
           [{| record_type := u "lost"; time := t; rod := r;
               fish := u "？"; weight := float_zero;
               exp := 0; cost := []; bait := u "脱钩" |}];
         hook_cache := hook_cache st |}.
Proof.
  intros H Hc. unfold parse_step. rewrite H. simpl. rewrite Hc.
  rewrite (delete_id _ _ Hc). reflexivity.
Qed.

Lemma parse_step_raise st line e :
  parse_line_fast line = Raise e -> parse_step st line = Raise e.
Proof. intros H. unfold parse_step. rewrite H. reflexivity. Qed.

(** The pending hook of a slot stays as it is over lines that are no
    event of that slot. *)
Lemma parse_step_other_slot (r : Z) st st' line :
  (forall p, parse_line_fast line = Ret (Some p) -> p_rod p <> r) ->
  parse_step st line = Ret st' ->
  hook_cache st' !! r = hook_cache st !! r.
Proof.
  intros Hp H. unfold parse_step in H.
  destruct (parse_line_fast line) as [[p|]|e] eqn:Hl; simpl in H; try discriminate.
  - specialize (Hp p eq_refl). destruct p as [t k f w|t k f w e c b|t k f w]; simpl in Hp.
    + injection H as <-. simpl. apply lookup_insert_ne. exact Hp.
    + injection H as <-. simpl. apply lookup_delete_ne. exact Hp.
    + destruct (hook_cache st !! k); injection H as <-; simpl;
        apply lookup_delete_ne; exact Hp.
  - injection H as <-. reflexivity.
Qed.

Lemma parse_lines_other_slot (r : Z) lines : forall st st',
  Forall (fun line => forall p, parse_line_fast line = Ret (Some p) -> p_rod p <> r) lines ->
  parse_lines lines st = Ret st' ->
  hook_cache st' !! r = hook_cache st !! r.
Proof.
  induction lines as [|l lines IH]; intros st st' Hall H; simpl in H.
  - injection H as <-. reflexivity.
  - apply Forall_cons in Hall as [Hl Hall].
    apply bind_ret in H as (st1 & H1 & H).
    rewrite (IH _ _ Hall H). eapply parse_step_other_slot; eauto.
Qed.

(** The records of a finished pass start with those of every prefix. *)
Lemma parse_text_prefix text before after st out :
  splitlines (strip text) = before ++ after ->
  parse_lines before start = Ret st ->
  parse_text text = Ret out ->
  exists later, out = records st ++ later.
Proof.
  intros Hl Hb H. unfold parse_text in H. rewrite Hl, parse_lines_app, Hb in H.
  simpl in H. apply bind_ret in H as (st' & H & [= <-]).
  apply parse_lines_records in H. exact H.
Qed.

(** ** Lines written to the grammar are matched where they start *)

Lemma rmatch_lit (l : str) (k : cont) (s : str) (g : groups) :
  rmatch (Lit l) k (l ++ s) g = k s g.
Proof. simpl. rewrite starts_with_app, drop_app_length. reflexivity. Qed.

Lemma rmatch_group_class (n : nat) (p : N -> bool) (k : cont) (x : N) (s : str) (g : groups) :
  p x = true -> rmatch (Grp n (Cls p)) k (x :: s) g = k s (set_group n [x] g).
Proof.
  intros Hx. cbn [rmatch]. rewrite Hx.
  change (x :: s) with ([x] ++ s). rewrite (firstn_consumed [x] s). reflexivity.
Qed.

Lemma search_here (r : regex) (s : str) (m : groups) :
  rmatch r (fun _ g => Some g) s no_groups = Some m -> search r s = Some m.
Proof. intros H. destruct s; simpl; rewrite H; reflexivity. Qed.

(** A lazy run stops at the first place where what follows matches. *)
Lemma plus_lazy_first (p : N -> bool) (k : cont) (g : groups) (m : groups) (rest : str) :
  forall w : str,
    w <> [] -> Forall (fun x => p x = true) w ->
    (forall x w2, suffix (x :: w2) w -> x :: w2 <> w -> k (x :: w2 ++ rest) g = None) ->
    k rest g = Some m ->
    plus_lazy p k (w ++ rest) g = Some m.
Proof.
  induction w as [|x w IH]; intros Hne Hw Hk Hrest; [contradiction|].
  apply Forall_cons in Hw as [Hx Hw].
  change ((x :: w) ++ rest) with (x :: (w ++ rest)). cbn [plus_lazy]. rewrite Hx.
  destruct w as [|y w].
  - change ([] ++ rest) with rest. rewrite Hrest. reflexivity.
  - assert (Hnone : k ((y :: w) ++ rest) g = None).
    { apply (Hk y w).
      - apply suffix_cons_r. reflexivity.
      - intros Heq. apply (f_equal (@length N)) in Heq. simpl in Heq. lia. }
    rewrite Hnone. apply IH; [discriminate|exact Hw| |exact Hrest].
    intros z w2 Hsuf Hneq. apply Hk.
    + apply suffix_cons_r, Hsuf.
    + intros Heq. apply (f_equal (@length N)) in Heq.
      apply suffix_length in Hsuf. simpl in *. lia.
Qed.

(** A greedy run that what follows cannot extend is taken whole. *)
Lemma plus_greedy_whole (p : N -> bool) (k : cont) (g : groups) (m : groups) (rest : str) :
  forall w : str,
    w <> [] -> Forall (fun x => p x = true) w ->
    match rest with [] => True | c :: _ => p c = false end ->
    k rest g = Some m ->
    plus_greedy p k (w ++ rest) g = Some m.
Proof.
  induction w as [|x w IH]; intros Hne Hw Hstop Hrest; [contradiction|].
  apply Forall_cons in Hw as [Hx Hw].
  change ((x :: w) ++ rest) with (x :: (w ++ rest)). cbn [plus_greedy]. rewrite Hx.
  destruct w as [|y w].
  - change ([] ++ rest) with rest. destruct rest as [|c rest']; cbn [plus_greedy].
    + exact Hrest.
    + rewrite Hstop. exact Hrest.
  - rewrite IH; [reflexivity|discriminate|exact Hw|exact Hstop|exact Hrest].
Qed.

Lemma frac_part_chars (s : str) : forall m k seen r,
  frac_part m k seen s = Some r ->
  Forall (fun x => digit_or_dot x = true) s /\ (snd r = true -> seen = true \/ s <> []).
Proof.
  induction s as [|c s IH]; simpl; intros m k seen r H.
  - injection H as <-. simpl. auto.
  - destruct (to_decimal c) as [d|] eqn:Hd; [|discriminate].
    apply IH in H as [Hs _]. split; [|intros _; right; discriminate].
    constructor; [|exact Hs]. unfold digit_or_dot, is_decimal. rewrite Hd. reflexivity.
Qed.

Lemma int_part_chars (s : str) : forall m seen r,
  int_part m seen s = Some r ->
  Forall (fun x => digit_or_dot x = true) s /\ (snd r = true -> seen = true \/ s <> []).
Proof.
  induction s as [|c s IH]; simpl; intros m seen r H.
  - injection H as <-. simpl. auto.
  - split; [|intros _; right; discriminate].
    destruct (c =? 46) eqn:Hc.
    + apply frac_part_chars in H as [Hs _]. constructor; [|exact Hs].
      unfold digit_or_dot. rewrite Hc. apply orb_true_r.
    + destruct (to_decimal c) as [d|] eqn:Hd; [|discriminate].
      apply IH in H as [Hs _]. constructor; [|exact Hs].
      unfold digit_or_dot, is_decimal. rewrite Hd. reflexivity.
Qed.

(** What [float] accepts is text that [[\d.]+] matches. *)
Lemma decimal_literal_chars (s : str) (r : Z * nat) :
  decimal_literal s = Some r ->
  s <> [] /\ Forall (fun x => digit_or_dot x = true) s.
Proof.
  unfold decimal_literal. intros H.
  destruct (int_part 0 false s) as [[[m k] seen]|] eqn:Hi; [|discriminate].
  destruct seen; [|discriminate].
  apply int_part_chars in Hi as [Hs Hseen]. split; [|exact Hs].
  destruct (Hseen eq_refl) as [Hf|Hne]; [discriminate|exact Hne].
Qed.

Lemma rmatch_seq (a b : regex) (k : cont) (s : str) (g : groups) :
  rmatch (Seq a b) k s g = rmatch a (rmatch b k) s g.
Proof. reflexivity. Qed.

Lemma rmatch_group_lazy (n : nat) (p : N -> bool) (k : cont) (g m : groups) (w rest : str) :
  w <> [] -> Forall (fun x => p x = true) w ->
  (forall x w2 g', suffix (x :: w2) w -> x :: w2 <> w -> k (x :: w2 ++ rest) g' = None) ->
  k rest (set_group n w g) = Some m ->
  rmatch (Grp n (Plus false p)) k (w ++ rest) g = Some m.
Proof.
  intros Hne Hw Hk Hrest. cbn [rmatch]. apply plus_lazy_first; auto.
  rewrite firstn_consumed. exact Hrest.
Qed.

Lemma rmatch_group_greedy (n : nat) (p : N -> bool) (k : cont) (g m : groups) (w rest : str) :
  w <> [] -> Forall (fun x => p x = true) w ->
  match rest with [] => True | c :: _ => p c = false end ->
  k rest (set_group n w g) = Some m ->
  rmatch (Grp n (Plus true p)) k (w ++ rest) g = Some m.
Proof.
  intros Hne Hw Hstop Hrest. cbn [rmatch]. apply plus_greedy_whole; auto.
  rewrite firstn_consumed. exact Hrest.
Qed.

Lemma hook_line_search (d : N) (name num unit : str) :
  digit d = true ->
  name <> [] -> Forall (fun c => c <> LF /\ c <> 12305) name ->
  num <> [] -> Forall (fun x => digit_or_dot x = true) num ->
  unit = u "kg" \/ unit = u "g" ->
  search HOOK_PATTERN
         (u "鱼上钩了！鱼竿：" ++ d :: u "，鱼信息:【" ++ name ++ u "】" ++ num ++ unit) =
  Some (set_group 4 unit (set_group 3 num (set_group 2 name (set_group 1 [d] no_groups)))).
Proof.
  intros Hd Hne Hname Hnum Hdigits Hunit. apply search_here.
  unfold HOOK_PATTERN.
  rewrite rmatch_seq, rmatch_lit, rmatch_seq, (rmatch_group_class 1 digit _ d _ _ Hd).
  rewrite rmatch_seq, rmatch_lit, rmatch_seq.
  apply rmatch_group_lazy.
  - exact Hne.
  - eapply Forall_impl; [exact Hname|]. intros c [Hc _]. unfold dot.
    destruct (N.eqb_spec c LF); [contradiction|reflexivity].
  - intros x w2 g' Hsuf _.
    assert (Hx : x <> 12305).
    { destruct Hsuf as [pre ->]. apply Forall_app in Hname as [_ Hname].
      apply Forall_cons in Hname as [[_ Hx] _]. exact Hx. }
    rewrite rmatch_seq. change (u "】") with [12305]. cbn [rmatch starts_with].
    destruct (N.eqb_spec 12305 x); [congruence|reflexivity].
  - rewrite rmatch_seq, rmatch_lit, rmatch_seq.
    replace (num ++ unit) with (num ++ unit ++ []) by (rewrite app_nil_r; reflexivity).
    apply rmatch_group_greedy.
    + exact Hnum.
    + exact Hdigits.
    + destruct Hunit as [-> | ->]; reflexivity.
    + destruct Hunit as [-> | ->]; reflexivity.
Qed.

Lemma lost_line_search (d : N) :
  digit d = true ->
  search LOST_PATTERN (u "鱼脱钩了！鱼竿：" ++ [d]) = Some (set_group 1 [d] no_groups).
Proof.
  intros Hd. apply search_here. unfold LOST_PATTERN.
  rewrite rmatch_seq, rmatch_lit, (rmatch_group_class 1 digit _ d _ _ Hd). reflexivity.
Qed.

(** ** The model on known values *)

(** A [str] counts code points: 鲤鱼 is two characters, in six bytes. *)
Example code_points_not_bytes :
  length (u "鲤鱼") = 2%nat /\ String.length "鲤鱼" = 6%nat.
Proof. split; reflexivity. Qed.

Example splitlines_known :
  splitlines (u "a" ++ [CR; LF] ++ u "b" ++ [LF; LF] ++ u "c" ++ [LF]) =
    [u "a"; u "b"; []; u "c"] /\
  splitlines [] = [] /\
  splitlines [LF] = [[]] /\
  splitlines (u "a" ++ [CR]) = [u "a"].
Proof. repeat apply conj; vm_compute; reflexivity. Qed.

Example split1_known :
  split1 (u " : ") (u "10:00 : x : y") = [u "10:00"; u "x : y"] /\
  split1 (u " : ") (u "10:00") = [u "10:00"] /\
  strip (u "  10:00 " ++ [LF]) = u "10:00".
Proof. repeat apply conj; vm_compute; reflexivity. Qed.

(** [float] of the texts [[\d.]+] can capture: one point at most and a
    digit at least, digits of any script, rounded to nearest and ties to
    even, infinity beyond the largest float. *)
Example py_float_known :
  py_float (u "1.") = Ret (float_of_Z 1) /\
  py_float (u ".5") = Ret Literal.float_0_5 /\
  py_float (u "١.٢") = Ret Literal.float_1_2 /\
  py_float (u ".") = Raise ValueError /\
  py_float (u "1.2.3") = Raise ValueError /\
  py_float (u "9007199254740993") = Ret (float_of_Z 9007199254740992) /\
  py_float (u "9007199254740995") = Ret (float_of_Z 9007199254740996) /\
  py_float (u "1" ++ repeat 48 400) = Ret (S754_infinity false) /\
  py_float (u "0." ++ repeat 48 400 ++ u "1") = Ret float_zero.
Proof. repeat apply conj; vm_compute; reflexivity. Qed.

Example py_int_known :
  py_int (u "100") = Ret 100%Z /\
  py_int (u "٣") = Ret 3%Z /\
  py_int (repeat 49 4301) = Raise ValueError.
Proof. repeat apply conj; vm_compute; reflexivity. Qed.

(** The three kinds of line, and lines that are none of them. *)
Example parse_line_fast_known :
  parse_line_fast (u "10:00 : 鱼上钩了！鱼竿：1，鱼信息:【鲤鱼】2.5kg") =
    Ret (Some (PHook (u "10:00") 1 (u "鲤鱼") Literal.float_2_5)) /\
  parse_line_fast (u "10:01 : 捕获：鱼竿:1,【鲤鱼】2500克,总经验:100,耗时:30秒,鱼饵:蚯蚓") =
    Ret (Some (PCapture (u "10:01") 1 (u "鲤鱼") Literal.float_2_5 100 (u "30秒")
                        (u "蚯蚓"))) /\
  parse_line_fast (u "10:02 : 鱼脱钩了！鱼竿：1") =
    Ret (Some (PLost (u "10:02") 1 (u "？") float_zero)) /\
  parse_line_fast (u "garbage text with no separator") = Ret None /\
  parse_line_fast (u "10:03 : 鱼上钩了！鱼竿：1") = Ret None /\
  parse_line_fast (u "10:04 : 捕获：鱼竿:1,【鲤鱼】2500克,总经验:100,耗时:30秒,鱼饵:") = Ret None.
Proof. repeat apply conj; vm_compute; reflexivity. Qed.

(** ** Hooks, captures and losses over a pass *)

Lemma parse_lines_snoc (lines : list str) (line : str) (st st' : pass) :
  parse_lines lines start = Ret st ->
  parse_step st line = Ret st' ->
  parse_lines (lines ++ [line]) start = Ret st'.
Proof.
  intros H1 H2. rewrite parse_lines_app, H1. simpl. rewrite H2. reflexivity.
Qed.

Lemma parse_text_after (text : str) (lines after : list str) (line : str)
      (st : pass) (new : FishingRecord) (cache' : gmap Z parsed) :
  splitlines (strip text) = lines ++ line :: after ->
  parse_lines lines start = Ret st ->
  parse_step st line = Ret {| records := records st ++ [new]; hook_cache := cache' |} ->
  forall out, parse_text text = Ret out -> exists later, out = records st ++ new :: later.
Proof.
  intros Hl H1 H2 out Hout.
  assert (Hl' : splitlines (strip text) = (lines ++ [line]) ++ after).
  { rewrite Hl, <- app_assoc. reflexivity. }
  destruct (parse_text_prefix _ _ _ _ _ Hl' (parse_lines_snoc _ _ _ _ H1 H2) Hout)
    as [later ->].
  exists later. simpl. rewrite <- app_assoc. reflexivity.
Qed.

(** The first of two hooks of a slot leaves no trace. *)
Lemma same_off_step (r : Z) (s1 s2 : pass) (line : str) :
  same_off r s1 s2 ->
  not_resolving r line ->
  match parse_step s1 line, parse_step s2 line with
  | Ret a, Ret b => same_off r a b
  | Raise e1, Raise e2 => e1 = e2
  | _, _ => False
  end.
Proof.
  intros [Hrec Hoff] [Hcap Hlost]. unfold parse_step, same_off.
  destruct (parse_line_fast line) as [[p|]|e] eqn:Hp; simpl; auto.
  destruct p as [t k f w|t k f w e c b|t k f w].
  - split; [exact Hrec|]. simpl. intros j Hj.
    destruct (decide (k = j)) as [->|Hkj].
    + rewrite !lookup_insert_eq. reflexivity.
    + rewrite !lookup_insert_ne by exact Hkj. apply Hoff, Hj.
  - assert (Hk : k <> r) by (intros ->; eapply Hcap; reflexivity).
    simpl. rewrite Hrec. split; [reflexivity|]. intros j Hj.
    destruct (decide (k = j)) as [->|Hkj].
    + rewrite !lookup_delete_eq. reflexivity.
    + rewrite !lookup_delete_ne by exact Hkj. apply Hoff, Hj.
  - assert (Hk : k <> r) by (intros ->; eapply Hlost; reflexivity).
    rewrite (Hoff k Hk). destruct (hook_cache s2 !! k); simpl; rewrite Hrec;
      (split; [reflexivity|]; intros j Hj;
       destruct (decide (k = j)) as [->|Hkj];
       [rewrite !lookup_delete_eq; reflexivity
       |rewrite !lookup_delete_ne by exact Hkj; apply Hoff, Hj]).
Qed.

Lemma same_off_lines (r : Z) (lines : list str) : forall s1 s2,
  same_off r s1 s2 ->
  Forall (not_resolving r) lines ->
  match parse_lines lines s1, parse_lines lines s2 with
  | Ret a, Ret b => same_off r a b
  | Raise e1, Raise e2 => e1 = e2
  | _, _ => False
  end.
Proof.
  induction lines as [|l lines IH]; intros s1 s2 Hs Hall; simpl; [exact Hs|].
  apply Forall_cons in Hall as [Hl Hall].
  pose proof (same_off_step r s1 s2 l Hs Hl) as Hstep.
  destruct (parse_step s1 l) as [a|e1], (parse_step s2 l) as [b|e2]; simpl;
    try contradiction; [|exact Hstep].
  apply IH; assumption.
Qed.

Lemma same_off_hook (r : Z) (s1 s2 : pass) (line : str) t f w :
  same_off r s1 s2 ->
  parse_line_fast line = Ret (Some (PHook t r f w)) ->
  parse_step s1 line = parse_step s2 line.
Proof.
  intros [Hrec Hoff] Hh. rewrite !(parse_step_hook _ _ _ _ _ _ Hh).
  rewrite Hrec. do 2 f_equal. apply map_eq. intros k.
  destruct (decide (r = k)) as [->|Hk].
  - rewrite !lookup_insert_eq. reflexivity.
  - rewrite !lookup_insert_ne by exact Hk. apply Hoff. congruence.
Qed.

Lemma first_hook_forgotten (r : Z) (before mid after : list str) (first second : str)
      t1 f1 w1 t2 f2 w2 :
  parse_line_fast first = Ret (Some (PHook t1 r f1 w1)) ->
  parse_line_fast second = Ret (Some (PHook t2 r f2 w2)) ->
  Forall (not_resolving r) mid ->
  parse_lines (before ++ first :: mid ++ second :: after) start =
  parse_lines (before ++ mid ++ second :: after) start.
Proof.
  intros H1 H2 Hmid. rewrite !parse_lines_app.
  destruct (parse_lines before start) as [st0|e]; simpl; [|reflexivity].
  rewrite (parse_step_hook _ _ _ _ _ _ H1). simpl. rewrite !parse_lines_app.
  set (st1 := {| records := records st0;
                 hook_cache := <[r := PHook t1 r f1 w1]> (hook_cache st0) |}).
  assert (Hs : same_off r st1 st0).
  { split; [reflexivity|]. intros k Hk. simpl. apply lookup_insert_ne. congruence. }
  pose proof (same_off_lines r mid st1 st0 Hs Hmid) as Hm.
  destruct (parse_lines mid st1) as [a|e1], (parse_lines mid st0) as [b|e2]; simpl;
    try contradiction; [|congruence].
  rewrite (same_off_hook r a b second _ _ _ Hm H2). reflexivity.
Qed.

(** C10. Empty or whitespace-only text goes through [parse_text] to the
    empty list of records; nothing in [parse_text] refuses it. The
    warning for empty input is [analyze]'s, given exactly when the input
    box holds nothing but whitespace, before anything is parsed and with
    the cache untouched. *)
Theorem blank_text_parses_to_nothing :
  (forall text : str,
      Forall (fun c => is_space c = true) text -> parse_text text = Ret []) /\
  (forall (cache_key : str -> str) (cache : RecordCache.t) (input : str),
      Forall (fun c => is_space c = true) input ->
      FishingLogAnalyzer.analyze cache_key cache input =
      (FishingLogAnalyzer.EmptyInputWarning, cache)) /\
  (forall (cache_key : str -> str) (cache : RecordCache.t) (input : str),
      fst (FishingLogAnalyzer.analyze cache_key cache input) =
      FishingLogAnalyzer.EmptyInputWarning ->
      Forall (fun c => is_space c = true) input).
Proof.
  split; [|split].
  - intros text H. unfold parse_text. rewrite (strip_spaces _ H). reflexivity.
  - intros cache_key cache input H. unfold FishingLogAnalyzer.analyze.
    rewrite (strip_spaces _ H). reflexivity.
  - intros cache_key cache input. unfold FishingLogAnalyzer.analyze. cbv zeta.
    destruct (strip input) as [|c s] eqn:Hs; [intros _; apply strip_nil_inv, Hs|].
    destruct (parse_text (c :: s)) as [[|x xs]|e]; cbn [fst];
      try (intros H; discriminate H).
    destruct (RecordCache.set cache (cache_key (c :: s)) (x :: xs)); cbn [fst];
      intros H; discriminate H.
Qed.

(** ** The classifier on lines written to the grammar *)

Ltac decode_literals :=
  repeat match goal with
         | |- context [u ?s] => let x := eval vm_compute in (u s) in change (u s) with x
         end.

Lemma contains_prefix (sub s : str) : starts_with sub s = true -> contains sub s = true.
Proof. intros H. destruct s; simpl; rewrite H; reflexivity. Qed.

Lemma hook_line_marked (x : str) :
  contains (u "鱼上钩了") (u "鱼上钩了！鱼竿：" ++ x) = true.
Proof.
  apply contains_prefix.
  change (u "鱼上钩了！鱼竿：") with (u "鱼上钩了" ++ u "！鱼竿：").
  rewrite <- app_assoc. apply starts_with_app.
Qed.

Lemma lost_line_marked (d : N) :
  contains (u "鱼上钩了") (u "鱼脱钩了！鱼竿：" ++ [d]) = false /\
  contains (u "捕获") (u "鱼脱钩了！鱼竿：" ++ [d]) = false /\
  contains (u "鱼脱钩了") (u "鱼脱钩了！鱼竿：" ++ [d]) = true.
Proof.
  decode_literals. simpl. rewrite ?andb_false_r. auto.
Qed.

(** C5, as amended. A hook line or a lost line written to the grammar
    with a rod slot of one decimal digit is accepted whichever digit it
    is, 0 to 9 and not only 1 to 5, and the slot reported is that digit's
    value. (The slot is one digit in all three patterns; a longer slot
    number is not reported as written.) The fish name of the hook line is
    any text without a line feed and without the closing bracket 】, which
    is the character 12305. *)
Theorem one_digit_slot_is_reported :
  (forall (line p0 : str) (d : N) (name num unit : str) (mk : Z * nat),
      split1 SEP line =
        [p0; u "鱼上钩了！鱼竿：" ++ d :: u "，鱼信息:【" ++ name ++ u "】" ++ num ++ unit] ->
      digit d = true ->
      name <> [] -> Forall (fun c => c <> LF /\ c <> 12305) name ->
      decimal_literal num = Some mk ->
      unit = u "kg" \/ unit = u "g" ->
      exists r w,
        to_decimal d = Some r /\ weight_of num unit w /\
        parse_line_fast line = Ret (Some (PHook (strip p0) r (firstn 10 name) w))) /\
  (forall (line p0 : str) (d : N),
      split1 SEP line = [p0; u "鱼脱钩了！鱼竿：" ++ [d]] ->
      digit d = true ->
      exists r,
        to_decimal d = Some r /\
        parse_line_fast line = Ret (Some (PLost (strip p0) r (u "？") float_zero))) /\
  (forall (d : N) (r : Z), to_decimal d = Some r -> (0 <= r <= 9)%Z) /\
  (forall r : N, r <= 9 -> to_decimal (48 + r) = Some (Z.of_N r)).
Proof.
  split; [|split; [|split]].
  - intros line p0 d name num unit mk Hs Hd Hne Hname Hnum Hunit.
    destruct (decimal_literal_chars _ _ Hnum) as [Hnum_ne Hnum_chars].
    pose proof Hd as Hd'. apply digit_value in Hd' as [r Hr].
    destruct (parse_weight_cases num unit) as [[_ Hbad]|(w & Hw & Hwof)];
      [tauto|congruence|].
    exists r, w. split; [exact Hr|]. split; [exact Hwof|].
    unfold parse_line_fast. rewrite (split1_two _ _ _ _ Hs), Hs. cbn [negb item nth_error bind].
    rewrite hook_line_marked.
    rewrite (hook_line_search d name num unit Hd Hne Hname Hnum_ne Hnum_chars Hunit).
    change (group _ 1) with [d]. change (group _ 2) with name.
    change (group _ 3) with num. change (group _ 4) with unit.
    rewrite (py_int_digit _ _ Hr), Hw. reflexivity.
  - intros line p0 d Hs Hd.
    pose proof Hd as Hd'. apply digit_value in Hd' as [r Hr].
    exists r. split; [exact Hr|].
    destruct (lost_line_marked d) as (Hh & Hc & Hl).
    unfold parse_line_fast. rewrite (split1_two _ _ _ _ Hs), Hs. cbn [negb item nth_error bind].
    rewrite Hh, Hc, Hl, (lost_line_search d Hd).
    change (group _ 1) with [d]. rewrite (py_int_digit _ _ Hr). reflexivity.
  - apply to_decimal_range.
  - intros r Hr.
    assert (Hcases : r = 0 \/ r = 1 \/ r = 2 \/ r = 3 \/ r = 4 \/ r = 5 \/ r = 6 \/ r = 7
                     \/ r = 8 \/ r = 9) by lia.
    repeat (destruct Hcases as [-> | Hcases]; [reflexivity|]). subst r. reflexivity.
Qed.

(** ** When the classifier raises *)

Lemma bad_number_raises (line : str) :
  bad_number line -> parse_line_fast line = Raise ValueError.
Proof.
  intros (p0 & content & m & Hs & H).
  unfold parse_line_fast. rewrite (split1_two _ _ _ _ Hs), Hs. cbn [negb item nth_error bind].
  destruct H as [(Hh & Hm & Hbad)|(Hh & Hc & Hm & Hbad)].
  - rewrite Hh, Hm.
    destruct (hook_search _ _ Hm) as (d & name & num & unit & Hf).
    destruct Hf as (_ & Hd & _ & _ & _ & _ & Hu & H1 & H2 & H3 & H4).
    rewrite H1, H3, H4 in *.
    apply digit_value in Hd as [r Hr]. rewrite (py_int_digit _ _ Hr). cbn [bind].
    destruct (parse_weight_cases num unit) as [[-> _]|(w & _ & x & Hx & _)];
      [tauto|reflexivity|].
    unfold py_float in Hx. rewrite Hbad in Hx. discriminate.
  - rewrite Hh, Hc, Hm.
    destruct (capture_search _ _ Hm) as (d & name & num & unit & xp & secs & bait & Hf).
    destruct Hf as (_ & Hd & _ & _ & _ & _ & Hu & Hxne & Hxp & _ & _ & _ & _
                    & H1 & H2 & H3 & H4 & H5 & H6 & H7).
    rewrite H1, H3, H4, H5 in *.
    apply digit_value in Hd as [r Hr]. rewrite (py_int_digit _ _ Hr). cbn [bind].
    destruct (parse_weight_cases num unit) as [[-> _]|(w & -> & x & Hx & _)];
      [tauto|reflexivity|]. cbn [bind].
    destruct Hbad as [Hbad|Hlong].
    + unfold py_float in Hx. rewrite Hbad in Hx. discriminate.
    + destruct (py_int_digits xp Hxne Hxp) as [(e & _ & Hle)|[-> _]]; [lia|reflexivity].
Qed.

Lemma raises_bad_number (line : str) (e : exn) :
  parse_line_fast line = Raise e -> e = ValueError /\ bad_number line.
Proof.
  intros H. pose proof (parse_line_fast_outcome line) as Ho. rewrite H in Ho.
  inversion Ho as [| | |p0 content m d name num unit Hs Hh Hf Hbad
                   | |
                   |p0 content m d name num unit xp secs bait Hs Hh Hc Hf Hbad
                   |p0 content m d name num unit xp secs bait Hs Hh Hc Hf Hok Hlong
                   | | |]; subst; (split; [reflexivity|]).
  - destruct Hf as (Hm & _ & _ & _ & _ & _ & _ & _ & _ & H3 & _).
    exists p0, content, m. split; [exact Hs|]. left. rewrite H3. auto.
  - destruct Hf as (Hm & _ & _ & _ & _ & _ & _ & _ & _ & _ & _ & _ & _ & _ & _ & H3 & _).
    exists p0, content, m. split; [exact Hs|]. right. rewrite H3. auto.
  - destruct Hf as (Hm & _ & _ & _ & _ & _ & _ & _ & _ & _ & _ & _ & _ & _ & _ & _ & _ & H5 & _).
    exists p0, content, m. split; [exact Hs|]. right. rewrite H5. auto.
Qed.

Lemma parse_step_completes (st : pass) (line : str) :
  (exists st', parse_step st line = Ret st') <-> ~ bad_number line.
Proof.
  split.
  - intros [st' H] Hbad. apply bad_number_raises in Hbad.
    rewrite (parse_step_raise _ _ _ Hbad) in H. discriminate.
  - intros Hgood. unfold parse_step.
    destruct (parse_line_fast line) as [[p|]|e] eqn:Hp.
    + destruct p as [t r f w|t r f w x c b|t r f w]; simpl; eauto.
      destruct (hook_cache st !! r); eauto.
    + simpl. eauto.
    + apply raises_bad_number in Hp as [_ Hbad]. contradiction.
Qed.

Lemma parse_lines_completes (lines : list str) : forall st,
  (exists st', parse_lines lines st = Ret st') <-> Forall (fun l => ~ bad_number l) lines.
Proof.
  induction lines as [|l lines IH]; intros st; simpl.
  - split; [constructor|eauto].
  - split.
    + intros [st' H]. apply bind_ret in H as (st1 & H1 & H).
      constructor; [apply (parse_step_completes st l); eauto|apply (IH st1); eauto].
    + intros H. apply Forall_cons in H as [Hl Hrest].
      apply (parse_step_completes st l) in Hl as [st1 ->]. simpl. apply IH, Hrest.
Qed.

Lemma parse_lines_raises (lines : list str) (e : exn) : forall st,
  parse_lines lines st = Raise e -> e = ValueError.
Proof.
  induction lines as [|l lines IH]; intros st; simpl; [discriminate|].
  unfold parse_step at 1.
  destruct (parse_line_fast l) as [[p|]|e'] eqn:Hp; simpl.
  - destruct p as [t r f w|t r f w x c b|t r f w]; simpl; try apply IH.
    destruct (hook_cache st !! r); simpl; apply IH.
  - apply IH.
  - intros [= <-]. apply raises_bad_number in Hp as [-> _]. reflexivity.
Qed.

(** C1, as amended. For every line [parse_line_fast] either returns one
    of Hook, Capture, Lost or Unrecognized, or raises [ValueError]; a line
    without the separator, or on which no grammar matches, is
    Unrecognized; the function raises exactly when a hook or capture
    grammar matched and a number it captured does not convert. No handler
    is set per line: [parse_text] returns records exactly when no line
    raises, and raises [ValueError] itself otherwise; the handler is the
    one of [analyze], around the whole pass. *)
Theorem unconvertible_number_aborts_the_pass :
  (forall line : str,
      (exists r, parse_line_fast line = Ret r) \/ parse_line_fast line = Raise ValueError) /\
  (forall line : str, contains SEP line = false -> parse_line_fast line = Ret None) /\
  (forall line p0 content : str,
      split1 SEP line = [p0; content] ->
      search HOOK_PATTERN content = None ->
      search CAPTURE_PATTERN content = None ->
      search LOST_PATTERN content = None ->
      parse_line_fast line = Ret None) /\
  (forall line : str, parse_line_fast line = Raise ValueError <-> bad_number line) /\
  (forall text : str,
      (exists out, parse_text text = Ret out) <->
      Forall (fun l => ~ bad_number l) (splitlines (strip text))) /\
  (forall text : str,
      (exists out, parse_text text = Ret out) \/ parse_text text = Raise ValueError) /\
  (forall (cache_key : str -> str) (cache : RecordCache.t) (input : str) (e : exn),
      parse_text (strip input) = Raise e ->
      FishingLogAnalyzer.analyze cache_key cache input =
      (FishingLogAnalyzer.ParseError e, cache)).
Proof.
  split; [|split; [|split; [|split; [|split; [|split]]]]].
  - intros line. destruct (parse_line_fast line) as [r|e] eqn:H; [eauto|].
    apply raises_bad_number in H as [-> _]. auto.
  - apply parse_line_fast_no_sep.
  - intros line p0 content Hs Hh Hc Hl. unfold parse_line_fast.
    rewrite (split1_two _ _ _ _ Hs), Hs. cbn [negb item nth_error bind].
    rewrite Hh, Hc, Hl.
    destruct (contains (u "鱼上钩了") content); [reflexivity|].
    destruct (contains (u "捕获") content); [reflexivity|].
    destruct (contains (u "鱼脱钩了") content); reflexivity.
  - intros line. split; [apply raises_bad_number|apply bad_number_raises].
  - intros text. unfold parse_text. rewrite <- (parse_lines_completes _ start).
    destruct (parse_lines (splitlines (strip text)) start) as [st|e]; simpl.
    + split; eauto.
    + split; intros [x H]; discriminate.
  - intros text. unfold parse_text.
    destruct (parse_lines (splitlines (strip text)) start) as [st|e] eqn:H; simpl; [eauto|].
    apply parse_lines_raises in H as ->. auto.
  - intros cache_key cache input e H. unfold FishingLogAnalyzer.analyze. cbv zeta.
    destruct (strip input) as [|c s] eqn:Hs.
    + vm_compute in H. discriminate.
    + rewrite H. reflexivity.
Qed.

(** C1 as written fails: a hook line whose weight reads 1.2.3 matches the
    grammar, [float] refuses the text, and the exception leaves
    [parse_line_fast] and ends the pass over a text that holds the line. *)
Lemma unconvertible_number_counterexample :
  parse_line_fast (u "10:00 : 鱼上钩了！鱼竿：1，鱼信息:【鲤鱼】1.2.3kg") = Raise ValueError /\
  parse_text (u "09:59 : 鱼脱钩了！鱼竿：2" ++ [LF] ++
              u "10:00 : 鱼上钩了！鱼竿：1，鱼信息:【鲤鱼】1.2.3kg" ++ [LF] ++
              u "10:01 : 鱼脱钩了！鱼竿：1") = Raise ValueError.
Proof. split; vm_compute; reflexivity. Qed.

(** C5 as written fails: with the two-digit slot 12 a hook line is not
    accepted, and a lost line is accepted under slot 1. *)
Lemma two_digit_slot_counterexample :
  parse_line_fast (u "10:00 : 鱼上钩了！鱼竿：12，鱼信息:【鲤鱼】2.5kg") = Ret None /\
  parse_line_fast (u "10:01 : 鱼脱钩了！鱼竿：12") =
    Ret (Some (PLost (u "10:01") 1 (u "？") float_zero)).
Proof. split; vm_compute; reflexivity. Qed.

(** ** Weight and fish name of a classified line *)

Lemma classified_hook (line : str) t r f w :
  parse_line_fast line = Ret (Some (PHook t r f w)) ->
  exists p0 content m d name num unit,
    split1 SEP line = [p0; content] /\ hook_found content m d name num unit /\
    t = strip p0 /\ to_decimal d = Some r /\ f = firstn 10 name /\ weight_of num unit w.
Proof.
  intros H. pose proof (parse_line_fast_outcome line) as Ho. rewrite H in Ho.
  inversion Ho; subst. eauto 15.
Qed.

Lemma classified_capture (line : str) t r f w e c b :
  parse_line_fast line = Ret (Some (PCapture t r f w e c b)) ->
  exists p0 content m d name num unit xp secs,
    split1 SEP line = [p0; content] /\
    capture_found content m d name num unit xp secs b /\
    t = strip p0 /\ to_decimal d = Some r /\ f = firstn 10 name /\
    weight_of num unit w /\ py_int xp = Ret e /\ c = secs ++ u "秒".
Proof.
  intros H. pose proof (parse_line_fast_outcome line) as Ho. rewrite H in Ho.
  inversion Ho; subst. eauto 20.
Qed.

(** C7. The weight of every classified hook or capture line is the
    float of the matched number, divided by 1000 when the matched unit is
    g or 克 and as it is when the unit is kg or 公斤, and the unit is one
    of these. So 500g gives the float 0.5 and 1.2kg the float 1.2. *)
Theorem weight_is_normalized_to_kilograms :
  (forall v : str,
      _parse_weight v (u "g") = (do w <- py_float v; Ret (fdiv w (float_of_Z 1000))) /\
      _parse_weight v (u "克") = (do w <- py_float v; Ret (fdiv w (float_of_Z 1000))) /\
      _parse_weight v (u "kg") = py_float v /\
      _parse_weight v (u "公斤") = py_float v) /\
  (forall (line : str) (p : parsed),
      parse_line_fast line = Ret (Some p) ->
      (forall t r f w, p <> PLost t r f w) ->
      exists p0 content m x,
        split1 SEP line = [p0; content] /\
        (search HOOK_PATTERN content = Some m \/ search CAPTURE_PATTERN content = Some m) /\
        py_float (group m 3) = Ret x /\
        (((group m 4 = u "g" \/ group m 4 = u "克") /\
          p_weight p = fdiv x (float_of_Z 1000)) \/
         ((group m 4 = u "kg" \/ group m 4 = u "公斤") /\ p_weight p = x))) /\
  _parse_weight (u "500") (u "g") = Ret Literal.float_0_5 /\
  _parse_weight (u "1.2") (u "kg") = Ret Literal.float_1_2 /\
  _parse_weight (u "2500") (u "克") = Ret Literal.float_2_5 /\
  _parse_weight (u "2.5") (u "公斤") = Ret Literal.float_2_5 /\
  parse_line_fast (u "10:00 : 鱼上钩了！鱼竿：1，鱼信息:【鲤鱼】500g") =
    Ret (Some (PHook (u "10:00") 1 (u "鲤鱼") Literal.float_0_5)) /\
  parse_line_fast (u "10:00 : 鱼上钩了！鱼竿：1，鱼信息:【鲤鱼】1.2kg") =
    Ret (Some (PHook (u "10:00") 1 (u "鲤鱼") Literal.float_1_2)).
Proof.
  split; [|split; [|split; [|split; [|split; [|split; [|split]]]]; vm_compute; reflexivity]].
  - intros v. split; [apply parse_weight_g|]. split; [apply parse_weight_ke|].
    split; [apply parse_weight_kg|apply parse_weight_gongjin].
  - intros line p Hp Hnot. destruct p as [t r f w|t r f w e c b|t r f w].
    + apply classified_hook in Hp
        as (p0 & content & m & d & name & num & unit & Hs & Hf & _ & _ & _ & x & Hx & Hw).
      destruct Hf as (Hm & _ & _ & _ & _ & _ & _ & _ & _ & H3 & H4).
      exists p0, content, m, x. rewrite H3, H4. simpl. auto.
    + apply classified_capture in Hp
        as (p0 & content & m & d & name & num & unit & xp & secs & Hs & Hf & _ & _ & _
            & (x & Hx & Hw) & _).
      destruct Hf as (Hm & _ & _ & _ & _ & _ & _ & _ & _ & _ & _ & _ & _ & _ & _
                      & H3 & H4 & _).
      exists p0, content, m, x. rewrite H3, H4. simpl. auto.
    + exfalso. eapply Hnot. reflexivity.
Qed.

(** C8. The fish name of every classified hook or capture line is the
    first 10 characters, counted in code points, of the name the pattern
    matched: an 11-character or longer name gives exactly its first 10
    characters, and a name of 10 characters or fewer is kept whole. *)
Theorem fish_name_is_cut_to_ten_characters
        (line : str) (p : parsed) :
  parse_line_fast line = Ret (Some p) ->
  (forall t r f w, p <> PLost t r f w) ->
  exists p0 content m,
    split1 SEP line = [p0; content] /\
    (search HOOK_PATTERN content = Some m \/ search CAPTURE_PATTERN content = Some m) /\
    let name := group m 2 in
    p_fish p = firstn 10 name /\
    ((11 <= length name)%nat ->
     length (p_fish p) = 10%nat /\ exists cut, name = p_fish p ++ cut) /\
    ((length name <= 10)%nat -> p_fish p = name).
Proof.
  intros Hp Hnot.
  assert (H : exists p0 content m,
             split1 SEP line = [p0; content] /\
             (search HOOK_PATTERN content = Some m \/ search CAPTURE_PATTERN content = Some m) /\
             p_fish p = firstn 10 (group m 2)).
  { destruct p as [t r f w|t r f w e c b|t r f w].
    - apply classified_hook in Hp
        as (p0 & content & m & d & name & num & unit & Hs & Hf & _ & _ & Hfish & _).
      destruct Hf as (Hm & _ & _ & _ & _ & _ & _ & _ & H2 & _).
      exists p0, content, m. rewrite H2. auto.
    - apply classified_capture in Hp
        as (p0 & content & m & d & name & num & unit & xp & secs & Hs & Hf & _ & _ & Hfish & _).
      destruct Hf as (Hm & _ & _ & _ & _ & _ & _ & _ & _ & _ & _ & _ & _ & _ & H2 & _).
      exists p0, content, m. rewrite H2. auto.
    - exfalso. eapply Hnot. reflexivity. }
  destruct H as (p0 & content & m & Hs & Hm & Hfish).
  exists p0, content, m. split; [exact Hs|]. split; [exact Hm|].
  cbv zeta. split; [exact Hfish|]. rewrite Hfish. split.
  - intros Hlong. split.
    + rewrite length_take. lia.
    + exists (skipn 10 (group m 2)). symmetry. apply take_drop.
  - intros Hshort. apply take_ge. exact Hshort.
Qed.

(** ** The cache *)

Import RecordCache CacheHistory.

Lemma str_eqb_refl (a : str) : str_eqb a a = true.
Proof. apply str_eqb_eq. reflexivity. Qed.

Lemma str_eqb_neq (a b : str) : a <> b -> str_eqb a b = false.
Proof.
  intros H. destruct (str_eqb a b) eqn:E; [|reflexivity].
  apply str_eqb_eq in E. contradiction.
Qed.

Lemma dict_get_none (key : str) (d : dict) :
  dict_get key d = None <-> ~ In key (keys d).
Proof.
  induction d as [|[k v] d IH]; simpl; [tauto|].
  destruct (str_eqb k key) eqn:E.
  - apply str_eqb_eq in E. split; [discriminate|]. intros H. exfalso. apply H. auto.
  - rewrite IH. split.
    + intros H [Hk|Hin]; [|contradiction]. subst k. rewrite str_eqb_refl in E. discriminate.
    + intros H Hin. apply H. auto.
Qed.

Lemma dict_set_keys (key : str) (v : list FishingRecord) (d : dict) :
  keys (dict_set key v d) =
  match dict_get key d with
  | Some _ => keys d
  | None => keys d ++ [key]
  end.
Proof.
  induction d as [|[k v0] d IH]; simpl; [reflexivity|].
  destruct (str_eqb k key) eqn:E; simpl; [reflexivity|].
  rewrite IH. destruct (dict_get key d); reflexivity.
Qed.

Lemma dict_get_set (k key : str) (v : list FishingRecord) (d : dict) :
  dict_get k (dict_set key v d) = if str_eqb key k then Some v else dict_get k d.
Proof.
  induction d as [|[k0 v0] d IH]; simpl.
  - destruct (str_eqb key k); reflexivity.
  - destruct (str_eqb k0 key) eqn:E; simpl.
    + apply str_eqb_eq in E. subst k0. destruct (str_eqb key k); reflexivity.
    + destruct (str_eqb k0 k) eqn:E'.
      * apply str_eqb_eq in E'. subst k0. rewrite str_eqb_neq; [reflexivity|].
        intros ->. rewrite str_eqb_refl in E. discriminate.
      * exact IH.
Qed.

Lemma sorted_snoc {A} (R : A -> A -> Prop) (l : list A) (y : A) :
  StronglySorted R l -> Forall (fun x => R x y) l -> StronglySorted R (l ++ [y]).
Proof.
  induction 1 as [|x l Hl IH Hx]; intros Hy; simpl.
  - repeat constructor.
  - apply Forall_cons in Hy as [Hxy Hy]. constructor; [apply IH, Hy|].
    apply Forall_app. split; [exact Hx|]. repeat constructor. exact Hxy.
Qed.

(** What [set] does to the dict: the first key goes if the cache is full,
    then the key is assigned. *)
Lemma set_full (c : t) (key : str) (v : list FishingRecord) (k0 : str) :
  evicts c = Some k0 ->
  exists v0 d, cache c = (k0, v0) :: d /\
    set c key v = Ret {| max_size := max_size c; cache := dict_set key v d |}.
Proof.
  unfold evicts, set. destruct (max_size c <=? Z.of_nat (length (cache c)))%Z; [|discriminate].
  destruct (cache c) as [|[k v0] d]; [discriminate|]. intros [= ->].
  exists v0, d. split; [reflexivity|]. simpl. rewrite str_eqb_refl. reflexivity.
Qed.

Lemma set_roomy (c : t) (key : str) (v : list FishingRecord) :
  (0 < max_size c)%Z -> evicts c = None ->
  (Z.of_nat (length (cache c)) < max_size c)%Z /\
  set c key v = Ret {| max_size := max_size c; cache := dict_set key v (cache c) |}.
Proof.
  unfold evicts, set. intros Hpos.
  destruct (Z.leb_spec (max_size c) (Z.of_nat (length (cache c)))) as [Hle|Hlt].
  - destruct (cache c) as [|[k v0] d]; [simpl in Hle; lia|discriminate].
  - intros _. split; [exact Hlt|reflexivity].
Qed.

Lemma keys_length (d : dict) : length (keys d) = length d.
Proof. apply length_map. Qed.

Lemma step_keeps (tr tr' : traced) (o : op) :
  (0 < max_size (state tr))%Z ->
  ordered tr ->
  (Z.of_nat (length (cache (state tr))) <= max_size (state tr))%Z ->
  step tr o = Ret tr' ->
  max_size (state tr') = max_size (state tr) /\
  ordered tr' /\
  (Z.of_nat (length (cache (state tr'))) <= max_size (state tr'))%Z.
Proof.
  intros Hpos [Hsorted Hborn] Hlen Hstep. destruct o as [key v|key]; simpl in Hstep;
    [|injection Hstep as <-; unfold ordered; auto].
  apply bind_ret in Hstep as (c' & Hset & [= <-]). unfold ordered. simpl.
  assert (Hd : exists d,
             c' = {| max_size := max_size (state tr); cache := dict_set key v d |} /\
             StronglySorted (fun a b => (born tr a < born tr b)%nat) (keys d) /\
             Forall (fun k => (born tr k < clock tr)%nat) (keys d) /\
             (Z.of_nat (length d) < max_size (state tr))%Z /\
             enters (state tr) key =
               match dict_get key d with None => true | Some _ => false end).
  { destruct (evicts (state tr)) as [k0|] eqn:He.
    - destruct (set_full _ key v _ He) as (v0 & d & Hc & Hs). rewrite Hs in Hset.
      injection Hset as <-. exists d. rewrite Hc in Hsorted, Hborn, Hlen.
      cbn [keys List.map fst] in Hsorted, Hborn.
      apply StronglySorted_inv in Hsorted as [Hsd Hk0].
      apply Forall_cons in Hborn as [_ Hborn].
      cbn [length] in Hlen. rewrite Nat2Z.inj_succ in Hlen.
      split; [reflexivity|]. split; [exact Hsd|]. split; [exact Hborn|]. split; [lia|].
      unfold enters. rewrite Hc, He. cbn [dict_get].
      destruct (str_eqb k0 key) eqn:E.
      + apply str_eqb_eq in E. subst k0.
        assert (Hnot : dict_get key d = None).
        { apply dict_get_none. intros Hin. rewrite Forall_forall in Hk0.
          apply list_elem_of_In, Hk0 in Hin. lia. }
        rewrite Hnot. reflexivity.
      + destruct (dict_get key d); reflexivity.
    - destruct (set_roomy _ key v Hpos He) as [Hlt Hs]. rewrite Hs in Hset.
      injection Hset as <-. exists (cache (state tr)).
      repeat split; auto.
      unfold enters. rewrite He. destruct (dict_get key (cache (state tr))); reflexivity. }
  destruct Hd as (d & -> & Hsd & Hbd & Hlt & ->). simpl.
  split; [reflexivity|].
  rewrite dict_set_keys. destruct (dict_get key d) as [old|] eqn:Hg.
  - split; [split|].
    + exact Hsd.
    + eapply Forall_impl; [exact Hbd|]. intros k Hk. simpl in Hk. lia.
    + rewrite <- keys_length, dict_set_keys, Hg, keys_length. lia.
  - apply dict_get_none in Hg.
    assert (Hsame : Forall (fun k => str_eqb k key = false) (keys d)).
    { apply Forall_forall. intros k Hk. apply str_eqb_neq. intros ->.
      apply Hg, list_elem_of_In, Hk. }
    split; [split|].
    + apply sorted_snoc.
      * clear -Hsd Hsame. induction Hsd as [|x l Hl IH Hx]; [constructor|].
        apply Forall_cons in Hsame as [Hx' Hsame]. constructor; [apply IH, Hsame|].
        rewrite Hx'. rewrite Forall_forall in *. intros y Hy.
        rewrite (Hsame y Hy). apply Hx, Hy.
      * rewrite str_eqb_refl. rewrite Forall_forall in *. intros k Hk.
        rewrite (Hsame k Hk). apply Hbd, Hk.
    + apply Forall_app. split.
      * rewrite Forall_forall in *. intros k Hk. rewrite (Hsame k Hk).
        specialize (Hbd k Hk). simpl in Hbd. lia.
      * constructor; [|constructor]. simpl. rewrite str_eqb_refl. lia.
    + rewrite <- keys_length, dict_set_keys.
      destruct (dict_get key d) eqn:Hg'.
      * rewrite keys_length. lia.
      * rewrite length_app, keys_length. simpl. lia.
Qed.

Lemma run_keeps (ops : list op) : forall tr,
  (0 < max_size (state tr))%Z ->
  ordered tr ->
  (Z.of_nat (length (cache (state tr))) <= max_size (state tr))%Z ->
  exists tr',
    run ops tr = Ret tr' /\
    max_size (state tr') = max_size (state tr) /\
    ordered tr' /\
    (Z.of_nat (length (cache (state tr'))) <= max_size (state tr'))%Z.
Proof.
  induction ops as [|o ops IH]; intros tr Hpos Hord Hlen; simpl; [eauto|].
  assert (Hstep : exists tr1, step tr o = Ret tr1).
  { destruct o as [key v|key]; simpl; [|eauto].
    destruct (evicts (state tr)) as [k0|] eqn:He.
    - destruct (set_full _ key v _ He) as (v0 & d & _ & ->). simpl. eauto.
    - destruct (set_roomy _ key v Hpos He) as [_ ->]. simpl. eauto. }
  destruct Hstep as [tr1 Hstep]. rewrite Hstep. simpl.
  destruct (step_keeps _ _ _ Hpos Hord Hlen Hstep) as (Hmax & Hord1 & Hlen1).
  destruct (IH tr1) as (tr' & Hrun & Hmax' & Hord' & Hlen'); [lia|exact Hord1|exact Hlen1|].
  exists tr'. repeat split; auto; try apply Hord'. congruence.
Qed.

Lemma run_gets (ops : list op) : forall tr,
  match run ops tr, run (filter (fun o => is_set o = true) ops) tr with
  | Ret a, Ret b => a = b
  | Raise e1, Raise e2 => e1 = e2
  | _, _ => False
  end.
Proof.
  induction ops as [|o ops IH]; intros tr; simpl; [reflexivity|].
  destruct o as [key v|key].
  - rewrite filter_cons_True by reflexivity. simpl.
    destruct (set (state tr) key v); simpl; [apply IH|reflexivity].
  - rewrite filter_cons_False by discriminate. simpl. apply IH.
Qed.

Lemma dict_get_in (k : str) (d : dict) :
  is_Some (dict_get k d) -> In k (keys d).
Proof.
  induction d as [|[k0 v0] d IH]; simpl.
  - intros [v Hv]. discriminate.
  - destruct (str_eqb k0 k) eqn:E; [|auto].
    apply str_eqb_eq in E. auto.
Qed.

(** C9. Over every sequence of [set] calls (and [get] calls, which change
    nothing) on a cache of capacity [max_size >= 1], no call raises and the
    cache never holds more than [max_size] entries; a [set] that finds the
    cache full deletes one key, the first of the dict, and that key is the
    one that entered the cache before every other key still present,
    whatever was read or assigned since. *)
Theorem cache_evicts_oldest_inserted_key (max_size : Z) (ops : list op) :
  (1 <= max_size)%Z ->
  exists tr,
    run ops (new max_size) = Ret tr /\
    run (filter (fun o => is_set o = true) ops) (new max_size) = Ret tr /\
    (Z.of_nat (length (cache (state tr))) <= max_size)%Z /\
    forall key v,
    exists c',
      set (state tr) key v = Ret c' /\
      match evicts (state tr) with
      | Some k0 =>
        Z.of_nat (length (cache (state tr))) = max_size /\
        is_Some (get (state tr) k0) /\
        (forall k, is_Some (get (state tr) k) -> k <> k0 ->
                   (born tr k0 < born tr k)%nat) /\
        (key <> k0 -> get c' k0 = None) /\
        (forall k, k <> k0 -> k <> key -> get c' k = get (state tr) k)
      | None =>
        (Z.of_nat (length (cache (state tr))) < max_size)%Z /\
        (forall k, k <> key -> get c' k = get (state tr) k)
      end.
Proof.
  intros Hmax.
  destruct (run_keeps ops (new max_size)) as (tr & Hrun & Hsize & [Hsorted Hborn] & Hlen).
  { simpl. lia. }
  { split; constructor. }
  { simpl. lia. }
  simpl in Hsize. rewrite Hsize in Hlen.
  exists tr. split; [exact Hrun|]. split.
  { pose proof (run_gets ops (new max_size)) as Hg. rewrite Hrun in Hg.
    destruct (run (filter _ ops) (new max_size)); [congruence|contradiction]. }
  split; [exact Hlen|].
  intros key v. unfold get. destruct (evicts (state tr)) as [k0|] eqn:He.
  - destruct (set_full _ key v _ He) as (v0 & d & Hc & Hs).
    eexists. split; [exact Hs|]. simpl.
    rewrite Hc in Hsorted, Hlen |- *. cbn [keys List.map fst] in Hsorted.
    apply StronglySorted_inv in Hsorted as [_ Hk0].
    assert (Hfresh : dict_get k0 d = None).
    { apply dict_get_none. intros Hin. rewrite Forall_forall in Hk0.
      apply list_elem_of_In, Hk0 in Hin. lia. }
    split; [|split; [|split; [|split]]].
    + unfold evicts in He. rewrite Hc, Hsize in He.
      destruct (Z.leb_spec max_size (Z.of_nat (length ((k0, v0) :: d)))); [lia|discriminate].
    + cbn [dict_get]. rewrite str_eqb_refl. eauto.
    + intros k Hk Hne. cbn [dict_get] in Hk. rewrite (str_eqb_neq k0 k) in Hk by congruence.
      apply dict_get_in in Hk. rewrite Forall_forall in Hk0.
      apply Hk0, list_elem_of_In, Hk.
    + intros Hne. rewrite dict_get_set, (str_eqb_neq key k0) by exact Hne. exact Hfresh.
    + intros k Hk0' Hkey. rewrite dict_get_set, (str_eqb_neq key k) by congruence.
      cbn [dict_get]. rewrite (str_eqb_neq k0 k) by congruence. reflexivity.
  - destruct (set_roomy (state tr) key v) as [Hlt Hs]; [lia|exact He|].
    eexists. split; [exact Hs|]. simpl. split; [lia|].
    intros k Hkey. rewrite dict_get_set, (str_eqb_neq key k) by congruence. reflexivity.
Qed.

(** ** The theorems at concrete inputs *)

Lemma unconvertible_number_witness :
  FishingLogAnalyzer.analyze (fun text => text) (RecordCache.init RecordCache.CACHE_SIZE)
    (u "10:00 : 鱼上钩了！鱼竿：1，鱼信息:【鲤鱼】1.2.3kg") =
  (FishingLogAnalyzer.ParseError ValueError, RecordCache.init RecordCache.CACHE_SIZE).
Proof.
  apply (proj2 (proj2 (proj2 (proj2 (proj2 (proj2 unconvertible_number_aborts_the_pass)))))).
  vm_compute. reflexivity.
Defined.

Lemma one_digit_slot_is_reported_witness :
  exists r w,
    to_decimal 55 = Some r /\ weight_of (u "2.5") (u "kg") w /\
    parse_line_fast (u "10:00 : 鱼上钩了！鱼竿：7，鱼信息:【鲤鱼】2.5kg") =
    Ret (Some (PHook (strip (u "10:00")) r (firstn 10 (u "鲤鱼")) w)).
Proof.
  refine (proj1 one_digit_slot_is_reported
            (u "10:00 : 鱼上钩了！鱼竿：7，鱼信息:【鲤鱼】2.5kg") (u "10:00") 55
            (u "鲤鱼") (u "2.5") (u "kg") (25%Z, 1%nat) _ _ _ _ _ _).
  - vm_compute. reflexivity.
  - vm_compute. reflexivity.
  - vm_compute. discriminate.
  - vm_compute. repeat constructor; discriminate.
  - vm_compute. reflexivity.
  - left. reflexivity.
Defined.

Lemma weight_is_normalized_to_kilograms_witness :
  exists p0 content m x,
    split1 SEP (u "10:00 : 鱼上钩了！鱼竿：1，鱼信息:【鲤鱼】500g") = [p0; content] /\
    (search HOOK_PATTERN content = Some m \/ search CAPTURE_PATTERN content = Some m) /\
    py_float (group m 3) = Ret x /\
    (((group m 4 = u "g" \/ group m 4 = u "克") /\
      p_weight (PHook (u "10:00") 1 (u "鲤鱼") Literal.float_0_5) =
      fdiv x (float_of_Z 1000)) \/
     ((group m 4 = u "kg" \/ group m 4 = u "公斤") /\
      p_weight (PHook (u "10:00") 1 (u "鲤鱼") Literal.float_0_5) = x)).
Proof.
  refine (proj1 (proj2 weight_is_normalized_to_kilograms)
            (u "10:00 : 鱼上钩了！鱼竿：1，鱼信息:【鲤鱼】500g")
            (PHook (u "10:00") 1 (u "鲤鱼") Literal.float_0_5) _ _).
  - vm_compute. reflexivity.
  - intros t r f w. discriminate.
Defined.

Lemma fish_name_is_cut_to_ten_characters_witness :
  exists p0 content m,
    split1 SEP (u "10:00 : 鱼上钩了！鱼竿：1，鱼信息:【一二三四五六七八九十拾】2.5kg") =
      [p0; content] /\
    (search HOOK_PATTERN content = Some m \/ search CAPTURE_PATTERN content = Some m) /\
    let name := group m 2 in
    p_fish (PHook (u "10:00") 1 (u "一二三四五六七八九十") Literal.float_2_5) =
      firstn 10 name /\
    ((11 <= length name)%nat ->
     length (p_fish (PHook (u "10:00") 1 (u "一二三四五六七八九十") Literal.float_2_5)) =
       10%nat /\
     exists cut,
       name = p_fish (PHook (u "10:00") 1 (u "一二三四五六七八九十") Literal.float_2_5) ++ cut) /\
    ((length name <= 10)%nat ->
     p_fish (PHook (u "10:00") 1 (u "一二三四五六七八九十") Literal.float_2_5) = name).
Proof.
  apply (fish_name_is_cut_to_ten_characters
           (u "10:00 : 鱼上钩了！鱼竿：1，鱼信息:【一二三四五六七八九十拾】2.5kg")
           (PHook (u "10:00") 1 (u "一二三四五六七八九十") Literal.float_2_5)).
  - vm_compute. reflexivity.
  - intros t r f w. discriminate.
Defined.

Lemma cache_evicts_oldest_inserted_key_witness :
  exists tr,
    CacheHistory.run
      [CacheHistory.OpSet (u "a") []; CacheHistory.OpSet (u "b") [];
       CacheHistory.OpGet (u "a"); CacheHistory.OpSet (u "c") []]
      (CacheHistory.new 2) = Ret tr /\
    CacheHistory.run
      (filter (fun o => CacheHistory.is_set o = true)
         [CacheHistory.OpSet (u "a") []; CacheHistory.OpSet (u "b") [];
          CacheHistory.OpGet (u "a"); CacheHistory.OpSet (u "c") []])
      (CacheHistory.new 2) = Ret tr /\
    (Z.of_nat (length (RecordCache.cache (CacheHistory.state tr))) <= 2)%Z /\
    forall key v,
    exists c',
      RecordCache.set (CacheHistory.state tr) key v = Ret c' /\
      match CacheHistory.evicts (CacheHistory.state tr) with
      | Some k0 =>
        Z.of_nat (length (RecordCache.cache (CacheHistory.state tr))) = 2%Z /\
        is_Some (RecordCache.get (CacheHistory.state tr) k0) /\
        (forall k, is_Some (RecordCache.get (CacheHistory.state tr) k) -> k <> k0 ->
                   (CacheHistory.born tr k0 < CacheHistory.born tr k)%nat) /\
        (key <> k0 -> RecordCache.get c' k0 = None) /\
        (forall k, k <> k0 -> k <> key ->
                   RecordCache.get c' k = RecordCache.get (CacheHistory.state tr) k)
      | None =>
        (Z.of_nat (length (RecordCache.cache (CacheHistory.state tr))) < 2)%Z /\
        (forall k, k <> key ->
                   RecordCache.get c' k = RecordCache.get (CacheHistory.state tr) k)
      end.
Proof.
  apply (cache_evicts_oldest_inserted_key 2
           [CacheHistory.OpSet (u "a") []; CacheHistory.OpSet (u "b") [];
            CacheHistory.OpGet (u "a"); CacheHistory.OpSet (u "c") []]).
  lia.
Defined.

Lemma blank_text_parses_to_nothing_witness :
  parse_text [32; 10; 9; 12288] = Ret [].
Proof.
  apply (proj1 blank_text_parses_to_nothing [32; 10; 9; 12288]).
  repeat constructor.
Defined.

(** ** The cache is not an LRU

    With room for two entries, [a] and [b] are stored, [a] is read and
    [c] is stored: [a] goes, though [b] was used less recently. *)
Example read_key_is_still_evicted :
  exists c1 c2 c3,
    RecordCache.set (RecordCache.init 2) (u "a") [] = Ret c1 /\
    RecordCache.set c1 (u "b") [] = Ret c2 /\
    RecordCache.get c2 (u "a") = Some [] /\
    RecordCache.set c2 (u "c") [] = Ret c3 /\
    CacheHistory.keys (RecordCache.cache c3) = [u "b"; u "c"].
Proof. do 3 eexists. repeat split. Qed.

(** * More properties of the parser *)

Import FishingLogParser.

(** ** Stripping *)

Lemma lstrip_app_spaces (ws s : str) :
  Forall (fun c => is_space c = true) ws -> lstrip (ws ++ s) = lstrip s.
Proof.
  induction 1 as [|c ws Hc _ IH]; simpl; [reflexivity|]. rewrite Hc. exact IH.
Qed.

Lemma lstrip_split (s : str) :
  exists ws, s = ws ++ lstrip s /\ Forall (fun c => is_space c = true) ws /\
             match lstrip s with [] => True | c :: _ => is_space c = false end.
Proof.
  induction s as [|c s (ws & Hs & Hws & Hhd)]; simpl.
  - exists []. repeat split; constructor.
  - destruct (is_space c) eqn:Hc.
    + exists (c :: ws). split; [simpl; f_equal; exact Hs|]. split; [|exact Hhd].
      constructor; assumption.
    + exists []. repeat split; [constructor|exact Hc].
Qed.

Lemma lstrip_keeps (s : str) :
  match s with [] => True | c :: _ => is_space c = false end -> lstrip s = s.
Proof. destruct s as [|c s]; simpl; [reflexivity|]. intros ->. reflexivity. Qed.

(** [strip] takes whitespace from both ends and what it leaves is
    trimmed; only a trimmed middle can be what it leaves. *)
Lemma strip_split (s : str) :
  exists ws1 ws2,
    s = ws1 ++ strip s ++ ws2 /\
    Forall (fun c => is_space c = true) ws1 /\
    Forall (fun c => is_space c = true) ws2 /\
    trimmed (strip s).
Proof.
  unfold strip, rstrip.
  destruct (lstrip_split s) as (ws1 & Hs & Hws1 & Hhd).
  destruct (lstrip_split (rev (lstrip s))) as (ws & Hr & Hws & Hhd').
  set (a := lstrip s) in *. set (b := lstrip (rev a)) in *.
  assert (Ha : a = rev b ++ rev ws).
  { rewrite <- (rev_involutive a), Hr, rev_app_distr. reflexivity. }
  exists ws1, (rev ws). split; [rewrite <- Ha; exact Hs|]. split; [exact Hws1|].
  split; [apply Forall_rev, Hws|]. split.
  - destruct (rev b) as [|c t] eqn:Hb; [exact I|].
    rewrite Ha in Hhd. simpl in Hhd. exact Hhd.
  - rewrite rev_involutive. exact Hhd'.
Qed.

Lemma strip_middle (ws1 t ws2 : str) :
  Forall (fun c => is_space c = true) ws1 ->
  Forall (fun c => is_space c = true) ws2 ->
  trimmed t ->
  strip (ws1 ++ t ++ ws2) = t.
Proof.
  intros H1 H2 [Hhd Hlast]. unfold strip, rstrip.
  rewrite (lstrip_app_spaces _ _ H1).
  destruct t as [|c t].
  - simpl. rewrite (lstrip_spaces _ H2). reflexivity.
  - rewrite (lstrip_keeps ((c :: t) ++ ws2)) by exact Hhd.
    rewrite rev_app_distr, (lstrip_app_spaces (rev ws2)) by apply Forall_rev, H2.
    rewrite (lstrip_keeps (rev (c :: t))) by exact Hlast.
    apply rev_involutive.
Qed.

Lemma strip_idempotent (s : str) : strip (strip s) = strip s.
Proof.
  destruct (strip_split s) as (_ & _ & _ & _ & _ & Ht).
  pose proof (strip_middle [] (strip s) [] (List.Forall_nil _) (List.Forall_nil _) Ht) as H.
  rewrite app_nil_r in H. exact H.
Qed.

Lemma strip_padded (pad1 text pad2 : str) :
  Forall (fun c => is_space c = true) pad1 ->
  Forall (fun c => is_space c = true) pad2 ->
  strip (pad1 ++ text ++ pad2) = strip text.
Proof.
  intros H1 H2. destruct (strip_split text) as (ws1 & ws2 & Hs & Hw1 & Hw2 & Ht).
  rewrite Hs at 1.
  replace (pad1 ++ (ws1 ++ strip text ++ ws2) ++ pad2)
    with ((pad1 ++ ws1) ++ strip text ++ (ws2 ++ pad2))
    by (rewrite <- !app_assoc; reflexivity).
  apply strip_middle; [apply Forall_app; auto|apply Forall_app; auto|exact Ht].
Qed.

(** ** The shape of events and records *)

Lemma decimal_value_not_negative (s : str) : forall acc z,
  decimal_value acc s = Some z -> (0 <= acc)%Z -> (0 <= z)%Z.
Proof.
  induction s as [|c s IH]; simpl; intros acc z H Hacc.
  - injection H as <-. exact Hacc.
  - destruct (to_decimal c) as [d|] eqn:Hd; [|discriminate].
    apply to_decimal_range in Hd. apply (IH _ _ H). lia.
Qed.

Lemma py_int_not_negative (s : str) (z : Z) : py_int s = Ret z -> (0 <= z)%Z.
Proof.
  unfold py_int. destruct s as [|c s]; [discriminate|].
  destruct (_ <? _)%nat; [discriminate|].
  destruct (decimal_value 0 (c :: s)) as [v|] eqn:Hv; [|discriminate].
  intros [= <-]. apply (decimal_value_not_negative _ _ _ Hv). lia.
Qed.

Lemma firstn_not_nil {A} (n : nat) (l : list A) : l <> [] -> firstn (S n) l <> [].
Proof. destruct l; [contradiction|discriminate]. Qed.

Lemma dot_not_LF (s : str) :
  Forall (fun x => dot x = true) s -> Forall (fun x => x <> LF) s.
Proof.
  intros H. eapply Forall_impl; [exact H|]. intros x Hx ->. unfold dot in Hx.
  rewrite N.eqb_refl in Hx. discriminate.
Qed.

Lemma event_is_shaped (line : str) (p : parsed) :
  parse_line_fast line = Ret (Some p) -> event_shaped p.
Proof.
  intros H. pose proof (parse_line_fast_outcome line) as Ho. rewrite H in Ho.
  unfold event_shaped.
  inversion Ho as [| | | |p0 c m d name num unit r w _ _ Hf Hr _
                   | | | |p0 c m d name num unit xp secs bt r w e _ _ _ Hf Hr _ He
                   | |p0 c m d r _ _ _ _ Hf Hr]; subst; simpl.
  - destruct Hf as (_ & _ & Hn & _). apply to_decimal_range in Hr.
    split; [exact Hr|]. split; [apply firstn_not_nil, Hn|].
    split; [apply firstn_le_length|]. split; [apply strip_idempotent|exact I].
  - destruct Hf as (_ & _ & Hn & _ & _ & _ & _ & _ & _ & Hs & Hsd & Hb & Hbd & _).
    apply to_decimal_range in Hr.
    split; [exact Hr|]. split; [apply firstn_not_nil, Hn|].
    split; [apply firstn_le_length|]. split; [apply strip_idempotent|].
    split; [eapply py_int_not_negative; eauto|].
    split; [exists secs; auto|]. split; [exact Hb|apply dot_not_LF, Hbd].
  - apply to_decimal_range in Hr.
    split; [exact Hr|]. split; [discriminate|].
    split; [vm_compute; lia|]. split; [apply strip_idempotent|exact I].
Qed.

(** ** The sign of a weight *)

Lemma shr_1_not_negative (mrs : shr_record) :
  (0 <= shr_m mrs)%Z -> (0 <= shr_m (shr_1 mrs))%Z.
Proof.
  destruct mrs as [m r s]. simpl.
  destruct m as [|[p|p|]|[p|p|]]; simpl; lia.
Qed.

Lemma iter_shr_1_not_negative (p : positive) : forall mrs,
  (0 <= shr_m mrs)%Z -> (0 <= shr_m (SpecFloat.iter_pos shr_1 p mrs))%Z.
Proof.
  induction p as [p IH|p IH|]; intros mrs H; simpl.
  - apply IH, IH, shr_1_not_negative, H.
  - apply IH, IH, H.
  - apply shr_1_not_negative, H.
Qed.

Lemma shr_fexp_not_negative (m e : Z) (l : location) :
  (0 <= m)%Z -> (0 <= shr_m (fst (shr_fexp prec emax m e l)))%Z.
Proof.
  intros H. unfold shr_fexp, shr.
  assert (Hm : (0 <= shr_m (shr_record_of_loc m l))%Z)
    by (destruct l as [|[| |]]; exact H).
  destruct (_ - e)%Z; simpl; auto using iter_shr_1_not_negative.
Qed.

Lemma round_nearest_even_not_negative (m : Z) (l : location) :
  (0 <= m)%Z -> (0 <= round_nearest_even m l)%Z.
Proof.
  intros H. destruct l as [|[| |]]; simpl; try lia. destruct (Z.even m); lia.
Qed.

Lemma binary_round_aux_sign (s : bool) (m e : Z) (l : location) :
  (0 <= m)%Z -> not_negative (binary_round_aux prec emax s m e l) = negb s.
Proof.
  intros H. unfold binary_round_aux.
  pose proof (shr_fexp_not_negative m e l H) as H1.
  destruct (shr_fexp prec emax m e l) as [mrs1 e1]. simpl in H1.
  pose proof (shr_fexp_not_negative _ e1 loc_Exact
                (round_nearest_even_not_negative _ (loc_of_shr_record mrs1) H1)) as H2.
  destruct (shr_fexp prec emax _ e1 loc_Exact) as [mrs2 e2]. simpl in H2.
  destruct (shr_m mrs2) as [|q|q]; [reflexivity| |lia].
  destruct (_ <=? _)%Z; reflexivity.
Qed.

(** A quotient by a positive finite float has the sign of what is
    divided. *)
Lemma fdiv_not_negative (x : float) (my : positive) (ey : Z) :
  not_negative x = true -> not_negative (fdiv x (S754_finite false my ey)) = true.
Proof.
  destruct x as [s|s| |s mx ex]; simpl; try discriminate;
    try (rewrite xorb_false_r; auto; fail).
  intros Hs. unfold fdiv, SFdiv.
  destruct (SFdiv_core_binary prec emax (Z.pos mx) ex (Z.pos my) ey) as [[mz ez] lz] eqn:Hc.
  rewrite binary_round_aux_sign; [rewrite xorb_false_r; exact Hs|].
  unfold SFdiv_core_binary in Hc.
  match type of Hc with
  | (let '(q, r) := Z.div_eucl ?a ?b in _) = _ =>
    assert (Ha : (0 <= a)%Z);
      [|pose proof (Z_div_mod a b eq_refl) as Hd; destruct (Z.div_eucl a b) as [q r]]
  end.
  - destruct (_ - _ - _)%Z; try lia. apply Z.shiftl_nonneg. lia.
  - injection Hc as <- _ _. destruct Hd as [Hd Hr]. nia.
Qed.

Lemma float_ratio_not_negative (m d : Z) : not_negative (float_ratio m d) = true.
Proof.
  unfold float_ratio. destruct m as [|p|p]; try reflexivity.
  destruct d as [|q|q]; try reflexivity. apply fdiv_not_negative. reflexivity.
Qed.

Lemma py_float_not_negative (s : str) (x : float) :
  py_float s = Ret x -> not_negative x = true.
Proof.
  unfold py_float. destruct (decimal_literal s) as [[m k]|]; [|discriminate].
  intros [= <-]. apply float_ratio_not_negative.
Qed.

Lemma weight_of_not_negative (num unit : str) (w : float) :
  weight_of num unit w -> not_negative w = true.
Proof.
  intros (x & Hx & [[_ ->]|[_ ->]]); apply py_float_not_negative in Hx; [|exact Hx].
  change (float_of_Z 1000) with (S754_finite false 8796093022208000 (-43)).
  apply fdiv_not_negative, Hx.
Qed.

Lemma event_weight_not_negative (line : str) (p : parsed) :
  parse_line_fast line = Ret (Some p) -> not_negative (p_weight p) = true.
Proof.
  intros H. pose proof (parse_line_fast_outcome line) as Ho. rewrite H in Ho.
  inversion Ho; subst; simpl; eauto using weight_of_not_negative.
Qed.

(** * More properties of the pass *)

(** ** Records and lines *)

Lemma parse_step_tags (st st' : pass) (line : str) :
  parse_step st line = Ret st' ->
  map tag (records st') = map tag (records st) ++ omap finalizes [line].
Proof.
  intros H. unfold parse_step in H. cbn [omap list_omap].
  unfold finalizes, event_of.
  destruct (parse_line_fast line) as [[[t r f w|t r f w e c b|t r f w]|]|e];
    simpl in H; try discriminate.
  - injection H as <-. simpl. rewrite app_nil_r. reflexivity.
  - injection H as <-. simpl. rewrite map_app. reflexivity.
  - destruct (hook_cache st !! r); injection H as <-; simpl; rewrite map_app; reflexivity.
  - injection H as <-. simpl. rewrite app_nil_r. reflexivity.
Qed.

Lemma parse_lines_tags (lines : list str) : forall st st',
  parse_lines lines st = Ret st' ->
  map tag (records st') = map tag (records st) ++ omap finalizes lines.
Proof.
  induction lines as [|l lines IH]; intros st st' H; simpl in H.
  - injection H as <-. simpl. rewrite app_nil_r. reflexivity.
  - apply bind_ret in H as (st1 & H1 & H).
    rewrite (IH _ _ H), (parse_step_tags _ _ _ H1), <- app_assoc.
    f_equal. change (l :: lines) with ([l] ++ lines). rewrite omap_app. reflexivity.
Qed.

(** X1. The records of a finished pass are, in order, one for each
    Capture line and one for each Lost line of the text, of that type and
    with that slot; Hook lines and Unrecognized lines add none. *)
Theorem records_follow_the_finalizing_lines (text : str) (out : list FishingRecord) :
  parse_text text = Ret out ->
  map tag out = omap finalizes (splitlines (strip text)).
Proof.
  unfold parse_text. intros H. apply bind_ret in H as (st & H & [= <-]).
  apply parse_lines_tags in H. exact H.
Qed.

(** ** What holds of every record *)

Section Invariant.

Variable P : parsed -> Prop.
Variable Q : FishingRecord -> Prop.

Hypothesis events : forall line p, parse_line_fast line = Ret (Some p) -> P p.
Hypothesis captured : forall t r f w e c b,
  P (PCapture t r f w e c b) ->
  Q {| record_type := u "capture"; time := t; rod := r; fish := f;
       weight := w; exp := e; cost := c; bait := b |}.
Hypothesis lost_pending : forall t r f w p,
  P (PLost t r f w) -> P p ->
  Q {| record_type := u "lost"; time := p_time p; rod := r; fish := p_fish p;
       weight := p_weight p; exp := 0; cost := []; bait := u "脱钩" |}.
Hypothesis lost_alone : forall t r f w,
  P (PLost t r f w) ->
  Q {| record_type := u "lost"; time := t; rod := r; fish := u "？";
       weight := float_zero; exp := 0; cost := []; bait := u "脱钩" |}.

Lemma parse_step_invariant (st st' : pass) (line : str) :
  parse_step st line = Ret st' ->
  Forall Q (records st) -> map_Forall (fun _ p => P p) (hook_cache st) ->
  Forall Q (records st') /\ map_Forall (fun _ p => P p) (hook_cache st').
Proof.
  unfold parse_step. intros H HQ HP.
  destruct (parse_line_fast line) as [[p|]|e] eqn:Hl; simpl in H; try discriminate.
  - pose proof (events _ _ Hl) as Hp.
    destruct p as [t r f w|t r f w e c b|t r f w].
    + injection H as <-. simpl. split; [exact HQ|]. apply map_Forall_insert_2; assumption.
    + injection H as <-. simpl. split; [|apply map_Forall_delete, HP].
      apply Forall_app. split; [exact HQ|]. constructor; [|constructor]. auto.
    + destruct (hook_cache st !! r) as [h|] eqn:Hh; injection H as <-; simpl;
        (split; [|apply map_Forall_delete, HP]);
        (apply Forall_app; split; [exact HQ|]; constructor; [|constructor]); eauto.
  - injection H as <-. auto.
Qed.

Lemma parse_lines_invariant (lines : list str) : forall st st',
  parse_lines lines st = Ret st' ->
  Forall Q (records st) -> map_Forall (fun _ p => P p) (hook_cache st) ->
  Forall Q (records st') /\ map_Forall (fun _ p => P p) (hook_cache st').
Proof.
  induction lines as [|l lines IH]; intros st st' H HQ HP; simpl in H.
  - injection H as <-. auto.
  - apply bind_ret in H as (st1 & H1 & H).
    destruct (parse_step_invariant _ _ _ H1 HQ HP) as [HQ1 HP1]. eauto.
Qed.

Lemma parse_text_invariant (text : str) (out : list FishingRecord) :
  parse_text text = Ret out -> Forall Q out.
Proof.
  unfold parse_text. intros H. apply bind_ret in H as (st & H & [= <-]).
  apply (parse_lines_invariant _ _ _ H); [constructor|apply map_Forall_empty].
Qed.

End Invariant.

(** X2. Every record of a finished pass has a slot from 0 to 9, a fish
    name of one to ten characters and a time without whitespace at its
    ends. A capture record has experience that is not negative, a cost
    made of decimal digits followed by 秒 and a bait text that is not
    empty; a lost record has experience 0, an empty cost and the bait
    text 脱钩. *)
Theorem parsed_records_are_well_formed (text : str) (out : list FishingRecord) :
  parse_text text = Ret out -> Forall well_formed out.
Proof.
  apply (parse_text_invariant event_shaped).
  - exact event_is_shaped.
  - intros t r f w e c b (Hr & Hf & Hl & Ht & He & Hc & Hb & Hbl).
    unfold well_formed, capture_shaped. simpl in *.
    repeat (split; [assumption|]). left. repeat (split; [trivial|]). exact Hbl.
  - intros t r f w p (Hr & _) (_ & Hf & Hl & Ht & _).
    unfold well_formed, lost_shaped. simpl in *.
    repeat (split; [assumption|]). right. repeat (split; [reflexivity|]). reflexivity.
  - intros t r f w (Hr & _ & _ & Ht & _).
    unfold well_formed, lost_shaped. simpl in *.
    split; [exact Hr|]. split; [discriminate|]. split; [vm_compute; lia|].
    split; [exact Ht|]. right. repeat (split; [reflexivity|]). reflexivity.
Qed.

Lemma parse_text_weights (text : str) (out : list FishingRecord) :
  parse_text text = Ret out ->
  Forall (fun rec => not_negative (weight rec) = true) out.
Proof.
  apply (parse_text_invariant (fun p => not_negative (p_weight p) = true)).
  - exact event_weight_not_negative.
  - intros t r f w e c b H. exact H.
  - intros t r f w p _ H. exact H.
  - intros t r f w _. reflexivity.
Qed.

(** X3. No record of a finished pass has a negative weight or a NaN for
    its weight: the weight is a zero, a finite float or an infinity with
    the sign bit clear. *)
Theorem parsed_weights_are_not_negative (text : str) (out : list FishingRecord) :
  parse_text text = Ret out ->
  Forall (fun rec => not_negative (weight rec) = true) out.
Proof.
  intros H.
  refine (parse_text_invariant (fun p => not_negative (p_weight p) = true) _
                               event_weight_not_negative _ _ _ text out H).
  - intros t r f w e c b Hw. exact Hw.
  - intros t r f w p _ Hw. exact Hw.
  - intros t r f w _. reflexivity.
Qed.

(** ** One slot at a time *)

Lemma parse_step_of_rod (r : Z) (st1 st1' st2 : pass) (line : str) :
  parse_step st1 line = Ret st1' ->
  records st2 = List.filter (rod_is r) (records st1) ->
  hook_cache st2 !! r = hook_cache st1 !! r ->
  exists st2',
    parse_lines (List.filter (of_rod r) [line]) st2 = Ret st2' /\
    records st2' = List.filter (rod_is r) (records st1') /\
    hook_cache st2' !! r = hook_cache st1' !! r.
Proof.
  intros H Hrec Hc. cbn [List.filter]. unfold of_rod, event_of.
  unfold parse_step in H.
  destruct (parse_line_fast line) as [[p|]|e] eqn:Hl; simpl in H; try discriminate.
  2:{ injection H as <-. exists st2. auto. }
  destruct (Z.eqb_spec (p_rod p) r) as [Hr|Hr].
  - assert (Hin : forall rec, rod rec = r -> List.filter (rod_is r) [rec] = [rec]).
    { intros rec Hk. simpl. unfold rod_is. rewrite Hk, Z.eqb_refl. reflexivity. }
    cbn [parse_lines]. unfold parse_step. rewrite Hl. cbn [bind].
    destruct p as [t k f w|t k f w e c b|t k f w]; simpl in Hr; subst k.
    + injection H as <-. eexists. split; [reflexivity|]. simpl.
      rewrite !lookup_insert_eq. auto.
    + injection H as <-. eexists. split; [reflexivity|]. simpl.
      rewrite !lookup_delete_eq, List.filter_app, Hrec, Hin by reflexivity. auto.
    + rewrite Hc. destruct (hook_cache st1 !! r); injection H as <-;
        (eexists; split; [reflexivity|]); simpl;
        rewrite !lookup_delete_eq, List.filter_app, Hrec, Hin by reflexivity; auto.
  - exists st2. split; [reflexivity|].
    assert (Hne : forall rec, rod rec = p_rod p -> List.filter (rod_is r) [rec] = []).
    { intros rec Hk. simpl. unfold rod_is. rewrite Hk.
      destruct (Z.eqb_spec (p_rod p) r); [contradiction|reflexivity]. }
    destruct p as [t k f w|t k f w e c b|t k f w]; simpl in Hr.
    + injection H as <-. simpl. rewrite lookup_insert_ne by exact Hr. auto.
    + injection H as <-. simpl. rewrite lookup_delete_ne by exact Hr.
      rewrite List.filter_app, Hne, app_nil_r by reflexivity. auto.
    + destruct (hook_cache st1 !! k); injection H as <-; simpl;
        rewrite lookup_delete_ne by exact Hr;
        rewrite List.filter_app, Hne, app_nil_r by reflexivity; auto.
Qed.

Lemma parse_lines_of_rod (r : Z) (lines : list str) : forall st1 st1' st2,
  parse_lines lines st1 = Ret st1' ->
  records st2 = List.filter (rod_is r) (records st1) ->
  hook_cache st2 !! r = hook_cache st1 !! r ->
  exists st2',
    parse_lines (List.filter (of_rod r) lines) st2 = Ret st2' /\
    records st2' = List.filter (rod_is r) (records st1') /\
    hook_cache st2' !! r = hook_cache st1' !! r.
Proof.
  induction lines as [|l lines IH]; intros st1 st1' st2 H Hrec Hc; simpl in H.
  - injection H as <-. exists st2. auto.
  - apply bind_ret in H as (st & H1 & H).
    destruct (parse_step_of_rod r _ _ _ _ H1 Hrec Hc) as (sta & Ha & Hreca & Hca).
    destruct (IH _ _ _ H Hreca Hca) as (stb & Hb & Hrecb & Hcb).
    exists stb. split; [|auto].
    change (l :: lines) with ([l] ++ lines).
    rewrite List.filter_app, parse_lines_app, Ha. exact Hb.
Qed.

(** X5. The slots do not interfere: a text whose lines are the events of
    one slot of another text, in the same order, parses to the records
    of that slot that the other text parses to. *)
Theorem slots_are_parsed_independently (r : Z) (text text' : str)
        (out : list FishingRecord) :
  parse_text text = Ret out ->
  splitlines (strip text') = List.filter (of_rod r) (splitlines (strip text)) ->
  parse_text text' = Ret (List.filter (rod_is r) out).
Proof.
  unfold parse_text. intros H Hl. apply bind_ret in H as (st & H & [= <-]).
  destruct (parse_lines_of_rod r _ _ _ start H eq_refl eq_refl) as (st' & H' & Hrec & _).
  rewrite Hl, H'. simpl. rewrite Hrec. reflexivity.
Qed.

(** ** The record of a Lost line *)

Lemma last_event_app (r : Z) (seen : option parsed) (l1 l2 : list str) :
  last_event r seen (l1 ++ l2) = last_event r (last_event r seen l1) l2.
Proof. apply fold_left_app. Qed.

Lemma parse_step_pending (r : Z) (seen : option parsed) (st st' : pass) (line : str) :
  parse_step st line = Ret st' ->
  hook_cache st !! r = pending_of seen ->
  hook_cache st' !! r = pending_of (last_event r seen [line]).
Proof.
  intros H Hc. unfold last_event, event_of. cbn [fold_left].
  unfold parse_step in H.
  destruct (parse_line_fast line) as [[p|]|e] eqn:Hl; simpl in H; try discriminate.
  2:{ injection H as <-. exact Hc. }
  destruct (Z.eqb_spec (p_rod p) r) as [Hr|Hr].
  - destruct p as [t k f w|t k f w e c b|t k f w]; simpl in Hr; subst k.
    + injection H as <-. simpl. apply lookup_insert_eq.
    + injection H as <-. simpl. apply lookup_delete_eq.
    + destruct (hook_cache st !! r); injection H as <-; simpl; apply lookup_delete_eq.
  - rewrite <- Hc.
    destruct p as [t k f w|t k f w e c b|t k f w]; simpl in Hr.
    + injection H as <-. simpl. apply lookup_insert_ne, Hr.
    + injection H as <-. simpl. apply lookup_delete_ne, Hr.
    + destruct (hook_cache st !! k); injection H as <-; simpl; apply lookup_delete_ne, Hr.
Qed.

Lemma parse_lines_pending (r : Z) (lines : list str) : forall seen st st',
  parse_lines lines st = Ret st' ->
  hook_cache st !! r = pending_of seen ->
  hook_cache st' !! r = pending_of (last_event r seen lines).
Proof.
  induction lines as [|l lines IH]; intros seen st st' H Hc; simpl in H.
  - injection H as <-. exact Hc.
  - apply bind_ret in H as (st1 & H1 & H).
    change (l :: lines) with ([l] ++ lines). rewrite last_event_app.
    apply (IH _ _ _ H). apply (parse_step_pending _ _ _ _ _ H1 Hc).
Qed.

Lemma parse_step_lost (st : pass) (line t f : str) (r : Z) (w : float)
      (last : option parsed) :
  parse_line_fast line = Ret (Some (PLost t r f w)) ->
  hook_cache st !! r = pending_of last ->
  exists st', parse_step st line = Ret st' /\
              records st' = records st ++ [lost_record r t last].
Proof.
  intros Hl Hc. unfold parse_step. rewrite Hl. cbn [bind]. rewrite Hc.
  destruct last as [[th kh fh wh|th kh fh wh eh ch bh|th kh fh wh]|]; simpl;
    eexists; split; reflexivity.
Qed.

(** X6. The record a Lost line adds is decided by the last event of its
    slot among the lines before it: after a Hook line it carries the
    time, the fish and the weight of that hook; after a Capture line,
    after a Lost line, and when the slot has no event before it, it
    carries the time of the Lost line, the fish ？ and the weight 0. The
    record stands in the output after one record for each Capture and
    Lost line before it. *)
Theorem lost_line_takes_the_last_event_of_its_slot
        (text : str) (before after : list str) (line t f : str) (r : Z) (w : float)
        (out : list FishingRecord) :
  splitlines (strip text) = before ++ line :: after ->
  parse_line_fast line = Ret (Some (PLost t r f w)) ->
  parse_text text = Ret out ->
  nth_error out (length (omap finalizes before)) =
  Some (lost_record r t (last_event r None before)).
Proof.
  unfold parse_text. intros Hs Hl H. rewrite Hs, parse_lines_app in H.
  apply bind_ret in H as (st & H & [= <-]).
  apply bind_ret in H as (st1 & H1 & H). simpl in H.
  apply bind_ret in H as (st2 & H2 & H).
  pose proof (parse_lines_pending r _ None _ _ H1 (lookup_empty r)) as Hc.
  destruct (parse_step_lost _ _ _ _ _ _ _ Hl Hc) as (st2' & H2' & Hrec).
  rewrite H2 in H2'. injection H2' as <-.
  apply parse_lines_records in H as [later ->].
  pose proof (parse_lines_tags _ _ _ H1) as Htags. simpl in Htags.
  apply (f_equal (@length _)) in Htags. rewrite length_map in Htags.
  rewrite Hrec, <- Htags, <- app_assoc.
  rewrite nth_error_app2 by lia. rewrite Nat.sub_diag. reflexivity.
Qed.

(** ** Whitespace around the text *)

(** X7. Whitespace put before and after a text (spaces, tabs, line
    breaks, blank lines) changes nothing of what the text parses to,
    records or exception. *)
Theorem padding_is_ignored (pad1 text pad2 : str) :
  Forall (fun c => is_space c = true) pad1 ->
  Forall (fun c => is_space c = true) pad2 ->
  parse_text (pad1 ++ text ++ pad2) = parse_text text.
Proof.
  intros H1 H2. unfold parse_text. rewrite strip_padded by assumption. reflexivity.
Qed.

(** ** The pending hooks *)

Lemma parse_step_hooks (st st' : pass) (line : str) :
  parse_step st line = Ret st' ->
  map_Forall (fun r p => exists t f w, p = PHook t r f w /\ (0 <= r <= 9)%Z)
             (hook_cache st) ->
  map_Forall (fun r p => exists t f w, p = PHook t r f w /\ (0 <= r <= 9)%Z)
             (hook_cache st').
Proof.
  unfold parse_step. intros H Hc.
  destruct (parse_line_fast line) as [[p|]|e] eqn:Hl; simpl in H; try discriminate.
  - destruct (event_is_shaped _ _ Hl) as [Hr _].
    destruct p as [t r f w|t r f w e c b|t r f w]; simpl in Hr.
    + injection H as <-. simpl. apply map_Forall_insert_2; eauto.
    + injection H as <-. simpl. apply map_Forall_delete, Hc.
    + destruct (hook_cache st !! r); injection H as <-; simpl;
        apply map_Forall_delete, Hc.
  - injection H as <-. exact Hc.
Qed.

Lemma parse_lines_hooks (lines : list str) : forall st st',
  parse_lines lines st = Ret st' ->
  map_Forall (fun r p => exists t f w, p = PHook t r f w /\ (0 <= r <= 9)%Z)
             (hook_cache st) ->
  map_Forall (fun r p => exists t f w, p = PHook t r f w /\ (0 <= r <= 9)%Z)
             (hook_cache st').
Proof.
  induction lines as [|l lines IH]; intros st st' H Hc; simpl in H.
  - injection H as <-. exact Hc.
  - apply bind_ret in H as (st1 & H1 & H). eauto using parse_step_hooks.
Qed.

(** X4. However long the text, the pass holds at most ten pending hooks
    at a time, one for each slot from 0 to 9, and what it holds for a
    slot is a Hook event of that slot. *)
Theorem pending_hooks_are_bounded (lines : list str) (st : pass) :
  parse_lines lines start = Ret st ->
  (size (hook_cache st) <= 10)%nat /\
  forall r p, hook_cache st !! r = Some p ->
              (0 <= r <= 9)%Z /\ exists t f w, p = PHook t r f w.
Proof.
  intros H. apply parse_lines_hooks in H; [|apply map_Forall_empty].
  split.
  - rewrite <- size_dom.
    replace 10%nat with (size (list_to_set (C := gset Z) (seqZ 0 10))).
    + apply subseteq_size. intros r Hr. apply elem_of_dom in Hr as [p Hp].
      destruct (H _ _ Hp) as (_ & _ & _ & _ & Hr).
      apply elem_of_list_to_set, elem_of_seqZ. lia.
    + rewrite size_list_to_set by apply NoDup_seqZ. apply length_seqZ.
  - intros r p Hp. destruct (H _ _ Hp) as (t & f & w & -> & Hr). eauto.
Qed.

(** * More properties of the cache *)

Lemma set_inv (c c' : t) (key : str) (v : list FishingRecord) :
  set c key v = Ret c' ->
  exists d, c' = {| max_size := max_size c; cache := dict_set key v d |} /\
            match evicts c with
            | Some k0 => exists v0, cache c = (k0, v0) :: d
            | None => d = cache c
            end.
Proof.
  unfold set, evicts.
  destruct (max_size c <=? Z.of_nat (length (cache c)))%Z.
  - destruct (cache c) as [|[k0 v0] d]; simpl; [discriminate|].
    rewrite str_eqb_refl. intros [= <-]. eauto.
  - simpl. intros [= <-]. eauto.
Qed.

(** X8. What [set] stored under a key is what [get] returns for that
    key right after, whether or not the call had to make room; the
    capacity stays as it was. *)
Theorem set_then_get (c c' : t) (key : str) (v : list FishingRecord) :
  set c key v = Ret c' ->
  get c' key = Some v /\ max_size c' = max_size c.
Proof.
  intros H. apply set_inv in H as (d & -> & _). unfold get. simpl.
  rewrite dict_get_set, str_eqb_refl. auto.
Qed.

Lemma run_without_capacity (m : Z) (ops : list op) : forall tr,
  (max_size (state tr) <= 0)%Z -> cache (state tr) = [] ->
  existsb is_set ops = true ->
  run ops tr = Raise StopIteration.
Proof.
  induction ops as [|o ops IH]; intros tr Hm Hc Hs; simpl in Hs; [discriminate|].
  destruct o as [key v|key]; simpl.
  - unfold set. rewrite Hc. simpl.
    assert (E : (max_size (state tr) <=? Z.of_nat 0)%Z = true) by (apply Z.leb_le, Hm).
    rewrite E. reflexivity.
  - apply IH; assumption.
Qed.

(** X9. The only failure of [set] is [StopIteration], on an empty cache
    whose capacity is zero or negative, where there is no first key to
    delete. A cache created with such a capacity stores nothing: the
    first [set] of any history raises. *)
Theorem set_raises_without_capacity :
  (forall (c : t) (key : str) (v : list FishingRecord) (e : exn),
      set c key v = Raise e <->
      e = StopIteration /\ cache c = [] /\ (max_size c <= 0)%Z) /\
  (forall (m : Z) (ops : list op),
      (m <= 0)%Z -> existsb is_set ops = true ->
      run ops (new m) = Raise StopIteration).
Proof.
  split.
  - intros c key v e. unfold set. split.
    + destruct (Z.leb_spec (max_size c) (Z.of_nat (length (cache c)))) as [Hle|Hlt];
        [|discriminate].
      destruct (cache c) as [|[k0 v0] d]; simpl; [|discriminate].
      intros [= <-]. simpl in Hle. auto.
    + intros (-> & -> & Hm). simpl.
      assert (E : (max_size c <=? Z.of_nat 0)%Z = true) by (apply Z.leb_le, Hm).
      rewrite E. reflexivity.
  - intros m ops Hm Hs. apply (run_without_capacity m); auto.
Qed.

Lemma dict_set_length (key : str) (v : list FishingRecord) (d : dict) :
  length (dict_set key v d) =
  match dict_get key d with
  | Some _ => length d
  | None => S (length d)
  end.
Proof.
  rewrite <- !keys_length, dict_set_keys.
  destruct (dict_get key d); [reflexivity|]. rewrite length_app. simpl. lia.
Qed.

(** X10. How many entries the cache holds after [set]: one more when
    there was room and the key is new, as many when there was room and
    the key was present. On a full cache the first key is deleted before
    the assignment, so a new key, or the first key itself, leaves the
    number as it was, and assigning to any other key that is present
    leaves the cache one entry short of full. *)
Theorem size_after_set (c c' : t) (key : str) (v : list FishingRecord) :
  NoDup (keys (cache c)) ->
  set c key v = Ret c' ->
  length (cache c') =
  match evicts c, get c key with
  | None, None => S (length (cache c))
  | None, Some _ => length (cache c)
  | Some k0, None => length (cache c)
  | Some k0, Some _ =>
    if str_eqb k0 key then length (cache c) else pred (length (cache c))
  end.
Proof.
  intros Hnd H. apply set_inv in H as (d & -> & Hd). unfold get. simpl.
  rewrite dict_set_length.
  destruct (evicts c) as [k0|].
  - destruct Hd as [v0 Hc]. rewrite Hc in Hnd |- *. cbn [dict_get length].
    cbn [keys List.map fst] in Hnd. apply NoDup_cons in Hnd as [Hk0 _].
    destruct (str_eqb k0 key) eqn:E.
    + apply str_eqb_eq in E. subst key.
      replace (dict_get k0 d) with (@None (list FishingRecord)); [reflexivity|].
      symmetry. apply dict_get_none. intros Hin. apply Hk0, list_elem_of_In, Hin.
    + destruct (dict_get key d); reflexivity.
  - subst d. destruct (dict_get key (cache c)); reflexivity.
Qed.

(** * The window *)

(** ** Sorting *)

Section SortFacts.

Context {A : Type}.
Variable key_lt : A -> A -> bool.

(** The keys that the comparison orders: no two of them are each less
    than the other, and one that is neither less nor greater than a
    second stands to any third as the second does. *)
Variable P : A -> Prop.
Hypothesis asym : forall a b, P a -> P b -> key_lt a b = true -> key_lt b a = false.
Hypothesis trans : forall a b c, P a -> P b -> P c ->
  key_lt a c = true -> key_lt a b = true \/ key_lt b c = true.

Lemma insert_perm (reverse : bool) (x : A) (l : list A) :
  Permutation (insert key_lt reverse x l) (x :: l).
Proof.
  induction l as [|y l IH]; simpl; [reflexivity|].
  destruct (before key_lt reverse y x); [|reflexivity].
  rewrite IH. apply perm_swap.
Qed.

Lemma py_sort_perm (reverse : bool) (l : list A) :
  Permutation (py_sort key_lt reverse l) l.
Proof.
  induction l as [|x l IH]; simpl; [reflexivity|].
  rewrite insert_perm, IH. reflexivity.
Qed.

Lemma before_asym (reverse : bool) (a b : A) :
  P a -> P b -> before key_lt reverse a b = true -> before key_lt reverse b a = false.
Proof. destruct reverse; simpl; auto. Qed.

Lemma before_trans (reverse : bool) (a b c : A) :
  P a -> P b -> P c ->
  before key_lt reverse a c = true ->
  before key_lt reverse a b = true \/ before key_lt reverse b c = true.
Proof.
  destruct reverse; simpl; intros Ha Hb Hc H; [|auto].
  destruct (trans c b a Hc Hb Ha H); auto.
Qed.

Lemma insert_sorted (reverse : bool) (x : A) (l : list A) :
  P x -> Forall P l ->
  StronglySorted (fun a b => before key_lt reverse b a = false) l ->
  StronglySorted (fun a b => before key_lt reverse b a = false)
                 (insert key_lt reverse x l).
Proof.
  intros Hx Hl Hs. induction Hs as [|y l Hs IH Hy]; simpl.
  - constructor; constructor.
  - apply Forall_cons in Hl as [Hpy Hl].
    destruct (before key_lt reverse y x) eqn:E.
    + constructor; [apply IH, Hl|].
      rewrite (insert_perm reverse x l). constructor; [|exact Hy].
      apply before_asym; assumption.
    + constructor; [constructor; assumption|].
      constructor; [exact E|].
      rewrite Forall_forall in Hy, Hl |- *. intros z Hz.
      destruct (before key_lt reverse z x) eqn:E'; [|reflexivity].
      destruct (before_trans reverse z y x (Hl z Hz) Hpy Hx E') as [H|H].
      * rewrite (Hy z Hz) in H. discriminate.
      * congruence.
Qed.

Lemma py_sort_sorted (reverse : bool) (l : list A) :
  Forall P l ->
  StronglySorted (fun a b => before key_lt reverse b a = false)
                 (py_sort key_lt reverse l).
Proof.
  induction 1 as [|x l Hx Hl IH]; simpl; [constructor|].
  apply insert_sorted; [exact Hx| |exact IH].
  rewrite (py_sort_perm reverse l). exact Hl.
Qed.

Lemma same_key_before (reverse : bool) (k x y : A) :
  P k -> P x -> P y ->
  same_key key_lt k x = true -> same_key key_lt k y = true ->
  before key_lt reverse y x = false.
Proof.
  unfold same_key. intros Hk Hx Hy Hkx Hky.
  apply andb_prop in Hkx as [H1 H2]. apply andb_prop in Hky as [H3 H4].
  apply negb_true_iff in H1, H2, H3, H4.
  destruct (before key_lt reverse y x) eqn:E; [|reflexivity].
  destruct reverse; simpl in E.
  - destruct (trans x k y Hx Hk Hy E); congruence.
  - destruct (trans y k x Hy Hk Hx E); congruence.
Qed.

Lemma insert_stable (reverse : bool) (k x : A) (l : list A) :
  P k -> P x -> Forall P l ->
  List.filter (same_key key_lt k) (insert key_lt reverse x l) =
  List.filter (same_key key_lt k) (x :: l).
Proof.
  intros Hk Hx Hl. induction Hl as [|y l Hy Hl IH]; [reflexivity|].
  cbn [insert]. destruct (before key_lt reverse y x) eqn:E; [|reflexivity].
  cbn [List.filter] in IH |- *. rewrite IH.
  destruct (same_key key_lt k y) eqn:Ey; [|reflexivity].
  destruct (same_key key_lt k x) eqn:Ex; [|reflexivity].
  rewrite (same_key_before reverse k x y) in E by assumption. discriminate.
Qed.

Lemma py_sort_stable (reverse : bool) (k : A) (l : list A) :
  P k -> Forall P l ->
  List.filter (same_key key_lt k) (py_sort key_lt reverse l) =
  List.filter (same_key key_lt k) l.
Proof.
  intros Hk. induction 1 as [|x l Hx Hl IH]; [reflexivity|].
  cbn [py_sort fold_right]. fold (py_sort key_lt reverse l).
  rewrite insert_stable; [|exact Hk|exact Hx|].
  - cbn [List.filter]. rewrite IH. reflexivity.
  - rewrite (py_sort_perm reverse l). exact Hl.
Qed.

End SortFacts.

(** ** The order of floats *)

Lemma flt_key (x y : float) :
  is_nan x = false -> is_nan y = false ->
  flt x y = true <-> key_before (fkey x) (fkey y).
Proof.
  unfold flt, SFltb.
  destruct x as [sx|sx| |sx mx ex], y as [sy|sy| |sy my ey]; try discriminate;
    intros _ _; try destruct sx; try destruct sy; simpl;
    try (split; [discriminate|lia]); try (split; [lia|reflexivity]).
  - destruct (Z.compare_spec ex ey) as [->|H|H]; simpl.
    + change (Pos.compare_cont Eq mx my) with (mx ?= my)%positive.
      destruct (Pos.compare_spec mx my) as [->|H|H]; simpl;
        (split; [try discriminate; lia|try reflexivity; lia]).
    + split; [discriminate|lia].
    + split; [lia|reflexivity].
  - destruct (Z.compare_spec ex ey) as [->|H|H]; simpl.
    + change (Pos.compare_cont Eq mx my) with (mx ?= my)%positive.
      destruct (Pos.compare_spec mx my) as [->|H|H]; simpl;
        (split; [try discriminate; lia|try reflexivity; lia]).
    + split; [lia|reflexivity].
    + split; [discriminate|lia].
Qed.

Lemma flt_asym (x y : float) :
  is_nan x = false -> is_nan y = false -> flt x y = true -> flt y x = false.
Proof.
  intros Hx Hy H. apply (flt_key _ _ Hx Hy) in H.
  destruct (flt y x) eqn:E; [|reflexivity].
  apply (flt_key _ _ Hy Hx) in E. unfold key_before in *.
  destruct (fkey x) as [[? ?] ?], (fkey y) as [[? ?] ?]. lia.
Qed.

Lemma flt_trans (x y z : float) :
  is_nan x = false -> is_nan y = false -> is_nan z = false ->
  flt x z = true -> flt x y = true \/ flt y z = true.
Proof.
  intros Hx Hy Hz H. apply (flt_key _ _ Hx Hz) in H.
  rewrite (flt_key _ _ Hx Hy), (flt_key _ _ Hy Hz). unfold key_before in *.
  destruct (fkey x) as [[? ?] ?], (fkey y) as [[? ?] ?], (fkey z) as [[? ?] ?]. lia.
Qed.

(** ** The state behind the window *)

Import AnalyzerWindow.

Lemma rod_in_In (r : Z) (selected : list Z) : rod_in r selected = true <-> In r selected.
Proof.
  unfold rod_in. rewrite existsb_exists. split.
  - intros (x & Hx & E). apply Z.eqb_eq in E. subst. exact Hx.
  - intros H. exists r. split; [exact H|apply Z.eqb_refl].
Qed.

Lemma selected_rods_known (st : app) (r : Z) :
  In r (get_selected_rods st) -> In r (List.map fst (rod_vars st)).
Proof.
  unfold get_selected_rods. rewrite !in_map_iff.
  intros (x & Hx & Hin). apply filter_In in Hin as [Hin _]. eauto.
Qed.

(** The rows that [_render_data] draws. *)
Lemma render_rows (st : app) :
  exists t h,
    _render_data st = set_header_shown h (set_table_container t st) /\
    Forall (fun w => match w with
                     | TableRow _ _ =>
                       exists rec, In rec (current_records st) /\
                                   In (rod rec) (List.map fst (rod_vars st)) /\
                                   w = row_of rec
                     | _ => True
                     end) t.
Proof.
  unfold _render_data. cbv zeta.
  destruct (get_selected_rods (clear_table st)) as [|r0 sel] eqn:Hsel.
  - exists [MessageLabel (u "请至少选择一个鱼竿")], (header_shown st).
    split; [reflexivity|]. constructor; [exact I|constructor].
  - exists (List.map row_of
              (List.filter (fun record => rod_in (rod record) (r0 :: sel))
                           (current_records st))),
           (if negb (view_eqb (current_view st) SUMMARY) then true else header_shown st).
    split.
    + change (current_view (clear_table st)) with (current_view st).
      destruct (negb (view_eqb (current_view st) SUMMARY)); reflexivity.
    + apply Forall_forall. intros w Hw. apply list_elem_of_In, in_map_iff in Hw
        as (rec & <- & Hin).
      apply filter_In in Hin as [Hin Hr].
      apply rod_in_In in Hr. rewrite <- Hsel in Hr.
      apply (selected_rods_known (clear_table st)) in Hr.
      unfold row_of. destruct (is_lost rec) eqn:E; exists rec;
        unfold row_of; rewrite E; tauto.
Qed.

Lemma consistent_render (st : app) :
  current_view st <> SUMMARY -> consistent st -> consistent (_render_data st).
Proof.
  intros Hv (Hd & Hl & Hs & Hr & _).
  destruct (render_rows st) as (t & h & -> & Ht).
  split; [exact Hd|]. split; [exact Hl|]. split; [exact Hs|]. split; [exact Hr|].
  simpl. eapply Forall_impl; [exact Ht|]. intros [v b| | | | |]; simpl; auto.
  intros (rec & Hin & Hrod & E). exists rec. split; [|split; [|exact E]].
  - destruct (current_view st) eqn:Ev; [contradiction| |].
    + apply (Permutation_in _ (Hd eq_refl)), filter_In in Hin. tauto.
    + apply (Permutation_in _ (Hl eq_refl)), filter_In in Hin. tauto.
  - rewrite Hr in Hrod. simpl in Hrod. lia.
Qed.

(** Sorting the records on display keeps the state consistent. *)
Lemma consistent_sorted (st : app) (l : list FishingRecord) :
  Permutation l (current_records st) -> consistent st ->
  consistent (set_current_records l st).
Proof.
  intros Hp (Hd & Hl & Hs & Hr & Ht).
  split; [|split; [|auto]]; simpl; intros Hv; rewrite Hp; auto.
Qed.

Lemma consistent_apply_current_sort (st : app) :
  consistent st -> consistent (_apply_current_sort st).
Proof.
  intros H. unfold _apply_current_sort.
  destruct (is_nil (current_records st) || view_eqb (current_view st) SUMMARY) eqn:E;
    [exact H|].
  apply orb_false_iff in E as [_ Ev].
  assert (Hv : current_view st <> SUMMARY) by (intros Hv; rewrite Hv in Ev; discriminate).
  cbv zeta. apply consistent_render.
  - destruct (sort_state st WEIGHT); [exact Hv|].
    destruct (view_eqb (current_view st) DETAIL && sort_state st EXP); exact Hv.
  - destruct (sort_state st WEIGHT); [apply consistent_sorted, H; apply py_sort_perm|].
    destruct (view_eqb (current_view st) DETAIL && sort_state st EXP);
      [apply consistent_sorted, H; apply py_sort_perm|exact H].
Qed.

Lemma consistent_show_detail (st : app) : consistent st -> consistent (show_detail st).
Proof.
  intros H. unfold show_detail. destruct (is_nil (all_records st)); [exact H|].
  cbv zeta. apply consistent_apply_current_sort.
  destruct H as (_ & _ & Hs & Hr & Ht).
  split; [reflexivity|]. split; [discriminate|]. auto.
Qed.

Lemma consistent_show_lost (st : app) : consistent st -> consistent (show_lost st).
Proof.
  intros H. unfold show_lost. destruct (is_nil (all_records st)); [exact H|].
  cbv zeta. destruct H as (_ & _ & Hs & Hr & Ht).
  assert (H : consistent (set_current_records (List.filter is_lost (all_records st))
                                              (set_current_view LOST st))).
  { split; [discriminate|]. split; [reflexivity|]. auto. }
  apply consistent_render.
  - simpl. destruct (sort_state st WEIGHT); discriminate.
  - simpl. destruct (sort_state st WEIGHT); [|exact H].
    apply (consistent_sorted _ _ (py_sort_perm _ _ _) H).
Qed.

Lemma consistent_sort_by_weight (st : app) :
  consistent st -> consistent (sort_by_weight st).
Proof.
  intros H. unfold sort_by_weight.
  destruct (is_nil (current_records st) || view_eqb (current_view st) SUMMARY) eqn:E;
    [exact H|].
  apply orb_false_iff in E as [_ Ev].
  assert (Hv : current_view st <> SUMMARY) by (intros Hv; rewrite Hv in Ev; discriminate).
  cbv zeta. apply consistent_render; [exact Hv|].
  apply consistent_sorted; [apply py_sort_perm|].
  destruct H as (Hd & Hl & Hs & Hr & Ht).
  split; [exact Hd|]. split; [exact Hl|]. split; [apply andb_false_r|]. auto.
Qed.

Lemma consistent_sort_by_exp (st : app) :
  consistent st -> consistent (sort_by_exp st).
Proof.
  intros H. unfold sort_by_exp.
  destruct (is_nil (current_records st) || negb (view_eqb (current_view st) DETAIL)) eqn:E;
    [exact H|].
  apply orb_false_iff in E as [_ Ev].
  assert (Hv : current_view st <> SUMMARY) by (intros Hv; rewrite Hv in Ev; discriminate).
  cbv zeta. apply consistent_render; [exact Hv|].
  apply consistent_sorted; [apply py_sort_perm|].
  destruct H as (Hd & Hl & Hs & Hr & Ht).
  split; [exact Hd|]. split; [exact Hl|]. split; [reflexivity|]. auto.
Qed.

Lemma consistent_toggle_rod (i : Z) (st : app) :
  consistent st -> consistent (toggle_rod i st).
Proof.
  intros (Hd & Hl & Hs & Hr & Ht). apply consistent_apply_current_sort.
  split; [exact Hd|]. split; [exact Hl|]. split; [exact Hs|]. split; [|exact Ht].
  simpl. rewrite List.map_map, <- Hr. apply List.map_ext. intros [rod var]. reflexivity.
Qed.

Section Window.

Variable cache_key : str -> str.
Variable float_sum : list float -> float.

(** What [show_summary] draws holds no row of the table. *)
Lemma summary_widgets (st : app) :
  exists t,
    show_summary float_sum st =
    set_table_container t (set_header_shown false (set_current_view SUMMARY st)) /\
    Forall (fun w => match w with TableRow _ _ => False | _ => True end) t.
Proof.
  unfold show_summary. cbv zeta.
  destruct (get_selected_rods _) as [|r0 sel].
  - eexists. split; [reflexivity|]. constructor; [exact I|constructor].
  - destruct (too_long _).
    { eexists. split; [reflexivity|]. constructor; [exact I|constructor]. }
    destruct (fish_stats_of _) as [|item items].
    + eexists. split; [reflexivity|]. constructor; [exact I|constructor].
    + eexists. split; [reflexivity|]. simpl.
      constructor; [exact I|]. constructor; [exact I|]. constructor; [exact I|].
      apply Forall_forall. intros w Hw. apply list_elem_of_In, in_map_iff in Hw
        as ([fish [count total]] & <- & _). exact I.
Qed.

Lemma consistent_show_summary (st : app) :
  sort_state st WEIGHT && sort_state st EXP = false ->
  List.map fst (rod_vars st) = [1; 2; 3; 4; 5]%Z ->
  consistent (show_summary float_sum st).
Proof.
  intros Hs Hr. destruct (summary_widgets st) as (t & -> & Ht).
  split; [discriminate|]. split; [discriminate|]. split; [exact Hs|]. split; [exact Hr|].
  simpl. eapply Forall_impl; [exact Ht|]. intros [v b| | | | |]; simpl; tauto.
Qed.

Lemma consistent_analyze (input : str) (st : app) :
  consistent st -> consistent (analyze cache_key float_sum input st).
Proof.
  intros H. pose proof H as (_ & _ & Hs & Hr & _). unfold analyze. cbv zeta.
  destruct (strip input) as [|c text]; [exact H|].
  destruct (parse_text (c :: text)) as [[|rec records]|e];
    try (apply consistent_show_summary; assumption).
  destruct (RecordCache.set _ _ _); apply consistent_show_summary; assumption.
Qed.

Lemma consistent_handle (st : app) (ev : event) :
  consistent st -> consistent (handle cache_key float_sum st ev).
Proof.
  destruct ev; simpl;
    auto using consistent_analyze, consistent_show_detail, consistent_show_lost,
               consistent_sort_by_weight, consistent_sort_by_exp, consistent_toggle_rod.
Qed.

Lemma consistent_init : consistent init.
Proof.
  split; [discriminate|]. split; [discriminate|]. repeat split. constructor.
Qed.

Lemma consistent_after (events : list event) :
  consistent (after cache_key float_sum events).
Proof.
  unfold after. generalize init, consistent_init.
  induction events as [|ev events IH]; intros st H; simpl.
  - exact H.
  - apply IH, consistent_handle, H.
Qed.

(** X11. Whatever the user does in the window, in any order: the
    records held for the table are the records of the last analysis that
    the view is for, the captures in the detail view and the lost fish in
    the lost view, in some order; every row on display is the row of a
    record of the last analysis, of a rod from 1 to 5; the check boxes
    stay those of the rods 1 to 5; and the two sort flags are never set
    together. *)
Theorem window_state_is_consistent (events : list event) :
  consistent (after cache_key float_sum events).
Proof.
  unfold after.
  assert (H : forall st, consistent st ->
                         consistent (fold_left (handle cache_key float_sum) events st)).
  { induction events as [|ev evs IH]; intros st Hst; simpl; [exact Hst|].
    apply IH. destruct ev; simpl.
    - apply consistent_analyze, Hst.
    - apply consistent_show_detail, Hst.
    - apply consistent_show_lost, Hst.
    - apply consistent_sort_by_weight, Hst.
    - apply consistent_sort_by_exp, Hst.
    - apply consistent_toggle_rod, Hst. }
  apply H, consistent_init.
Qed.

End Window.

(** ** What the buttons leave alone *)

Lemma render_keeps (st : app) :
  cache (_render_data st) = cache st /\
  all_records (_render_data st) = all_records st /\
  current_records (_render_data st) = current_records st /\
  current_view (_render_data st) = current_view st /\
  sort_state (_render_data st) = sort_state st /\
  rod_vars (_render_data st) = rod_vars st.
Proof. destruct (render_rows st) as (t & h & -> & _). simpl. tauto. Qed.

Lemma apply_current_sort_keeps (st : app) :
  cache (_apply_current_sort st) = cache st /\
  all_records (_apply_current_sort st) = all_records st.
Proof.
  unfold _apply_current_sort. destruct (_ || _); [tauto|]. cbv zeta.
  destruct (render_keeps
              (if sort_state st WEIGHT
               then set_current_records
                      (py_sort by_weight (sort_state st WEIGHT) (current_records st)) st
               else if view_eqb (current_view st) DETAIL && sort_state st EXP
                    then set_current_records
                           (py_sort by_exp (sort_state st EXP) (current_records st)) st
                    else st)) as (-> & -> & _).
  destruct (sort_state st WEIGHT); [simpl; tauto|].
  destruct (_ && _); simpl; tauto.
Qed.

Section Follows.

Variable cache_key : str -> str.
Variable float_sum : list float -> float.

Lemma show_summary_keeps (st : app) :
  cache (show_summary float_sum st) = cache st /\
  all_records (show_summary float_sum st) = all_records st.
Proof. destruct (summary_widgets float_sum st) as (t & -> & _). simpl. tauto. Qed.

Lemma handle_follows (st : app) (ev : event) :
  cache (handle cache_key float_sum st ev) =
  match ev with
  | Analyze input => snd (FishingLogAnalyzer.analyze cache_key (cache st) input)
  | _ => cache st
  end /\
  all_records (handle cache_key float_sum st ev) =
  match ev with
  | Analyze input =>
    match strip input with
    | [] => all_records st
    | (_ :: _) as text =>
      match parse_text text with
      | Ret records => records
      | Raise _ => all_records st
      end
    end
  | _ => all_records st
  end.
Proof.
  destruct ev as [input| | | | |i]; simpl.
  - unfold analyze, FishingLogAnalyzer.analyze. cbv zeta.
    destruct (strip input) as [|c text]; [tauto|].
    destruct (parse_text (c :: text)) as [[|rec records]|e];
      try (destruct (show_summary_keeps
                       (_show_message (u "正在解析日志，请稍候...") (clear_table st)))
            as [-> ->]; simpl; tauto).
    + destruct (show_summary_keeps
                  (set_all_records []
                     (_show_message (u "正在解析日志，请稍候...") (clear_table st))))
        as [-> ->]. simpl. tauto.
    + simpl. destruct (RecordCache.set (cache st) (cache_key (c :: text)) (rec :: records))
        as [cache'|e].
      * destruct (show_summary_keeps
                    (set_cache cache'
                       (set_all_records (rec :: records)
                          (_show_message (u "正在解析日志，请稍候...") (clear_table st)))))
          as [-> ->]. simpl. tauto.
      * destruct (show_summary_keeps
                    (set_all_records (rec :: records)
                       (_show_message (u "正在解析日志，请稍候...") (clear_table st))))
          as [-> ->]. simpl. tauto.
  - unfold show_detail. destruct (is_nil (all_records st)); [tauto|]. cbv zeta.
    destruct (apply_current_sort_keeps
                (set_current_records
                   (List.filter (fun r => negb (is_lost r))
                                (all_records (set_current_view DETAIL st)))
                   (set_current_view DETAIL st))) as [-> ->]. simpl. tauto.
  - unfold show_lost. destruct (is_nil (all_records st)); [tauto|]. cbv zeta.
    match goal with |- cache (_render_data ?s) = _ /\ _ =>
      destruct (render_keeps s) as (-> & -> & _) end.
    simpl. destruct (sort_state st WEIGHT); simpl; tauto.
  - unfold sort_by_weight. destruct (_ || _); [tauto|]. cbv zeta.
    match goal with |- cache (_render_data ?s) = _ /\ _ =>
      destruct (render_keeps s) as (-> & -> & _) end.
    simpl. tauto.
  - unfold sort_by_exp. destruct (_ || _); [tauto|]. cbv zeta.
    match goal with |- cache (_render_data ?s) = _ /\ _ =>
      destruct (render_keeps s) as (-> & -> & _) end.
    simpl. tauto.
  - unfold toggle_rod.
    match goal with |- cache (_apply_current_sort ?s) = _ /\ _ =>
      destruct (apply_current_sort_keeps s) as [-> ->] end.
    simpl. tauto.
Qed.

(** X12. The records that the window holds are those of the last
    analysis of text that is not blank and that did not fail: an analysis
    that raises, an analysis of blank text and every other button leave
    them as they were. The cache is as the analyses left it, one after
    the other; nothing else writes to it. *)
Theorem window_follows_the_analyses (events : list event) :
  all_records (after cache_key float_sum events) = last_parsed events /\
  cache (after cache_key float_sum events) = cached cache_key events.
Proof.
  unfold after, last_parsed, cached.
  assert (H : all_records init = [] /\ cache init = RecordCache.init RecordCache.CACHE_SIZE)
    by (split; reflexivity).
  revert H. generalize init, (@nil FishingRecord), (RecordCache.init RecordCache.CACHE_SIZE).
  induction events as [|ev events IH]; intros st l c [Hl Hc]; simpl; [auto|].
  apply IH. destruct (handle_follows st ev) as [-> ->]. rewrite Hl, Hc.
  destruct ev; auto.
Qed.

End Follows.

(** ** The sort buttons *)

Lemma render_table (st : app) (r0 : Z) (sel : list Z) :
  get_selected_rods st = r0 :: sel ->
  table_container (_render_data st) =
  List.map row_of (List.filter (fun record => rod_in (rod record) (r0 :: sel))
                               (current_records st)).
Proof.
  intros H. unfold _render_data. cbv zeta.
  change (get_selected_rods (clear_table st)) with (get_selected_rods st). rewrite H.
  destruct (negb _); reflexivity.
Qed.

Lemma by_weight_asym (a b : FishingRecord) :
  is_nan (weight a) = false -> is_nan (weight b) = false ->
  by_weight a b = true -> by_weight b a = false.
Proof. apply flt_asym. Qed.

Lemma by_weight_trans (a b c : FishingRecord) :
  is_nan (weight a) = false -> is_nan (weight b) = false -> is_nan (weight c) = false ->
  by_weight a c = true -> by_weight a b = true \/ by_weight b c = true.
Proof. apply flt_trans. Qed.

(** X13. A click on the weight button, in the detail view or the lost
    view with records on display whose weights are no NaN, flips the
    weight flag and clears the experience flag, and puts the records in
    the order of their weights, heaviest first when the flag is now set
    and lightest first when it is now clear. The records are the same as
    before, and those of equal weight keep the order they had. The table
    then shows their rows, for the rods that are ticked. *)
Theorem sort_by_weight_orders_the_records (st : app) :
  current_records st <> [] ->
  current_view st <> SUMMARY ->
  Forall (fun r => is_nan (weight r) = false) (current_records st) ->
  let st' := sort_by_weight st in
  sort_state st' WEIGHT = negb (sort_state st WEIGHT) /\
  sort_state st' EXP = false /\
  Permutation (current_records st') (current_records st) /\
  StronglySorted
    (fun a b => if sort_state st' WEIGHT
                then flt (weight a) (weight b) = false
                else flt (weight b) (weight a) = false)
    (current_records st') /\
  (forall k, is_nan (weight k) = false ->
             List.filter (same_key by_weight k) (current_records st') =
             List.filter (same_key by_weight k) (current_records st)) /\
  (get_selected_rods st <> [] ->
   table_container st' =
   List.map row_of (List.filter (fun r => rod_in (rod r) (get_selected_rods st))
                                (current_records st'))).
Proof.
  intros Hne Hv Hnan.
  assert (Hg : is_nil (current_records st) || view_eqb (current_view st) SUMMARY = false).
  { destruct (current_records st); [contradiction|].
    destruct (current_view st); [contradiction|reflexivity|reflexivity]. }
  unfold sort_by_weight. rewrite Hg. cbv zeta.
  match goal with |- context [_render_data ?s] =>
    destruct (render_keeps s) as (_ & _ & -> & _ & -> & _);
    pose proof (render_table s) as Ht
  end.
  cbn [sort_state current_records set_current_records set_sort_state sort_flags] in *.
  split; [reflexivity|]. split; [reflexivity|]. split; [apply py_sort_perm|].
  split; [|split].
  - pose proof (py_sort_sorted by_weight (fun r => is_nan (weight r) = false)
                  by_weight_asym by_weight_trans
                  (negb (sort_state st WEIGHT)) (current_records st) Hnan) as Hs.
    destruct (negb (sort_state st WEIGHT)); exact Hs.
  - intros k Hk.
    apply (py_sort_stable by_weight (fun r => is_nan (weight r) = false)
                          by_weight_trans); assumption.
  - intros Hsel. destruct (get_selected_rods st) as [|x sel] eqn:Es; [contradiction|].
    apply Ht. exact Es.
Qed.

Lemma sorted_weaken {A} (R S : A -> A -> Prop) (l : list A) :
  (forall a b, R a b -> S a b) -> StronglySorted R l -> StronglySorted S l.
Proof.
  intros HRS. induction 1 as [|x l _ IH Hx]; constructor; [exact IH|].
  eapply Forall_impl; [exact Hx|]. auto.
Qed.

Lemma by_exp_asym (a b : FishingRecord) :
  True -> True -> by_exp a b = true -> by_exp b a = false.
Proof. unfold by_exp. intros _ _ H. apply Z.ltb_lt in H. apply Z.ltb_ge. lia. Qed.

Lemma by_exp_trans (a b c : FishingRecord) :
  True -> True -> True ->
  by_exp a c = true -> by_exp a b = true \/ by_exp b c = true.
Proof.
  unfold by_exp. intros _ _ _ H. apply Z.ltb_lt in H.
  destruct (Z.ltb_spec (exp a) (exp b)); [auto|]. right. apply Z.ltb_lt. lia.
Qed.

(** X14. A click on the experience button does nothing but in the detail
    view with records on display. There it flips the experience flag and
    clears the weight flag, and puts the records in the order of their
    experience, most first when the flag is now set and least first when
    it is now clear; the records are the same as before, and those of
    equal experience keep the order they had. *)
Theorem sort_by_exp_orders_the_captures (st : app) :
  (current_view st <> DETAIL -> sort_by_exp st = st) /\
  (current_records st = [] -> sort_by_exp st = st) /\
  (current_view st = DETAIL -> current_records st <> [] ->
   let st' := sort_by_exp st in
   sort_state st' EXP = negb (sort_state st EXP) /\
   sort_state st' WEIGHT = false /\
   Permutation (current_records st') (current_records st) /\
   StronglySorted
     (fun a b => if sort_state st' EXP then (exp b <= exp a)%Z else (exp a <= exp b)%Z)
     (current_records st') /\
   (forall k, List.filter (same_key by_exp k) (current_records st') =
              List.filter (same_key by_exp k) (current_records st))).
Proof.
  unfold sort_by_exp. split; [|split].
  - intros Hv. destruct (current_view st); try contradiction;
      cbn [view_eqb negb]; rewrite orb_true_r; reflexivity.
  - intros ->. reflexivity.
  - intros Hv Hne.
    assert (Hg : is_nil (current_records st) || negb (view_eqb (current_view st) DETAIL)
                 = false).
    { rewrite Hv. destruct (current_records st); [contradiction|reflexivity]. }
    rewrite Hg. cbv zeta.
    match goal with |- context [_render_data ?s] =>
      destruct (render_keeps s) as (_ & _ & -> & _ & -> & _)
    end.
    cbn [sort_state current_records set_current_records set_sort_state sort_flags].
    split; [reflexivity|]. split; [reflexivity|]. split; [apply py_sort_perm|]. split.
    + pose proof (py_sort_sorted by_exp (fun _ => True) by_exp_asym by_exp_trans
                    (negb (sort_state st EXP)) (current_records st)) as Hs.
      eapply sorted_weaken; [|apply Hs, Forall_forall; auto].
      intros a b. unfold by_exp.
      destruct (negb (sort_state st EXP)); simpl; intros H; apply Z.ltb_ge in H; exact H.
    + intros k. apply (py_sort_stable by_exp (fun _ => True) by_exp_trans);
        [exact I|apply Forall_forall; auto].
Qed.

(** ** A view with nothing to show *)

Lemma filter_none {A} (p : A -> bool) (l : list A) :
  Forall (fun x => p x = false) l -> List.filter p l = [].
Proof. induction 1 as [|x l Hx _ IH]; simpl; [reflexivity|]. rewrite Hx. exact IH. Qed.

(** X15. When the records of the last analysis are all lost fish, the
    button of the detail view changes the view and empties the records
    held for the table, but draws nothing: the table and the header row
    stay as the view before left them, and the sort buttons and the check
    boxes then leave the table alone as well. The button of the lost view
    draws in the like case: when no record is a lost fish and a rod is
    ticked, it shows the header row over an empty table. *)
Theorem detail_view_without_captures_is_not_drawn :
  (forall st : app,
      all_records st <> [] ->
      Forall (fun r => is_lost r = true) (all_records st) ->
      let st' := show_detail st in
      current_view st' = DETAIL /\ current_records st' = [] /\
      table_container st' = table_container st /\
      header_shown st' = header_shown st /\
      sort_by_weight st' = st' /\ sort_by_exp st' = st' /\
      forall i, table_container (toggle_rod i st') = table_container st) /\
  (forall st : app,
      all_records st <> [] ->
      Forall (fun r => is_lost r = false) (all_records st) ->
      get_selected_rods st <> [] ->
      let st' := show_lost st in
      current_view st' = LOST /\ current_records st' = [] /\
      table_container st' = [] /\ header_shown st' = true).
Proof.
  split.
  - intros st Hne Hall.
    assert (Hf : List.filter (fun r => negb (is_lost r)) (all_records st) = []).
    { apply filter_none. eapply Forall_impl; [exact Hall|]. intros r ->. reflexivity. }
    unfold show_detail. destruct (all_records st) as [|r0 rs] eqn:Ha; [contradiction|].
    cbn [is_nil]. cbv zeta. cbn [all_records set_current_view]. rewrite Ha, Hf.
    unfold _apply_current_sort, sort_by_weight, sort_by_exp, toggle_rod,
      _apply_current_sort. simpl. auto 10.
  - intros st Hne Hall Hsel.
    assert (Hf : List.filter is_lost (all_records st) = []) by apply filter_none, Hall.
    unfold show_lost. destruct (all_records st) as [|r0 rs] eqn:Ha; [contradiction|].
    cbn [is_nil]. cbv zeta. cbn [all_records set_current_view]. rewrite Ha, Hf.
    assert (Hs : py_sort by_weight true (@nil FishingRecord) = []) by reflexivity.
    destruct (get_selected_rods st) as [|x sel] eqn:Es; [contradiction|].
    unfold _render_data. cbv zeta.
    destruct (sort_state _ WEIGHT); simpl;
      change (get_selected_rods _) with (get_selected_rods st); rewrite Es; simpl; auto.
Qed.

(** ** The summary *)

Lemma filter_within {A} (p q : A -> bool) (l : list A) :
  (forall x, p x = true -> q x = true) ->
  List.filter p (List.filter q l) = List.filter p l.
Proof.
  intros H. induction l as [|x l IH]; simpl; [reflexivity|].
  destruct (q x) eqn:Eq; simpl; rewrite IH; [reflexivity|].
  destruct (p x) eqn:Ep; [|reflexivity]. rewrite (H x Ep) in Eq. discriminate.
Qed.

Section Summary.

Variable float_sum : list float -> float.

(** X16. The records of rods that have no check box, 0 and 6 to 9,
    count for nothing in the summary: with them or without them among
    the records of the last analysis, the summary shows the same. *)
Theorem summary_counts_only_the_rods_on_the_panel (st : app) :
  Forall (fun r => (1 <= r <= 5)%Z) (List.map fst (rod_vars st)) ->
  table_container
    (show_summary float_sum
       (set_all_records (List.filter on_panel (all_records st)) st)) =
  table_container (show_summary float_sum st).
Proof.
  intros Hr. unfold show_summary. cbv zeta.
  change (get_selected_rods (_hide_table_header (clear_table (set_current_view SUMMARY
            (set_all_records (List.filter on_panel (all_records st)) st)))))
    with (get_selected_rods st).
  change (get_selected_rods (_hide_table_header (clear_table (set_current_view SUMMARY st))))
    with (get_selected_rods st).
  destruct (get_selected_rods st) as [|r0 sel] eqn:Es; [reflexivity|].
  cbn [all_records set_all_records set_current_view clear_table _hide_table_header
       set_table_container set_header_shown].
  assert (Hin : forall r, rod_in (rod r) (r0 :: sel) = true -> on_panel r = true).
  { intros r H. apply rod_in_In in H. rewrite <- Es in H.
    apply selected_rods_known in H. rewrite Forall_forall in Hr.
    apply list_elem_of_In, Hr in H. unfold on_panel.
    apply andb_true_iff. split; apply Z.leb_le; lia. }
  rewrite !filter_within.
  - destruct (too_long _); [reflexivity|]. destruct (fish_stats_of _); reflexivity.
  - intros r H. apply andb_prop in H as [_ H]. auto.
  - intros r H. apply andb_prop in H as [_ H]. auto.
Qed.

End Summary.

(** ** The count of each fish *)

Lemma fold_add (l : list Z) (a : Z) : fold_left Z.add l a = (a + fold_left Z.add l 0)%Z.
Proof.
  revert a. induction l as [|x l IH]; intros a; simpl; [lia|].
  rewrite (IH (a + x)%Z), (IH (0 + x)%Z). lia.
Qed.

Lemma stats_add_keys (name : str) (w : float) (d : list (str * (Z * float))) :
  List.map fst (stats_add name w d) =
  if existsb (fun k => str_eqb k name) (List.map fst d)
  then List.map fst d else List.map fst d ++ [name].
Proof.
  induction d as [|[k [c t]] d IH]; simpl; [reflexivity|].
  destruct (str_eqb k name); simpl; [reflexivity|]. rewrite IH.
  destruct (existsb _ _); reflexivity.
Qed.

Lemma stats_add_sum (name : str) (w : float) (d : list (str * (Z * float))) :
  fold_left Z.add (List.map (fun item => fst (snd item)) (stats_add name w d)) 0%Z =
  (fold_left Z.add (List.map (fun item => fst (snd item)) d) 0 + 1)%Z.
Proof.
  induction d as [|[k [c t]] d IH]; simpl; [reflexivity|].
  destruct (str_eqb k name); simpl.
  - rewrite (fold_add _ (c + 1)), (fold_add _ c). lia.
  - rewrite (fold_add _ c), IH, (fold_add _ c). lia.
Qed.

Lemma stats_add_in (name : str) (w : float) (d : list (str * (Z * float)))
      (k : str) (c : Z) (t : float) :
  NoDup (List.map fst d) ->
  In (k, (c, t)) (stats_add name w d) ->
  (k <> name /\ In (k, (c, t)) d) \/
  (k = name /\ ((exists c0 t0, In (k, (c0, t0)) d /\ c = (c0 + 1)%Z) \/
                (~ In name (List.map fst d) /\ c = 1%Z))).
Proof.
  induction d as [|[k0 [c0 t0]] d IH]; simpl; intros Hnd H.
  - destruct H as [H|[]]. injection H as <- <- _.
    right. split; [reflexivity|]. right. split; [tauto|reflexivity].
  - apply NoDup_cons in Hnd as [Hk0 Hnd].
    destruct (str_eqb k0 name) eqn:E.
    + apply str_eqb_eq in E. subst k0. destruct H as [[= <- <- _]|H].
      * right. split; [reflexivity|]. left. eauto.
      * left. split; [|auto]. intros ->. apply Hk0, list_elem_of_In, in_map_iff.
        exists (name, (c, t)). auto.
    + destruct H as [[= <- <- <-]|H].
      * left. split; [|auto]. intros ->. rewrite str_eqb_refl in E. discriminate.
      * destruct (IH Hnd H) as [[Hne Hin]|[-> [(c1 & t1 & Hin & ->)|[Hnot ->]]]].
        -- left. auto.
        -- right. split; [reflexivity|]. left. eauto.
        -- right. split; [reflexivity|]. right. split; [|reflexivity].
           intros [->|Hin]; [rewrite str_eqb_refl in E; discriminate|contradiction].
Qed.

Lemma existsb_key (name : str) (keys : list str) :
  existsb (fun k => str_eqb k name) keys = true <-> In name keys.
Proof.
  rewrite existsb_exists. split.
  - intros (k & Hk & E). apply str_eqb_eq in E. subst. exact Hk.
  - intros H. exists name. split; [exact H|apply str_eqb_refl].
Qed.

Lemma counted_add (seen : list FishingRecord) (r : FishingRecord)
      (d : list (str * (Z * float))) :
  counted seen d -> counted (seen ++ [r]) (stats_add (fish r) (weight r) d).
Proof.
  intros (Hnd & Hcount & Hkeys & Hsum).
  assert (Hk : forall name, In name (List.map fst d) ->
                            In name (List.map fst (stats_add (fish r) (weight r) d))).
  { intros name H. rewrite stats_add_keys. destruct (existsb _ _); [exact H|].
    apply in_or_app. auto. }
  split; [|split; [|split]].
  - rewrite stats_add_keys. destruct (existsb _ _) eqn:E; [exact Hnd|].
    apply NoDup_app. split; [exact Hnd|]. split; [|apply NoDup_singleton].
    intros x Hx Hx'. apply list_elem_of_In in Hx, Hx'. destruct Hx' as [<-|[]].
    apply existsb_key in Hx. congruence.
  - intros name count total H. rewrite List.filter_app, length_app. cbn [List.filter].
    apply (stats_add_in _ _ _ _ _ _ Hnd) in H
      as [[Hne Hin]|[-> [(c0 & t0 & Hin & ->)|[Hnot ->]]]].
    + rewrite (str_eqb_neq (fish r) name) by congruence. simpl.
      destruct (Hcount _ _ _ Hin) as [-> H1]. split; [|exact H1]. f_equal. lia.
    + rewrite str_eqb_refl. simpl. destruct (Hcount _ _ _ Hin) as [-> H1]. lia.
    + rewrite str_eqb_refl. simpl.
      rewrite (filter_none (fun x => str_eqb (fish x) (fish r)) seen); [simpl; lia|].
      apply Forall_forall. intros x Hx. apply list_elem_of_In in Hx.
      destruct (str_eqb (fish x) (fish r)) eqn:E; [|reflexivity].
      apply str_eqb_eq in E. exfalso. apply Hnot. rewrite <- E. auto.
  - intros x Hx. apply in_app_or in Hx as [Hx|[<-|[]]]; [auto|].
    rewrite stats_add_keys. destruct (existsb _ _) eqn:E.
    + apply existsb_key, E.
    + apply in_or_app. right. left. reflexivity.
  - rewrite stats_add_sum, Hsum, length_app. simpl. lia.
Qed.

Lemma counted_fold (l : list FishingRecord) : forall seen d,
  counted seen d ->
  counted (seen ++ l) (fold_left (fun d r => stats_add (fish r) (weight r) d) l d).
Proof.
  induction l as [|r l IH]; intros seen d H; simpl.
  - rewrite app_nil_r. exact H.
  - replace (seen ++ r :: l) with ((seen ++ [r]) ++ l) by (rewrite <- app_assoc; reflexivity).
    apply IH, counted_add, H.
Qed.

(** X17. The count of the fish in the summary: there is one entry for
    each fish name among the captures counted, no name twice, the number
    of an entry is the number of captures of that name, at least one, and
    the numbers add up to the total of captures. *)
Theorem fish_stats_count_the_captures (capture_records : list FishingRecord) :
  counted capture_records (fish_stats_of capture_records).
Proof.
  apply (counted_fold capture_records [] []).
  split; [constructor|]. split; [intros ? ? ? []|]. split; [intros ? []|reflexivity].
Qed.

(** ** The table and the records *)

Lemma render_idempotent (st : app) : _render_data (_render_data st) = _render_data st.
Proof.
  unfold _render_data. cbv zeta.
  change (get_selected_rods (clear_table st)) with (get_selected_rods st).
  destruct (get_selected_rods st) as [|r0 sel] eqn:Es.
  - simpl. change (get_selected_rods _) with (get_selected_rods st). rewrite Es. reflexivity.
  - change (current_view (clear_table st)) with (current_view st).
    destruct (view_eqb (current_view st) SUMMARY) eqn:Ev; simpl;
      change (get_selected_rods _) with (get_selected_rods st); rewrite Es; simpl;
      rewrite Ev; reflexivity.
Qed.

Lemma in_step_apply_current_sort (st : app) :
  (is_nil (current_records st) || view_eqb (current_view st) SUMMARY = true -> in_step st) ->
  in_step (_apply_current_sort st).
Proof.
  intros H. unfold _apply_current_sort.
  destruct (_ || _); [auto|]. intros _ _. apply render_idempotent.
Qed.

Lemma in_step_vacuous (st : app) :
  is_nil (current_records st) || view_eqb (current_view st) SUMMARY = true -> in_step st.
Proof.
  intros H Hv Hc. apply orb_true_iff in H as [H|H].
  - destruct (current_records st); [contradiction|discriminate].
  - destruct (current_view st); [contradiction|discriminate|discriminate].
Qed.

Section InStep.

Variable cache_key : str -> str.
Variable float_sum : list float -> float.

Lemma in_step_handle (st : app) (ev : event) :
  in_step st -> in_step (handle cache_key float_sum st ev).
Proof.
  intros H. destruct ev as [input| | | | |i]; simpl.
  - assert (Hs : forall s, in_step (show_summary float_sum s)).
    { intros s. destruct (summary_widgets float_sum s) as (t & -> & _).
      intros Hv. contradiction. }
    unfold analyze. cbv zeta. destruct (strip input) as [|c text]; [exact H|].
    destruct (parse_text (c :: text)) as [[|rec records]|e]; try apply Hs.
    destruct (RecordCache.set _ _ _); apply Hs.
  - unfold show_detail. destruct (is_nil (all_records st)); [exact H|].
    apply in_step_apply_current_sort, in_step_vacuous.
  - unfold show_lost. destruct (is_nil (all_records st)); [exact H|].
    intros _ _. apply render_idempotent.
  - unfold sort_by_weight. destruct (_ || _); [exact H|].
    intros _ _. apply render_idempotent.
  - unfold sort_by_exp. destruct (_ || _); [exact H|].
    intros _ _. apply render_idempotent.
  - apply in_step_apply_current_sort, in_step_vacuous.
Qed.

(** X18. Whatever the user does, while a record view holds records the
    table is in step with them: it shows what drawing it again would
    show, which is the rows of the records held, in their order, for the
    rods now ticked, under the header row, or the request to tick a rod
    when none is. *)
Theorem table_is_in_step_with_the_records (events : list event) :
  let st := after cache_key float_sum events in
  current_view st <> SUMMARY -> current_records st <> [] ->
  _render_data st = st /\
  table_container st =
  match get_selected_rods st with
  | [] => [MessageLabel (u "请至少选择一个鱼竿")]
  | selected_rods =>
    List.map row_of
             (List.filter (fun r => rod_in (rod r) selected_rods) (current_records st))
  end /\
  (get_selected_rods st <> [] -> header_shown st = true).
Proof.
  assert (Hall : forall s, in_step s ->
                           in_step (fold_left (handle cache_key float_sum) events s)).
  { induction events as [|ev evs IH]; intros s Hs; simpl; [exact Hs|].
    apply IH, in_step_handle, Hs. }
  intros st Hv Hc.
  pose proof (Hall init (in_step_vacuous init eq_refl)) as H.
  fold (after cache_key float_sum events) in H. fold st in H.
  specialize (H Hv Hc). split; [exact H|].
  assert (Ht : table_container (_render_data st) =
               match get_selected_rods st with
               | [] => [MessageLabel (u "请至少选择一个鱼竿")]
               | selected_rods =>
                 List.map row_of
                          (List.filter (fun r => rod_in (rod r) selected_rods)
                                       (current_records st))
               end /\
               (get_selected_rods st <> [] -> header_shown (_render_data st) = true)).
  { unfold _render_data. cbv zeta.
    change (get_selected_rods (clear_table st)) with (get_selected_rods st).
    change (current_view (clear_table st)) with (current_view st).
    destruct (get_selected_rods st) as [|r0 sel]; [split; [reflexivity|contradiction]|].
    destruct (current_view st); [contradiction| |]; split; reflexivity. }
  rewrite H in Ht. exact Ht.
Qed.

End InStep.

(** ** The order of the records *)

Lemma not_negative_not_nan (w : float) : not_negative w = true -> is_nan w = false.
Proof. destruct w; [reflexivity|reflexivity|discriminate|reflexivity]. Qed.

Lemma sorted_by_weight (l : list FishingRecord) :
  Forall (fun r => is_nan (weight r) = false) l ->
  StronglySorted (fun a b => flt (weight a) (weight b) = false) (py_sort by_weight true l).
Proof.
  apply (py_sort_sorted by_weight (fun r => is_nan (weight r) = false)
                        by_weight_asym by_weight_trans true).
Qed.

Lemma sorted_by_exp (l : list FishingRecord) :
  StronglySorted (fun a b => (exp b <= exp a)%Z) (py_sort by_exp true l).
Proof.
  eapply sorted_weaken;
    [|apply (py_sort_sorted by_exp (fun _ => True) by_exp_asym by_exp_trans true l),
            Forall_forall; auto].
  intros a b H. apply Z.ltb_ge in H. exact H.
Qed.

(** The weights of the records held for the table are no NaN when those
    of the last analysis are none. *)
Lemma current_weights (st : app) :
  consistent st -> current_view st <> SUMMARY ->
  Forall (fun r => is_nan (weight r) = false) (all_records st) ->
  Forall (fun r => is_nan (weight r) = false) (current_records st).
Proof.
  intros (Hd & Hl & _) Hv Hall. rewrite Forall_forall in Hall |- *. intros r Hr.
  apply list_elem_of_In in Hr. apply Hall, list_elem_of_In.
  destruct (current_view st); [contradiction| |].
  - apply (Permutation_in _ (Hd eq_refl)), filter_In in Hr. tauto.
  - apply (Permutation_in _ (Hl eq_refl)), filter_In in Hr. tauto.
Qed.

Lemma in_order_render (st : app) : in_order st -> in_order (_render_data st).
Proof. destruct (render_rows st) as (t & h & -> & _). exact (fun H => H). Qed.

Lemma is_nil_true {A} (l : list A) : is_nil l = true -> l = [].
Proof. destruct l; [reflexivity|discriminate]. Qed.

Lemma in_order_empty (st : app) : current_records st = [] -> in_order st.
Proof. intros H _. rewrite H. split; intros; constructor. Qed.

Lemma in_order_apply_current_sort (st : app) :
  (current_view st <> SUMMARY ->
   Forall (fun r => is_nan (weight r) = false) (current_records st)) ->
  sort_state st WEIGHT && sort_state st EXP = false ->
  (is_nil (current_records st) || view_eqb (current_view st) SUMMARY = true ->
   in_order st) ->
  in_order (_apply_current_sort st).
Proof.
  intros Hnan Hx H. unfold _apply_current_sort.
  destruct (is_nil (current_records st) || view_eqb (current_view st) SUMMARY) eqn:Eg;
    [auto|].
  cbv zeta. apply in_order_render. intros Hv.
  destruct (sort_state st WEIGHT) eqn:Ew.
  - simpl in Hx. cbn [sort_state current_records current_view set_current_records].
    split; [intros _; apply sorted_by_weight, Hnan, Hv|congruence].
  - destruct (view_eqb (current_view st) DETAIL && sort_state st EXP) eqn:Ee.
    + apply andb_prop in Ee as [_ Ee]. rewrite Ee.
      cbn [sort_state current_records current_view set_current_records].
      split; [congruence|]. intros _ _. apply sorted_by_exp.
    + split; [congruence|]. intros Hd Ee'. rewrite Hd, Ee' in Ee. discriminate.
Qed.

Section InOrder.

Variable cache_key : str -> str.
Variable float_sum : list float -> float.

Lemma in_order_handle (st : app) (ev : event) :
  consistent st ->
  Forall (fun r => is_nan (weight r) = false) (all_records st) ->
  in_order st -> in_order (handle cache_key float_sum st ev).
Proof.
  intros Hc Hnan H. pose proof Hc as (_ & _ & Hx & _).
  assert (Hf : forall p, Forall (fun r => is_nan (weight r) = false)
                                (List.filter p (all_records st))).
  { intros p. rewrite Forall_forall in Hnan |- *. intros r Hr.
    apply list_elem_of_In, filter_In in Hr as [Hr _]. apply Hnan, list_elem_of_In, Hr. }
  destruct ev as [input| | | | |i]; simpl.
  - assert (Hs : forall s, in_order (show_summary float_sum s)).
    { intros s. destruct (summary_widgets float_sum s) as (t & -> & _).
      intros Hv. contradiction. }
    unfold analyze. cbv zeta. destruct (strip input) as [|c text]; [exact H|].
    destruct (parse_text (c :: text)) as [[|rec records]|e]; try apply Hs.
    destruct (RecordCache.set _ _ _); apply Hs.
  - unfold show_detail. destruct (is_nil (all_records st)); [exact H|]. cbv zeta.
    apply in_order_apply_current_sort; [intros _; apply Hf|exact Hx|].
    cbn [current_records current_view set_current_records set_current_view view_eqb
         all_records].
    rewrite orb_false_r. intros E. apply in_order_empty.
    cbn [current_records set_current_records set_current_view all_records].
    apply is_nil_true, E.
  - unfold show_lost. destruct (is_nil (all_records st)); [exact H|]. cbv zeta.
    apply in_order_render. intros _.
    cbn [sort_state current_records set_current_records set_current_view all_records].
    destruct (sort_state st WEIGHT) eqn:Ew; (split; [|discriminate]).
    + intros _. apply sorted_by_weight, Hf.
    + simpl. congruence.
  - unfold sort_by_weight.
    destruct (is_nil (current_records st) || view_eqb (current_view st) SUMMARY) eqn:Eg;
      [exact H|].
    apply orb_false_iff in Eg as [_ Ev].
    assert (Hv : current_view st <> SUMMARY) by (intros Hv; rewrite Hv in Ev; discriminate).
    cbv zeta. apply in_order_render. intros _. split; [|discriminate].
    cbn [sort_state current_records set_current_records set_sort_state sort_flags].
    intros ->. apply sorted_by_weight, current_weights; assumption.
  - unfold sort_by_exp.
    destruct (is_nil (current_records st) || negb (view_eqb (current_view st) DETAIL));
      [exact H|].
    cbv zeta. apply in_order_render. intros _. split; [discriminate|].
    cbn [sort_state current_records set_current_records set_sort_state sort_flags].
    intros _ ->. apply sorted_by_exp.
  - apply in_order_apply_current_sort; [|exact Hx|intros _; exact H].
    intros Hv. apply (current_weights st Hc Hv Hnan).
Qed.

Lemma weights_handle (st : app) (ev : event) :
  Forall (fun r => is_nan (weight r) = false) (all_records st) ->
  Forall (fun r => is_nan (weight r) = false)
         (all_records (handle cache_key float_sum st ev)).
Proof.
  intros H. destruct (handle_follows cache_key float_sum st ev) as [_ ->].
  destruct ev as [input| | | | |i]; try exact H.
  destruct (strip input) as [|c text]; [exact H|].
  destruct (parse_text (c :: text)) as [records|e] eqn:Hp; [|exact H].
  eapply Forall_impl; [apply (parse_text_weights _ _ Hp)|].
  intros r. apply not_negative_not_nan.
Qed.

(** X19. Whatever the user does, the records held for a record view
    are in the order that the sort flags name: heaviest first whenever
    the weight flag is set, and in the detail view most experience first
    whenever the experience flag is set. *)
Theorem sort_flags_name_the_order (events : list event) :
  in_order (after cache_key float_sum events).
Proof.
  assert (H : forall st,
             consistent st ->
             Forall (fun r => is_nan (weight r) = false) (all_records st) ->
             in_order st ->
             in_order (fold_left (handle cache_key float_sum) events st)).
  { induction events as [|ev evs IH]; intros st Hc Hn Ho; simpl; [exact Ho|].
    apply IH.
    - apply consistent_handle, Hc.
    - apply weights_handle, Hn.
    - apply in_order_handle; assumption. }
  apply H.
  - apply consistent_init.
  - constructor.
  - apply in_order_empty. reflexivity.
Qed.

End InOrder.

(** ** The weight column *)






(** ** The analysis and the cache *)

Lemma set_returns (c : RecordCache.t) (key : str) (v : list FishingRecord) :
  (1 <= RecordCache.max_size c)%Z ->
  exists d, RecordCache.set c key v =
            Ret {| RecordCache.max_size := RecordCache.max_size c;
                   RecordCache.cache := RecordCache.dict_set key v d |}.
Proof.
  intros Hm. unfold RecordCache.set.
  destruct (Z.leb_spec (RecordCache.max_size c)
                       (Z.of_nat (length (RecordCache.cache c)))) as [Hle|Hlt].
  - destruct (RecordCache.cache c) as [|[k0 v0] d]; [simpl in Hle; lia|].
    simpl. eauto.
  - simpl. eauto.
Qed.

Section Analysis.

Variable cache_key : str -> str.
Variable float_sum : list float -> float.

(** X21. An analysis of text that parses to records, on a cache of
    capacity 1 or more, leaves those records in the cache under the key
    of the stripped text, where [get] finds them, and holds them as the
    records of the window, in the summary view. *)
Theorem analysis_stores_the_records (input : str) (st : app)
        (records : list FishingRecord) :
  (1 <= RecordCache.max_size (cache st))%Z ->
  parse_text (strip input) = Ret records ->
  records <> [] ->
  let st' := analyze cache_key float_sum input st in
  RecordCache.get (cache st') (cache_key (strip input)) = Some records /\
  all_records st' = records /\
  current_view st' = SUMMARY.
Proof.
  intros Hm Hp Hne. unfold analyze. cbv zeta.
  destruct (strip input) as [|c text] eqn:Hs.
  { vm_compute in Hp. injection Hp as <-. contradiction. }
  rewrite Hp. destruct records as [|rec records]; [contradiction|].
  cbn [all_records cache set_all_records _show_message clear_table set_table_container].
  destruct (set_returns (cache st) (cache_key (c :: text)) (rec :: records) Hm) as [d ->].
  match goal with |- context [show_summary float_sum ?s] =>
    destruct (summary_widgets float_sum s) as (t & -> & _)
  end.
  simpl. unfold RecordCache.get. simpl.
  rewrite dict_get_set, str_eqb_refl. auto.
Qed.

(** What [show_summary] draws is decided by the records, the check
    boxes and what it leaves alone. *)
Lemma show_summary_same (s1 s2 : app) :
  cache s1 = cache s2 -> all_records s1 = all_records s2 ->
  current_records s1 = current_records s2 -> sort_state s1 = sort_state s2 ->
  rod_vars s1 = rod_vars s2 ->
  show_summary float_sum s1 = show_summary float_sum s2.
Proof.
  destruct s1, s2. cbn [cache all_records current_records sort_state rod_vars].
  intros -> -> -> -> ->. reflexivity.
Qed.

(** X22. Drawing the summary twice shows what drawing it once shows:
    the second drawing changes nothing of the state. *)
Theorem summary_drawn_twice (st : app) :
  show_summary float_sum (show_summary float_sum st) = show_summary float_sum st.
Proof.
  destruct (summary_widgets float_sum st) as (t & H & _).
  apply show_summary_same; rewrite H; reflexivity.
Qed.

End Analysis.

(** ** The further theorems at concrete inputs *)

Lemma records_follow_the_finalizing_lines_witness :
  List.map tag sample_records = omap finalizes (splitlines (strip sample_log)).
Proof.
  apply (records_follow_the_finalizing_lines sample_log sample_records).
  vm_compute. reflexivity.
Defined.

Lemma parsed_records_are_well_formed_witness : Forall well_formed sample_records.
Proof.
  apply (parsed_records_are_well_formed sample_log sample_records).
  vm_compute. reflexivity.
Defined.

Lemma parsed_weights_are_not_negative_witness :
  Forall (fun rec => not_negative (weight rec) = true) sample_records.
Proof.
  apply (parsed_weights_are_not_negative sample_log sample_records).
  vm_compute. reflexivity.
Defined.

Lemma pending_hooks_are_bounded_witness :
  (size (hook_cache {| records := [];
                       hook_cache :=
                         <[2%Z := PHook (u "10:00") 2 (u "鲤鱼") Literal.float_2_5]> ∅ |})
   <= 10)%nat /\
  forall r p,
    hook_cache {| records := [];
                  hook_cache :=
                    <[2%Z := PHook (u "10:00") 2 (u "鲤鱼") Literal.float_2_5]> ∅ |} !! r
    = Some p ->
    (0 <= r <= 9)%Z /\ exists t f w, p = PHook t r f w.
Proof.
  apply (pending_hooks_are_bounded [u "10:00 : 鱼上钩了！鱼竿：2，鱼信息:【鲤鱼】2.5kg"]).
  vm_compute. reflexivity.
Defined.

Lemma slots_are_parsed_independently_witness :
  parse_text sample_log_1 = Ret (List.filter (rod_is 1) sample_records).
Proof.
  apply (slots_are_parsed_independently 1 sample_log sample_log_1 sample_records).
  - vm_compute. reflexivity.
  - vm_compute. reflexivity.
Defined.

Lemma lost_line_takes_the_last_event_of_its_slot_witness :
  nth_error sample_records (length (omap finalizes (firstn 4 sample_lines))) =
  Some (lost_record 1 (u "10:04") (last_event 1 None (firstn 4 sample_lines))).
Proof.
  apply (lost_line_takes_the_last_event_of_its_slot
           sample_log (firstn 4 sample_lines) (skipn 5 sample_lines)
           (u "10:04 : 鱼脱钩了！鱼竿：1") (u "10:04") (u "？") 1 float_zero).
  - vm_compute. reflexivity.
  - vm_compute. reflexivity.
  - vm_compute. reflexivity.
Defined.

Lemma padding_is_ignored_witness :
  parse_text ([32; 10] ++ sample_log ++ [10; 9]) = parse_text sample_log.
Proof.
  apply (padding_is_ignored [32; 10] sample_log [10; 9]).
  - constructor; [reflexivity|]. constructor; [reflexivity|constructor].
  - constructor; [reflexivity|]. constructor; [reflexivity|constructor].
Defined.

Lemma set_then_get_witness :
  RecordCache.get
    {| RecordCache.max_size := 1; RecordCache.cache := [([107], sample_records)] |}
    [107] = Some sample_records /\
  RecordCache.max_size
    {| RecordCache.max_size := 1; RecordCache.cache := [([107], sample_records)] |} =
  RecordCache.max_size {| RecordCache.max_size := 1; RecordCache.cache := [([106], [])] |}.
Proof.
  apply (set_then_get
           {| RecordCache.max_size := 1; RecordCache.cache := [([106], [])] |}).
  reflexivity.
Defined.

Lemma set_raises_without_capacity_witness :
  run [OpGet [107]; OpSet [107] sample_records] (new 0) = Raise StopIteration.
Proof.
  apply (proj2 set_raises_without_capacity 0%Z [OpGet [107]; OpSet [107] sample_records]).
  - lia.
  - reflexivity.
Defined.

Lemma size_after_set_witness :
  length (RecordCache.cache
            {| RecordCache.max_size := 2; RecordCache.cache := [([98], sample_records)] |}) =
  match evicts {| RecordCache.max_size := 2;
                  RecordCache.cache := [([97], []); ([98], [])] |},
        RecordCache.get {| RecordCache.max_size := 2;
                           RecordCache.cache := [([97], []); ([98], [])] |} [98] with
  | None, None =>
    S (length (RecordCache.cache {| RecordCache.max_size := 2;
                                    RecordCache.cache := [([97], []); ([98], [])] |}))
  | None, Some _ =>
    length (RecordCache.cache {| RecordCache.max_size := 2;
                                 RecordCache.cache := [([97], []); ([98], [])] |})
  | Some k0, None =>
    length (RecordCache.cache {| RecordCache.max_size := 2;
                                 RecordCache.cache := [([97], []); ([98], [])] |})
  | Some k0, Some _ =>
    if str_eqb k0 [98]
    then length (RecordCache.cache {| RecordCache.max_size := 2;
                                      RecordCache.cache := [([97], []); ([98], [])] |})
    else pred (length (RecordCache.cache
                         {| RecordCache.max_size := 2;
                            RecordCache.cache := [([97], []); ([98], [])] |}))
  end.
Proof.
  apply (size_after_set
           {| RecordCache.max_size := 2; RecordCache.cache := [([97], []); ([98], [])] |}
           {| RecordCache.max_size := 2; RecordCache.cache := [([98], sample_records)] |}
           [98] sample_records).
  - simpl. apply NoDup_cons. split; [|apply NoDup_singleton].
    intros H. apply list_elem_of_singleton in H. discriminate H.
  - reflexivity.
Defined.

Lemma sort_by_weight_orders_the_records_witness :
  let st' := sort_by_weight sample_window in
  sort_state st' WEIGHT = negb (sort_state sample_window WEIGHT) /\
  sort_state st' EXP = false /\
  Permutation (current_records st') (current_records sample_window) /\
  StronglySorted
    (fun a b => if sort_state st' WEIGHT
                then flt (weight a) (weight b) = false
                else flt (weight b) (weight a) = false)
    (current_records st') /\
  (forall k, is_nan (weight k) = false ->
             List.filter (same_key by_weight k) (current_records st') =
             List.filter (same_key by_weight k) (current_records sample_window)) /\
  (get_selected_rods sample_window <> [] ->
   table_container st' =
   List.map row_of (List.filter (fun r => rod_in (rod r) (get_selected_rods sample_window))
                                (current_records st'))).
Proof.
  apply (sort_by_weight_orders_the_records sample_window).
  - vm_compute. discriminate.
  - vm_compute. discriminate.
  - vm_compute. repeat constructor.
Defined.

Lemma sort_by_exp_orders_the_captures_witness :
  let st' := sort_by_exp sample_window in
  sort_state st' EXP = negb (sort_state sample_window EXP) /\
  sort_state st' WEIGHT = false /\
  Permutation (current_records st') (current_records sample_window) /\
  StronglySorted
    (fun a b => if sort_state st' EXP then (exp b <= exp a)%Z else (exp a <= exp b)%Z)
    (current_records st') /\
  (forall k, List.filter (same_key by_exp k) (current_records st') =
             List.filter (same_key by_exp k) (current_records sample_window)).
Proof.
  apply (proj2 (proj2 (sort_by_exp_orders_the_captures sample_window))).
  - vm_compute. reflexivity.
  - vm_compute. discriminate.
Defined.

Lemma detail_view_without_captures_is_not_drawn_witness :
  let st := set_all_records (List.filter is_lost sample_records) init in
  let st' := show_detail st in
  current_view st' = DETAIL /\ current_records st' = [] /\
  table_container st' = table_container st /\
  header_shown st' = header_shown st /\
  sort_by_weight st' = st' /\ sort_by_exp st' = st' /\
  forall i, table_container (toggle_rod i st') = table_container st.
Proof.
  apply (proj1 detail_view_without_captures_is_not_drawn
               (set_all_records (List.filter is_lost sample_records) init)).
  - vm_compute. discriminate.
  - vm_compute. repeat constructor.
Defined.

Lemma summary_counts_only_the_rods_on_the_panel_witness :
  table_container
    (show_summary sum_in_order
       (set_all_records (List.filter on_panel (all_records sample_window)) sample_window)) =
  table_container (show_summary sum_in_order sample_window).
Proof.
  apply (summary_counts_only_the_rods_on_the_panel sum_in_order sample_window).
  replace (List.map fst (rod_vars sample_window)) with [1; 2; 3; 4; 5]%Z
    by (vm_compute; reflexivity).
  repeat (constructor; [lia|]). constructor.
Defined.

Lemma table_is_in_step_with_the_records_witness :
  let st := after (fun text => text) sum_in_order [Analyze sample_log; ShowDetail] in
  _render_data st = st /\
  table_container st =
  match get_selected_rods st with
  | [] => [MessageLabel (u "请至少选择一个鱼竿")]
  | selected_rods =>
    List.map row_of
             (List.filter (fun r => rod_in (rod r) selected_rods) (current_records st))
  end /\
  (get_selected_rods st <> [] -> header_shown st = true).
Proof.
  apply (table_is_in_step_with_the_records (fun text => text) sum_in_order
           [Analyze sample_log; ShowDetail]).
  - vm_compute. discriminate.
  - vm_compute. discriminate.
Defined.

Lemma window_state_is_consistent_witness :
  Permutation
    (current_records sample_window)
    (List.filter (fun r => negb (is_lost r)) (all_records sample_window)).
Proof.
  refine (proj1 (window_state_is_consistent (fun text => text) sum_in_order
                   [Analyze sample_log; ShowDetail]) _).
  vm_compute. reflexivity.
Defined.

Lemma sort_flags_name_the_order_witness :
  StronglySorted
    (fun a b => flt (weight a) (weight b) = false)
    (current_records
       (after (fun text => text) sum_in_order [Analyze sample_log; ShowLost; SortByWeight])).
Proof.
  refine (proj1 (sort_flags_name_the_order (fun text => text) sum_in_order
                   [Analyze sample_log; ShowLost; SortByWeight] _) _).
  - vm_compute. discriminate.
  - vm_compute. reflexivity.
Defined.


Lemma analysis_stores_the_records_witness :
  let st' := analyze (fun text => text) sum_in_order sample_log init in
  RecordCache.get (cache st') ((fun text => text) (strip sample_log)) = Some sample_records /\
  all_records st' = sample_records /\
  current_view st' = SUMMARY.
Proof.
  apply (analysis_stores_the_records (fun text => text) sum_in_order sample_log init
                                     sample_records).
  - vm_compute. discriminate.
  - vm_compute. reflexivity.
  - vm_compute. discriminate.
Defined.

(** * Hooks, captures and losses over a whole pass

    What [parse_text] returns for a text that holds an event, said of
    the output itself: the pass returns when no line of the text carries
    a number that does not convert, and raises otherwise, whatever events
    the text holds. *)

Lemma parse_text_aborts (text : str) :
  ~ Forall (fun l => ~ bad_number l) (splitlines (strip text)) ->
  parse_text text = Raise ValueError.
Proof.
  intros H. unfold parse_text.
  destruct (parse_lines (splitlines (strip text)) start) as [st|e] eqn:Hp.
  - exfalso. apply H, (parse_lines_completes _ start). eauto.
  - apply parse_lines_raises in Hp as ->. reflexivity.
Qed.

(** The pass around one line of a text that has no such number: it
    reaches the line, the line takes its step, and the records before
    and after the step are those of the lines before and after. *)
Lemma pass_around (text : str) (lines rest : list str) (line : str) :
  splitlines (strip text) = lines ++ line :: rest ->
  Forall (fun l => ~ bad_number l) (splitlines (strip text)) ->
  exists st st' later,
    parse_lines lines start = Ret st /\
    parse_step st line = Ret st' /\
    parse_text text = Ret (records st' ++ later) /\
    List.map tag (records st) = omap finalizes lines /\
    List.map tag later = omap finalizes rest.
Proof.
  intros Hl Hgood. unfold parse_text. rewrite Hl in Hgood |- *.
  apply (parse_lines_completes _ start) in Hgood as [stf Hf].
  rewrite Hf. rewrite parse_lines_app in Hf.
  apply bind_ret in Hf as (st & Hst & Hf). simpl in Hf.
  apply bind_ret in Hf as (st' & Hstep & Hrest).
  destruct (parse_lines_records _ _ _ Hrest) as [later Hlater].
  exists st, st', later. split; [exact Hst|]. split; [exact Hstep|].
  split; [simpl; rewrite Hlater; reflexivity|]. split.
  - apply parse_lines_tags in Hst. exact Hst.
  - apply parse_lines_tags in Hrest. rewrite Hlater, map_app in Hrest.
    apply app_inv_head in Hrest. exact Hrest.
Qed.

Lemma finalizes_hook (line t f : str) (r : Z) (w : float) :
  parse_line_fast line = Ret (Some (PHook t r f w)) -> finalizes line = None.
Proof. intros H. unfold finalizes, event_of. rewrite H. reflexivity. Qed.

(** A hook that is pending stays a pending hook, of that slot, over
    lines that do not resolve it. *)
Lemma last_event_pending (r : Z) (lines : list str) : forall seen,
  is_Some (pending_of seen) ->
  Forall (not_resolving r) lines ->
  is_Some (pending_of (last_event r seen lines)).
Proof.
  induction lines as [|l lines IH]; intros seen Hseen Hall; [exact Hseen|].
  apply Forall_cons in Hall as [[Hcap Hlost] Hall].
  change (l :: lines) with ([l] ++ lines). rewrite last_event_app. apply IH; [|exact Hall].
  unfold last_event, event_of. cbn [fold_left].
  destruct (parse_line_fast l) as [[p|]|e] eqn:Hp; try exact Hseen.
  destruct (Z.eqb_spec (p_rod p) r) as [Hr|Hr]; [|exact Hseen].
  destruct p as [t k f w|t k f w x c b|t k f w]; simpl in Hr; subst k.
  - simpl. eauto.
  - exfalso. eapply Hcap. reflexivity.
  - exfalso. eapply Hlost. reflexivity.
Qed.

Lemma last_event_hook (r : Z) (lines : list str) (line t f : str) (w : float)
      (seen : option parsed) :
  parse_line_fast line = Ret (Some (PHook t r f w)) ->
  last_event r seen (lines ++ [line]) = Some (PHook t r f w).
Proof.
  intros H. rewrite last_event_app. unfold last_event at 1, event_of. cbn [fold_left].
  rewrite H. simpl. rewrite Z.eqb_refl. reflexivity.
Qed.

(** C3, as amended. A text with a valid Hook line and a later valid
    Capture line for the same slot, whatever lies between them. When no
    line of the text carries a number that does not convert,
    [parse_text] returns, and what it returns holds exactly one record
    for the pair: the Hook line adds none, the Capture line adds one, of
    type capture, every field of which is the Capture line's own,
    whatever the hook held, standing between the records of the lines
    before it and those of the lines after it; and the slot has no
    pending hook once the Capture line is read. When some line carries
    such a number, [parse_text] raises [ValueError] and returns no record
    at all. The two-line input of the specification gives exactly one
    record: rod 1, fish 鲤鱼, 2.5 kg, experience 100, cost 30秒, bait
    蚯蚓. *)
Theorem capture_record_from_capture_line :
  (forall (text : str) (before mid after : list str) (hook_line capture_line : str)
          (th fh : str) (wh : float) (r : Z)
          (t f : str) (w : float) (e : Z) (c b : str),
      splitlines (strip text) = before ++ hook_line :: mid ++ capture_line :: after ->
      parse_line_fast hook_line = Ret (Some (PHook th r fh wh)) ->
      parse_line_fast capture_line = Ret (Some (PCapture t r f w e c b)) ->
      let captured :=
        {| record_type := u "capture"; time := t; rod := r; fish := f; weight := w;
           exp := e; cost := c; bait := b |} in
      (Forall (fun l => ~ bad_number l) (splitlines (strip text)) ->
       exists earlier later st',
         parse_text text = Ret (earlier ++ captured :: later) /\
         List.map tag earlier = omap finalizes before ++ omap finalizes mid /\
         List.map tag later = omap finalizes after /\
         parse_lines (before ++ hook_line :: mid ++ [capture_line]) start = Ret st' /\
         records st' = earlier ++ [captured] /\
         hook_cache st' !! r = None) /\
      (~ Forall (fun l => ~ bad_number l) (splitlines (strip text)) ->
       parse_text text = Raise ValueError)) /\
  parse_text (u "10:00 : 鱼上钩了！鱼竿：1，鱼信息:【鲤鱼】2.5kg" ++ [LF] ++
              u "10:01 : 捕获：鱼竿:1,【鲤鱼】2500克,总经验:100,耗时:30秒,鱼饵:蚯蚓") =
  Ret [{| record_type := u "capture"; time := u "10:01"; rod := 1; fish := u "鲤鱼";
          weight := Literal.float_2_5; exp := 100; cost := u "30秒"; bait := u "蚯蚓" |}].
Proof.
  split; [|vm_compute; reflexivity].
  intros text before mid after hook_line capture_line th fh wh r t f w e c b
         Hl Hh Hc captured.
  split; [|apply parse_text_aborts].
  intros Hgood.
  assert (Hl' : splitlines (strip text) =
                (before ++ hook_line :: mid) ++ capture_line :: after).
  { rewrite Hl, <- app_assoc. reflexivity. }
  destruct (pass_around _ _ _ _ Hl' Hgood) as (st & st' & later & Hst & Hstep & Hout & Hb & Ha).
  rewrite (parse_step_capture st _ _ _ _ _ _ _ _ Hc) in Hstep. fold captured in Hstep.
  injection Hstep as <-. cbn [records] in Hout.
  exists (records st), later,
    {| records := records st ++ [captured]; hook_cache := delete r (hook_cache st) |}.
  split; [rewrite Hout, <- app_assoc; reflexivity|]. split; [|split; [exact Ha|]].
  - rewrite Hb. change (hook_line :: mid) with ([hook_line] ++ mid).
    rewrite !omap_app. cbn [omap list_omap].
    rewrite (finalizes_hook _ _ _ _ _ Hh). reflexivity.
  - split; [|split; [reflexivity|apply lookup_delete_eq]].
    replace (before ++ hook_line :: mid ++ [capture_line])
      with ((before ++ hook_line :: mid) ++ [capture_line])
      by (rewrite <- app_assoc; reflexivity).
    rewrite parse_lines_app, Hst. simpl.
    rewrite (parse_step_capture st _ _ _ _ _ _ _ _ Hc). reflexivity.
Qed.

(** C4, as amended. A text with a valid Hook line and a later valid Lost
    line for the same slot, with no event of that slot between them.
    When no line of the text carries a number that does not convert,
    [parse_text] returns, and what it returns holds exactly one record
    for the pair: the Hook line adds none, the Lost line adds one, of
    type lost, with the Hook's time, fish and weight and the bait 脱钩,
    standing between the records of the lines before it and those of the
    lines after it; the hook is pending when the Lost line is reached and
    the slot has no pending hook once it is read. When some line carries
    such a number, [parse_text] raises [ValueError] and returns no record
    at all. *)
Theorem lost_record_from_pending_hook
        (text : str) (before mid after : list str) (hook_line lost_line : str)
        (th fh : str) (wh : float) (r : Z) (tl fl : str) (wl : float) :
  splitlines (strip text) = before ++ hook_line :: mid ++ lost_line :: after ->
  parse_line_fast hook_line = Ret (Some (PHook th r fh wh)) ->
  Forall (fun l => forall p, parse_line_fast l = Ret (Some p) -> p_rod p <> r) mid ->
  parse_line_fast lost_line = Ret (Some (PLost tl r fl wl)) ->
  let lost :=
    {| record_type := u "lost"; time := th; rod := r; fish := fh; weight := wh;
       exp := 0; cost := []; bait := u "脱钩" |} in
  (Forall (fun l => ~ bad_number l) (splitlines (strip text)) ->
   exists earlier later st st',
     parse_text text = Ret (earlier ++ lost :: later) /\
     List.map tag earlier = omap finalizes before ++ omap finalizes mid /\
     List.map tag later = omap finalizes after /\
     parse_lines (before ++ hook_line :: mid) start = Ret st /\
     hook_cache st !! r = Some (PHook th r fh wh) /\
     parse_lines (before ++ hook_line :: mid ++ [lost_line]) start = Ret st' /\
     records st' = earlier ++ [lost] /\
     hook_cache st' !! r = None) /\
  (~ Forall (fun l => ~ bad_number l) (splitlines (strip text)) ->
   parse_text text = Raise ValueError).
Proof.
  intros Hl Hh Hmid Hlost lost.
  split; [|apply parse_text_aborts].
  intros Hgood.
  assert (Hl' : splitlines (strip text) =
                (before ++ hook_line :: mid) ++ lost_line :: after).
  { rewrite Hl, <- app_assoc. reflexivity. }
  destruct (pass_around _ _ _ _ Hl' Hgood) as (st & st' & later & Hst & Hstep & Hout & Hb & Ha).
  assert (Hpending : hook_cache st !! r = Some (PHook th r fh wh)).
  { pose proof Hst as Hst'. rewrite parse_lines_app in Hst'.
    apply bind_ret in Hst' as (st0 & _ & Hst'). simpl in Hst'.
    rewrite (parse_step_hook _ _ _ _ _ _ Hh) in Hst'. simpl in Hst'.
    rewrite (parse_lines_other_slot r _ _ _ Hmid Hst'). simpl. apply lookup_insert_eq. }
  rewrite (parse_step_lost_pending st _ _ _ _ _ _ Hlost Hpending) in Hstep.
  simpl in Hstep. fold lost in Hstep. injection Hstep as <-. cbn [records] in Hout.
  exists (records st), later, st,
    {| records := records st ++ [lost]; hook_cache := delete r (hook_cache st) |}.
  split; [rewrite Hout, <- app_assoc; reflexivity|]. split; [|split; [exact Ha|]].
  - rewrite Hb. change (hook_line :: mid) with ([hook_line] ++ mid).
    rewrite !omap_app. cbn [omap list_omap].
    rewrite (finalizes_hook _ _ _ _ _ Hh). reflexivity.
  - split; [exact Hst|]. split; [exact Hpending|].
    split; [|split; [reflexivity|apply lookup_delete_eq]].
    replace (before ++ hook_line :: mid ++ [lost_line])
      with ((before ++ hook_line :: mid) ++ [lost_line])
      by (rewrite <- app_assoc; reflexivity).
    rewrite parse_lines_app, Hst. simpl.
    rewrite (parse_step_lost_pending st _ _ _ _ _ _ Hlost Hpending). reflexivity.
Qed.

(** C2, as amended. A text with a valid Lost line whose slot has no
    pending hook when the line is reached: the last event of the slot
    before the line, if there is one, is no Hook. The time of the line is
    the stripped text before its separator. When no line of the text
    carries a number that does not convert, [parse_text] returns, and
    what it returns holds exactly one record for the line, of type lost,
    whose fish name is the one-character string "？" (U+FF1F, the
    full-width question mark), whose weight is 0 and whose time is the
    Lost line's own, standing between the records of the lines before it
    and those of the lines after it; the pass reaches the line with no
    entry for the slot in its table. When some line carries such a
    number, [parse_text] raises [ValueError] and returns no record at
    all. *)
Theorem lost_record_without_hook
        (text : str) (before after : list str) (line : str)
        (t f0 : str) (w0 : float) (r : Z) :
  splitlines (strip text) = before ++ line :: after ->
  parse_line_fast line = Ret (Some (PLost t r f0 w0)) ->
  pending_of (last_event r None before) = None ->
  let lost :=
    {| record_type := u "lost"; time := t; rod := r; fish := [65311];
       weight := float_zero; exp := 0; cost := []; bait := u "脱钩" |} in
  (exists p0 content, split1 SEP line = [p0; content] /\ t = strip p0) /\
  (Forall (fun l => ~ bad_number l) (splitlines (strip text)) ->
   exists earlier later st,
     parse_text text = Ret (earlier ++ lost :: later) /\
     List.map tag earlier = omap finalizes before /\
     List.map tag later = omap finalizes after /\
     parse_lines before start = Ret st /\
     records st = earlier /\
     hook_cache st !! r = None) /\
  (~ Forall (fun l => ~ bad_number l) (splitlines (strip text)) ->
   parse_text text = Raise ValueError).
Proof.
  intros Hl Hline Hnone lost.
  split; [|split; [|apply parse_text_aborts]].
  - pose proof (parse_line_fast_outcome line) as Ho. rewrite Hline in Ho.
    inversion Ho; subst; eauto.
  - intros Hgood.
    destruct (pass_around _ _ _ _ Hl Hgood)
      as (st & st' & later & Hst & Hstep & Hout & Hb & Ha).
    assert (Hc : hook_cache st !! r = None).
    { rewrite <- Hnone. apply (parse_lines_pending r _ None _ _ Hst). apply lookup_empty. }
    rewrite (parse_step_lost_alone st _ _ _ _ _ Hline Hc) in Hstep.
    change (u "？") with [65311] in Hstep. fold lost in Hstep.
    injection Hstep as <-. cbn [records] in Hout.
    exists (records st), later, st.
    split; [rewrite Hout, <- app_assoc; reflexivity|]. auto 6.
Qed.

(** C6, as amended. A text in which a second valid Hook line for a slot
    arrives while a hook of that slot is pending (no Capture and no Lost
    line of the slot since the first Hook line) and a valid Lost line of
    the slot follows, with no event of the slot between the second Hook
    line and the Lost line. When no line of the text carries a number
    that does not convert, [parse_text] returns; the second Hook line
    finds an entry for the slot in the pending table and puts its own in
    that place, adding no record; what [parse_text] returns holds one
    record for the Lost line, built from the second hook's time, fish and
    weight, standing after the records of the other lines before it, with
    none for either Hook line. Whether or not the pass returns, the first
    hook leaves no trace: [parse_text] gives for the text what it gives
    for the text without the first Hook line. When some line carries a
    number that does not convert, [parse_text] raises [ValueError] and
    returns no record at all. *)
Theorem second_hook_replaces_first
        (text : str) (before mid mid2 after : list str) (first second lost_line : str)
        (t1 f1 : str) (w1 : float) (t2 f2 : str) (w2 : float) (r : Z)
        (tl fl : str) (wl : float) :
  splitlines (strip text) =
    before ++ first :: mid ++ second :: mid2 ++ lost_line :: after ->
  parse_line_fast first = Ret (Some (PHook t1 r f1 w1)) ->
  Forall (not_resolving r) mid ->
  parse_line_fast second = Ret (Some (PHook t2 r f2 w2)) ->
  Forall (fun l => forall p, parse_line_fast l = Ret (Some p) -> p_rod p <> r) mid2 ->
  parse_line_fast lost_line = Ret (Some (PLost tl r fl wl)) ->
  let lost :=
    {| record_type := u "lost"; time := t2; rod := r; fish := f2; weight := w2;
       exp := 0; cost := []; bait := u "脱钩" |} in
  (Forall (fun l => ~ bad_number l) (splitlines (strip text)) ->
   exists earlier later s0,
     parse_text text = Ret (earlier ++ lost :: later) /\
     List.map tag earlier =
       omap finalizes before ++ omap finalizes mid ++ omap finalizes mid2 /\
     List.map tag later = omap finalizes after /\
     parse_lines (before ++ first :: mid) start = Ret s0 /\
     is_Some (hook_cache s0 !! r) /\
     parse_lines (before ++ first :: mid ++ [second]) start =
       Ret {| records := records s0;
              hook_cache := <[r := PHook t2 r f2 w2]> (hook_cache s0) |}) /\
  (forall text',
      splitlines (strip text') = before ++ mid ++ second :: mid2 ++ lost_line :: after ->
      parse_text text = parse_text text') /\
  (~ Forall (fun l => ~ bad_number l) (splitlines (strip text)) ->
   parse_text text = Raise ValueError).
Proof.
  intros Hl H1 Hmid H2 Hmid2 Hlost lost.
  split; [|split; [|apply parse_text_aborts]].
  - intros Hgood.
    assert (Hl' : splitlines (strip text) =
                  (((before ++ first :: mid) ++ [second]) ++ mid2) ++ lost_line :: after).
    { rewrite Hl, <- !app_assoc. reflexivity. }
    destruct (pass_around _ _ _ _ Hl' Hgood)
      as (st & st' & later & Hst & Hstep & Hout & Hb & Ha).
    rewrite parse_lines_app in Hst. apply bind_ret in Hst as (s1 & Hs1 & Hs2).
    pose proof Hs1 as Hs1'. rewrite parse_lines_app in Hs1'.
    apply bind_ret in Hs1' as (s0 & Hs0 & Hsecond). simpl in Hsecond.
    rewrite (parse_step_hook _ _ _ _ _ _ H2) in Hsecond. simpl in Hsecond.
    injection Hsecond as <-.
    assert (Hpending : hook_cache st !! r = Some (PHook t2 r f2 w2)).
    { rewrite (parse_lines_other_slot r _ _ _ Hmid2 Hs2). simpl. apply lookup_insert_eq. }
    rewrite (parse_step_lost_pending st _ _ _ _ _ _ Hlost Hpending) in Hstep.
    simpl in Hstep. fold lost in Hstep. injection Hstep as <-. cbn [records] in Hout.
    exists (records st), later, s0.
    split; [rewrite Hout, <- app_assoc; reflexivity|]. split; [|split; [exact Ha|]].
    + rewrite Hb. change (first :: mid) with ([first] ++ mid).
      rewrite !omap_app. cbn [omap list_omap].
      rewrite (finalizes_hook _ _ _ _ _ H1), (finalizes_hook _ _ _ _ _ H2).
      rewrite !app_nil_r, <- !app_assoc. reflexivity.
    + split; [exact Hs0|]. split.
      * rewrite (parse_lines_pending r _ None _ _ Hs0 (lookup_empty r)).
        change (first :: mid) with ([first] ++ mid).
        rewrite app_assoc, last_event_app. apply last_event_pending; [|exact Hmid].
        rewrite (last_event_hook r before first _ _ _ None H1). simpl. eauto.
      * replace (before ++ first :: mid ++ [second])
          with ((before ++ first :: mid) ++ [second])
          by (rewrite <- app_assoc; reflexivity).
        exact Hs1.
  - intros text' Hl'. unfold parse_text. rewrite Hl, Hl'.
    rewrite (first_hook_forgotten r before mid (mid2 ++ lost_line :: after) first second
               _ _ _ _ _ _ H1 H2 Hmid).
    reflexivity.
Qed.

(** ** The four theorems at concrete inputs *)

Ltac not_bad :=
  let Hb := fresh "Hb" in
  intros Hb; apply bad_number_raises in Hb; vm_compute in Hb; discriminate Hb.

Lemma pair_log_converts :
  Forall (fun l => ~ bad_number l) (splitlines (strip pair_log)).
Proof.
  replace (splitlines (strip pair_log)) with pair_lines by (vm_compute; reflexivity).
  unfold pair_lines. repeat (constructor; [not_bad|]). constructor.
Qed.

Lemma twice_log_converts :
  Forall (fun l => ~ bad_number l) (splitlines (strip twice_log)).
Proof.
  replace (splitlines (strip twice_log)) with twice_lines by (vm_compute; reflexivity).
  unfold twice_lines. repeat (constructor; [not_bad|]). constructor.
Qed.

Lemma capture_record_from_capture_line_witness :
  exists earlier later st',
    parse_text pair_log =
      Ret (earlier ++
           {| record_type := u "capture"; time := u "10:01"; rod := 1; fish := u "鲤鱼";
              weight := Literal.float_2_5; exp := 100; cost := u "30秒";
              bait := u "蚯蚓" |} :: later) /\
    List.map tag earlier =
      omap finalizes [u "09:58 : 鱼脱钩了！鱼竿：2"] ++
      omap finalizes [u "10:00 : 鱼上钩了！鱼竿：3，鱼信息:【草鱼】500g"] /\
    List.map tag later =
      omap finalizes [u "10:02 : 鱼脱钩了！鱼竿：3"; u "10:03 : 鱼脱钩了！鱼竿：3"] /\
    parse_lines
      ([u "09:58 : 鱼脱钩了！鱼竿：2"] ++
       u "10:00 : 鱼上钩了！鱼竿：1，鱼信息:【鲤鱼】2.5kg" ::
       [u "10:00 : 鱼上钩了！鱼竿：3，鱼信息:【草鱼】500g"] ++
       [u "10:01 : 捕获：鱼竿:1,【鲤鱼】2500克,总经验:100,耗时:30秒,鱼饵:蚯蚓"]) start =
      Ret st' /\
    records st' =
      earlier ++
      [{| record_type := u "capture"; time := u "10:01"; rod := 1; fish := u "鲤鱼";
          weight := Literal.float_2_5; exp := 100; cost := u "30秒";
          bait := u "蚯蚓" |}] /\
    hook_cache st' !! 1%Z = None.
Proof.
  refine (proj1 (proj1 capture_record_from_capture_line
    pair_log
    [u "09:58 : 鱼脱钩了！鱼竿：2"]
    [u "10:00 : 鱼上钩了！鱼竿：3，鱼信息:【草鱼】500g"]
    [u "10:02 : 鱼脱钩了！鱼竿：3"; u "10:03 : 鱼脱钩了！鱼竿：3"]
    (u "10:00 : 鱼上钩了！鱼竿：1，鱼信息:【鲤鱼】2.5kg")
    (u "10:01 : 捕获：鱼竿:1,【鲤鱼】2500克,总经验:100,耗时:30秒,鱼饵:蚯蚓")
    (u "10:00") (u "鲤鱼") Literal.float_2_5 1%Z
    (u "10:01") (u "鲤鱼") Literal.float_2_5 100%Z (u "30秒") (u "蚯蚓")
    _ _ _) pair_log_converts).
  - vm_compute. reflexivity.
  - vm_compute. reflexivity.
  - vm_compute. reflexivity.
Defined.

Lemma lost_record_from_pending_hook_witness :
  exists earlier later st st',
    parse_text pair_log =
      Ret (earlier ++
           {| record_type := u "lost"; time := u "10:00"; rod := 3; fish := u "草鱼";
              weight := Literal.float_0_5; exp := 0; cost := [];
              bait := u "脱钩" |} :: later) /\
    List.map tag earlier =
      omap finalizes [u "09:58 : 鱼脱钩了！鱼竿：2";
                      u "10:00 : 鱼上钩了！鱼竿：1，鱼信息:【鲤鱼】2.5kg"] ++
      omap finalizes
        [u "10:01 : 捕获：鱼竿:1,【鲤鱼】2500克,总经验:100,耗时:30秒,鱼饵:蚯蚓"] /\
    List.map tag later = omap finalizes [u "10:03 : 鱼脱钩了！鱼竿：3"] /\
    parse_lines
      ([u "09:58 : 鱼脱钩了！鱼竿：2";
        u "10:00 : 鱼上钩了！鱼竿：1，鱼信息:【鲤鱼】2.5kg"] ++
       u "10:00 : 鱼上钩了！鱼竿：3，鱼信息:【草鱼】500g" ::
       [u "10:01 : 捕获：鱼竿:1,【鲤鱼】2500克,总经验:100,耗时:30秒,鱼饵:蚯蚓"]) start =
      Ret st /\
    hook_cache st !! 3%Z = Some (PHook (u "10:00") 3 (u "草鱼") Literal.float_0_5) /\
    parse_lines
      ([u "09:58 : 鱼脱钩了！鱼竿：2";
        u "10:00 : 鱼上钩了！鱼竿：1，鱼信息:【鲤鱼】2.5kg"] ++
       u "10:00 : 鱼上钩了！鱼竿：3，鱼信息:【草鱼】500g" ::
       [u "10:01 : 捕获：鱼竿:1,【鲤鱼】2500克,总经验:100,耗时:30秒,鱼饵:蚯蚓"] ++
       [u "10:02 : 鱼脱钩了！鱼竿：3"]) start =
      Ret st' /\
    records st' =
      earlier ++
      [{| record_type := u "lost"; time := u "10:00"; rod := 3; fish := u "草鱼";
          weight := Literal.float_0_5; exp := 0; cost := []; bait := u "脱钩" |}] /\
    hook_cache st' !! 3%Z = None.
Proof.
  refine (proj1 (lost_record_from_pending_hook
    pair_log
    [u "09:58 : 鱼脱钩了！鱼竿：2"; u "10:00 : 鱼上钩了！鱼竿：1，鱼信息:【鲤鱼】2.5kg"]
    [u "10:01 : 捕获：鱼竿:1,【鲤鱼】2500克,总经验:100,耗时:30秒,鱼饵:蚯蚓"]
    [u "10:03 : 鱼脱钩了！鱼竿：3"]
    (u "10:00 : 鱼上钩了！鱼竿：3，鱼信息:【草鱼】500g")
    (u "10:02 : 鱼脱钩了！鱼竿：3")
    (u "10:00") (u "草鱼") Literal.float_0_5 3%Z
    (u "10:02") (u "？") float_zero
    _ _ _ _) pair_log_converts).
  - vm_compute. reflexivity.
  - vm_compute. reflexivity.
  - constructor; [|constructor]. intros p Hp.
    assert (Hline : parse_line_fast
                      (u "10:01 : 捕获：鱼竿:1,【鲤鱼】2500克,总经验:100,耗时:30秒,鱼饵:蚯蚓") =
                    Ret (Some (PCapture (u "10:01") 1 (u "鲤鱼") Literal.float_2_5 100
                                        (u "30秒") (u "蚯蚓"))))
      by (vm_compute; reflexivity).
    rewrite Hline in Hp. injection Hp as <-. simpl. lia.
  - vm_compute. reflexivity.
Defined.

Lemma lost_record_without_hook_witness :
  exists earlier later st,
    parse_text pair_log =
      Ret (earlier ++
           {| record_type := u "lost"; time := u "10:03"; rod := 3; fish := [65311];
              weight := float_zero; exp := 0; cost := []; bait := u "脱钩" |} :: later) /\
    List.map tag earlier = omap finalizes (firstn 5 pair_lines) /\
    List.map tag later = omap finalizes [] /\
    parse_lines (firstn 5 pair_lines) start = Ret st /\
    records st = earlier /\
    hook_cache st !! 3%Z = None.
Proof.
  refine (proj1 (proj2 (lost_record_without_hook
    pair_log (firstn 5 pair_lines) [] (u "10:03 : 鱼脱钩了！鱼竿：3")
    (u "10:03") (u "？") float_zero 3%Z _ _ _)) pair_log_converts).
  - vm_compute. reflexivity.
  - vm_compute. reflexivity.
  - vm_compute. reflexivity.
Defined.

Lemma second_hook_replaces_first_witness :
  exists earlier later s0,
    parse_text twice_log =
      Ret (earlier ++
           {| record_type := u "lost"; time := u "10:02"; rod := 1; fish := u "鲫鱼";
              weight := Literal.float_1_2; exp := 0; cost := [];
              bait := u "脱钩" |} :: later) /\
    List.map tag earlier =
      omap finalizes [] ++
      omap finalizes [u "10:01 : 鱼上钩了！鱼竿：2，鱼信息:【草鱼】500g"] ++
      omap finalizes [u "10:03 : 鱼脱钩了！鱼竿：2"] /\
    List.map tag later =
      omap finalizes
        [u "10:05 : 捕获：鱼竿:2,【鲤鱼】2500克,总经验:100,耗时:30秒,鱼饵:蚯蚓"] /\
    parse_lines
      ([] ++ u "10:00 : 鱼上钩了！鱼竿：1，鱼信息:【鲤鱼】2.5kg" ::
       [u "10:01 : 鱼上钩了！鱼竿：2，鱼信息:【草鱼】500g"]) start = Ret s0 /\
    is_Some (hook_cache s0 !! 1%Z) /\
    parse_lines
      ([] ++ u "10:00 : 鱼上钩了！鱼竿：1，鱼信息:【鲤鱼】2.5kg" ::
       [u "10:01 : 鱼上钩了！鱼竿：2，鱼信息:【草鱼】500g"] ++
       [u "10:02 : 鱼上钩了！鱼竿：1，鱼信息:【鲫鱼】1.2kg"]) start =
      Ret {| records := records s0;
             hook_cache :=
               <[1%Z := PHook (u "10:02") 1 (u "鲫鱼") Literal.float_1_2]>
                 (hook_cache s0) |}.
Proof.
  refine (proj1 (second_hook_replaces_first
    twice_log
    []
    [u "10:01 : 鱼上钩了！鱼竿：2，鱼信息:【草鱼】500g"]
    [u "10:03 : 鱼脱钩了！鱼竿：2"]
    [u "10:05 : 捕获：鱼竿:2,【鲤鱼】2500克,总经验:100,耗时:30秒,鱼饵:蚯蚓"]
    (u "10:00 : 鱼上钩了！鱼竿：1，鱼信息:【鲤鱼】2.5kg")
    (u "10:02 : 鱼上钩了！鱼竿：1，鱼信息:【鲫鱼】1.2kg")
    (u "10:04 : 鱼脱钩了！鱼竿：1")
    (u "10:00") (u "鲤鱼") Literal.float_2_5
    (u "10:02") (u "鲫鱼") Literal.float_1_2 1%Z
    (u "10:04") (u "？") float_zero
    _ _ _ _ _ _) twice_log_converts).
  - vm_compute. reflexivity.
  - vm_compute. reflexivity.
  - constructor; [|constructor]. split.
    + intros t f w e c b Hp.
      assert (Hline : parse_line_fast
                        (u "10:01 : 鱼上钩了！鱼竿：2，鱼信息:【草鱼】500g") =
                      Ret (Some (PHook (u "10:01") 2 (u "草鱼") Literal.float_0_5)))
        by (vm_compute; reflexivity).
      rewrite Hline in Hp. discriminate Hp.
    + intros t f w Hp.
      assert (Hline : parse_line_fast
                        (u "10:01 : 鱼上钩了！鱼竿：2，鱼信息:【草鱼】500g") =
                      Ret (Some (PHook (u "10:01") 2 (u "草鱼") Literal.float_0_5)))
        by (vm_compute; reflexivity).
      rewrite Hline in Hp. discriminate Hp.
  - vm_compute. reflexivity.
  - constructor; [|constructor]. intros p Hp.
    assert (Hline : parse_line_fast (u "10:03 : 鱼脱钩了！鱼竿：2") =
                    Ret (Some (PLost (u "10:03") 2 (u "？") float_zero)))
      by (vm_compute; reflexivity).
    rewrite Hline in Hp. injection Hp as <-. simpl. lia.
  - vm_compute. reflexivity.
Defined.

(** ** Where the four claims as written fail *)

(** C2 as written fails twice over. The fish name of the record is the
    full-width question mark U+FF1F, not the character "?" (U+003F). And
    a valid Lost line with no pending hook gives no record when a later
    line carries a number that does not convert: the pass raises. *)
Lemma lost_without_hook_counterexample :
  (parse_text (u "10:01 : 鱼脱钩了！鱼竿：1") =
     Ret [{| record_type := u "lost"; time := u "10:01"; rod := 1; fish := [65311];
             weight := float_zero; exp := 0; cost := []; bait := u "脱钩" |}] /\
   [65311] <> u "?") /\
  (parse_line_fast (u "10:01 : 鱼脱钩了！鱼竿：1") =
     Ret (Some (PLost (u "10:01") 1 (u "？") float_zero)) /\
   parse_text (u "10:01 : 鱼脱钩了！鱼竿：1" ++ [LF] ++
               u "10:02 : 鱼上钩了！鱼竿：2，鱼信息:【鲤鱼】1.2.3kg") = Raise ValueError).
Proof.
  split; [split; [vm_compute; reflexivity|vm_compute; discriminate]|].
  split; vm_compute; reflexivity.
Qed.

(** C3 as written fails: a valid Hook line and a valid Capture line of
    the same slot give no record when another line of the text carries a
    number that does not convert, before them or after them. *)
Lemma capture_pair_counterexample :
  parse_line_fast (u "10:00 : 鱼上钩了！鱼竿：1，鱼信息:【鲤鱼】2.5kg") =
    Ret (Some (PHook (u "10:00") 1 (u "鲤鱼") Literal.float_2_5)) /\
  parse_line_fast (u "10:01 : 捕获：鱼竿:1,【鲤鱼】2500克,总经验:100,耗时:30秒,鱼饵:蚯蚓") =
    Ret (Some (PCapture (u "10:01") 1 (u "鲤鱼") Literal.float_2_5 100 (u "30秒")
                        (u "蚯蚓"))) /\
  parse_text (u "10:00 : 鱼上钩了！鱼竿：1，鱼信息:【鲤鱼】2.5kg" ++ [LF] ++
              u "10:01 : 捕获：鱼竿:1,【鲤鱼】2500克,总经验:100,耗时:30秒,鱼饵:蚯蚓" ++ [LF] ++
              u "10:02 : 鱼上钩了！鱼竿：2，鱼信息:【草鱼】1.2.3kg") = Raise ValueError /\
  parse_text (u "09:59 : 鱼上钩了！鱼竿：2，鱼信息:【草鱼】1.2.3kg" ++ [LF] ++
              u "10:00 : 鱼上钩了！鱼竿：1，鱼信息:【鲤鱼】2.5kg" ++ [LF] ++
              u "10:01 : 捕获：鱼竿:1,【鲤鱼】2500克,总经验:100,耗时:30秒,鱼饵:蚯蚓") =
    Raise ValueError.
Proof. repeat apply conj; vm_compute; reflexivity. Qed.

(** C4 as written fails: a valid Hook line and a valid Lost line of the
    same slot give no record when a later line carries a number that
    does not convert. *)
Lemma lost_pair_counterexample :
  parse_line_fast (u "10:00 : 鱼上钩了！鱼竿：1，鱼信息:【鲤鱼】2.5kg") =
    Ret (Some (PHook (u "10:00") 1 (u "鲤鱼") Literal.float_2_5)) /\
  parse_line_fast (u "10:01 : 鱼脱钩了！鱼竿：1") =
    Ret (Some (PLost (u "10:01") 1 (u "？") float_zero)) /\
  parse_text (u "10:00 : 鱼上钩了！鱼竿：1，鱼信息:【鲤鱼】2.5kg" ++ [LF] ++
              u "10:01 : 鱼脱钩了！鱼竿：1" ++ [LF] ++
              u "10:02 : 鱼上钩了！鱼竿：2，鱼信息:【草鱼】1.2.3kg") = Raise ValueError.
Proof. repeat apply conj; vm_compute; reflexivity. Qed.

(** C6 as written fails: two valid Hook lines of a slot and a valid Lost
    line after them give no record when a later line carries a number
    that does not convert. *)
Lemma second_hook_counterexample :
  parse_line_fast (u "10:00 : 鱼上钩了！鱼竿：1，鱼信息:【鲤鱼】2.5kg") =
    Ret (Some (PHook (u "10:00") 1 (u "鲤鱼") Literal.float_2_5)) /\
  parse_line_fast (u "10:02 : 鱼上钩了！鱼竿：1，鱼信息:【鲫鱼】1.2kg") =
    Ret (Some (PHook (u "10:02") 1 (u "鲫鱼") Literal.float_1_2)) /\
  parse_line_fast (u "10:04 : 鱼脱钩了！鱼竿：1") =
    Ret (Some (PLost (u "10:04") 1 (u "？") float_zero)) /\
  parse_text (u "10:00 : 鱼上钩了！鱼竿：1，鱼信息:【鲤鱼】2.5kg" ++ [LF] ++
              u "10:02 : 鱼上钩了！鱼竿：1，鱼信息:【鲫鱼】1.2kg" ++ [LF] ++
              u "10:04 : 鱼脱钩了！鱼竿：1" ++ [LF] ++
              u "10:05 : 鱼上钩了！鱼竿：2，鱼信息:【草鱼】1.2.3kg") = Raise ValueError.
Proof. repeat apply conj; vm_compute; reflexivity. Qed.
